(** * python-can: the bus abstraction, the daemon ASCII codec and the
      native-driver message and handle model

    A shallow embedding of
    - [src/can/interfaces/socketcand_bus.py] (frame <-> ASCII codec, connection
      establishment),
    - [src/can/bus.py] ([BusABC]: transmit queue, writer loop, shutdown),
    - [src/can/CAN.py] ([BufferedReader]),
    - [src/pycanlib/CAN.py] ([LogMessage], [Message], [_Handle], [_get_handle],
      [Bus.__init__]),
    followed by the properties of these definitions.

    Python values are modelled as follows: [int] is [Z]; [str] is [string]
    (one [ascii] per code point, code points below 256); [bytearray] is
    [list byte]; a [float] that is only stored and tested for its sign is
    kept as an exact signed decimal (of these, only the sign and the special
    values are ever inspected); the readings of the clock in
    [connect_to_server], which are multiplied, added and compared, are
    binary64 floats with the arithmetic of IEEE 754, as the kernel's
    [PrimFloat] computes it; a raised exception is the [Raise] branch of
    [result]. *)

From Stdlib Require Import PrimFloat.
From Stdlib Require Import ZArith NArith Ascii String List Bool Lia QArith.
From Stdlib Require Import DecimalString DecimalZ.
From Stdlib.Strings Require Import Byte.
From stdpp Require Import gmap strings list.

Local Open Scope Z_scope.

(** ** Part I: the embedding *)

(** *** Python built-ins used by the sources *)
Module Py.

(** A Python [float]: not-a-number, an infinity, or the finite value
    [(-1)^neg * m * 10^e]. *)
Inductive pyfloat :=
| FNan
| FInf (neg : bool)
| FFin (neg : bool) (m : N) (e : Z).

(** [f < 0] on floats; every comparison with a NaN is false, and
    [-0.0 < 0] is false. *)
Definition float_ltz (f : pyfloat) : bool :=
  match f with
  | FNan => false
  | FInf neg => neg
  | FFin neg m _ => neg && negb (m =? 0)%N
  end.

(** The values the sources receive as constructor arguments. Python 2
    distinguishes [int] from [long]; [bool] is a subclass of [int]. *)
#[warnings="-register-all"]
Inductive pyval :=
| VInt (z : Z)
| VLong (z : Z)
| VBool (b : bool)
| VFloat (f : pyfloat)
| VStr (s : string)
| VNone
| VList (l : list pyval).

(** [type(v).__name__] *)
Definition class_name (v : pyval) : string :=
  match v with
  | VInt _ => "int"
  | VLong _ => "long"
  | VBool _ => "bool"
  | VFloat _ => "float"
  | VStr _ => "str"
  | VNone => "NoneType"
  | VList _ => "list"
  end.

(** Exceptions raised by the modelled code. [ReferenceError] stands for
    following an address that is not in the object store, which no Python
    program can do. *)
Inductive exn :=
| IndexError
| ValueError
| TypeError
| AttributeError
| ReferenceError
| Empty
| Full
| TimeoutError (msg : string)
| InvalidMessageParameterError
    (parameter_name : string) (parameter_value : pyval) (reason : string)
| InvalidBusParameterError
    (parameter_name : string) (parameter_value : pyval) (reason : string)
| CANLIBError (error_code : Z).

Inductive result (A : Type) :=
| Ok (a : A)
| Raise (e : exn).
Arguments Ok {A} a.
Arguments Raise {A} e.

Definition bind {A B} (r : result A) (k : A -> result B) : result B :=
  match r with
  | Ok a => k a
  | Raise e => Raise e
  end.


(** **** [str] methods *)

Fixpoint startswith (s p : string) {struct p} : bool :=
  match p with
  | EmptyString => true
  | String c p' =>
      match s with
      | EmptyString => false
      | String d s' => if Ascii.eqb c d then startswith s' p' else false
      end
  end.

Fixpoint drop (n : nat) (s : string) : string :=
  match n with
  | O => s
  | S n' =>
      match s with
      | EmptyString => EmptyString
      | String _ s' => drop n' s'
      end
  end.

Fixpoint take (n : nat) (s : string) : string :=
  match n with
  | O => EmptyString
  | S n' =>
      match s with
      | EmptyString => EmptyString
      | String c s' => String c (take n' s')
      end
  end.

(** [s.endswith(p)]: the last [len(p)] characters of [s] are [p]. *)
Definition endswith (s p : string) : bool :=
  if (String.length s <? String.length p)%nat then false
  else String.eqb (drop (String.length s - String.length p) s) p.

Definition removeprefix (s p : string) : string :=
  if startswith s p then drop (String.length p) s else s.

(** [if suffix and self.endswith(suffix): return self[:-len(suffix)]] *)
Definition removesuffix (s p : string) : string :=
  if negb (String.eqb p EmptyString) && endswith s p
  then take (String.length s - String.length p) s
  else s.

(** [s.split(sep, maxsplit)] for a one-character separator: at most
    [maxsplit] cuts, from the left; empty fields are kept. *)
Fixpoint split (sep : ascii) (maxsplit : nat) (s : string) : list string :=
  match s with
  | EmptyString => [EmptyString]
  | String c s' =>
      if Ascii.eqb c sep then
        match maxsplit with
        | O => [s]
        | S n => EmptyString :: split sep n s'
        end
      else
        match split sep maxsplit s' with
        | [] => [String c EmptyString]
        | w :: ws => String c w :: ws
        end
  end.

(** [sep.join(l)] *)
Fixpoint join (sep : string) (l : list string) : string :=
  match l with
  | [] => EmptyString
  | [x] => x
  | x :: rest => x +:+ sep +:+ join sep rest
  end.

(** [l[i]] for [0 <= i] *)
Definition index {A} (l : list A) (i : nat) : result A :=
  match l !! i with
  | Some x => Ok x
  | None => Raise IndexError
  end.

(** [l[0:stop]]: a negative [stop] counts from the end, and both ends are
    clipped to the sequence. *)
Definition slice_to {A} (l : list A) (stop : Z) : list A :=
  let n := Z.of_nat (length l) in
  let stop' := if stop <? 0 then Z.max (stop + n) 0 else Z.min stop n in
  firstn (Z.to_nat stop') l.

(** [a and b]: [b] is evaluated only when [a] is true. *)
Definition py_and (a : bool) (b : unit -> result bool) : result bool :=
  if a then b tt else Ok false.

(** **** [queue.Queue] *)

(** A FIFO with its bound; [maxsize <= 0] means unbounded. *)
Record Queue (A : Type) := {
  maxsize : Z;
  items : list A
}.
Arguments maxsize {A} _.
Arguments items {A} _.

Definition Queue_new {A} (maxsize : Z) : Queue A :=
  {| maxsize := maxsize; items := [] |}.

Definition qsize {A} (q : Queue A) : Z := Z.of_nat (length (items q)).

Definition empty {A} (q : Queue A) : bool :=
  match items q with [] => true | _ => false end.

Definition full {A} (q : Queue A) : bool :=
  (0 <? maxsize q) && (maxsize q <=? qsize q).

Definition put_nowait {A} (x : A) (q : Queue A) : result (Queue A) :=
  if full q then Raise Full
  else Ok {| maxsize := maxsize q; items := items q ++ [x] |}.

(** [q.put(x)] without a timeout: [None] when the queue is full, where the
    call waits for a consumer. *)
Definition put {A} (x : A) (q : Queue A) : option (Queue A) :=
  if full q then None
  else Some {| maxsize := maxsize q; items := items q ++ [x] |}.

Definition get_nowait {A} (q : Queue A) : result (A * Queue A) :=
  match items q with
  | [] => Raise Empty
  | x :: rest => Ok (x, {| maxsize := maxsize q; items := rest |})
  end.

(** [q.get(timeout=t)]. What other threads do while the caller waits is
    the argument [arrival]: [Some (d, x)] when the next [put] on this queue
    happens [d] seconds after the call and carries [x], [None] when there
    is none. The result comes with the time spent waiting. *)
Definition get {A} (timeout : Q) (arrival : option (Q * A)) (q : Queue A)
  : result (A * Queue A) * Q :=
  match items q with
  | x :: rest => (Ok (x, {| maxsize := maxsize q; items := rest |}), 0%Q)
  | [] =>
      match arrival with
      | Some (d, x) =>
          if negb (Qle_bool timeout d) then (Ok (x, q), d)
          else (Raise Empty, timeout)
      | None => (Raise Empty, timeout)
      end
  end.

(** [str(z)] and ["%d" % z] *)
Definition format_dec (z : Z) : string :=
  NilZero.string_of_int (Z.to_int z).

(** **** Characters *)

Definition code (c : ascii) : N := N_of_ascii c.

(** C [Py_ISSPACE]: the ASCII white space skipped by [bytearray.fromhex]. *)
Definition is_space (c : ascii) : bool :=
  let n := code c in
  ((9 <=? n) && (n <=? 13) || (n =? 32))%N.

(** The white space [int()] and [float()] strip from both ends of a [str],
    on code points below 256: the ASCII white space, and the next-line and
    no-break-space characters. *)
Definition is_unicode_space (c : ascii) : bool :=
  let n := code c in
  ((9 <=? n) && (n <=? 13) || (n =? 32) || (n =? 133) || (n =? 160))%N.

Definition is_decimal (c : ascii) : bool :=
  let n := code c in ((48 <=? n) && (n <=? 57))%N.

(** The value of a hexadecimal digit, either case. *)
Definition digit_value (c : ascii) : option N :=
  let n := code c in
  if ((48 <=? n) && (n <=? 57))%N then Some (n - 48)%N
  else if ((97 <=? n) && (n <=? 102))%N then Some (n - 87)%N
  else if ((65 <=? n) && (n <=? 70))%N then Some (n - 55)%N
  else None.

(** The digit character of [d < 16], in the requested case. *)
Definition hex_digit (upper : bool) (d : N) : ascii :=
  ascii_of_N (if (d <? 10)%N then 48 + d
              else if upper then 55 + d else 87 + d)%N.

Definition lower (c : ascii) : ascii :=
  let n := code c in
  if ((65 <=? n) && (n <=? 90))%N then ascii_of_N (n + 32) else c.

Fixpoint lstrip (sp : ascii -> bool) (s : string) : string :=
  match s with
  | EmptyString => EmptyString
  | String c s' => if sp c then lstrip sp s' else s
  end.

Fixpoint rstrip (sp : ascii -> bool) (s : string) : string :=
  match s with
  | EmptyString => EmptyString
  | String c s' =>
      match rstrip sp s' with
      | EmptyString => if sp c then EmptyString else String c EmptyString
      | r => String c r
      end
  end.

Fixpoint str_lower (s : string) : string :=
  match s with
  | EmptyString => EmptyString
  | String c s' => String (lower c) (str_lower s')
  end.

(** **** Formatting an [int] with the [x] and [X] presentation types *)

(** Most significant digit first; [fuel] bounds the number of digits. *)
Fixpoint hex_digits (fuel : nat) (upper : bool) (n : N) (acc : string)
  : string :=
  match fuel with
  | O => acc
  | S f =>
      let acc' := String (hex_digit upper (n mod 16)) acc in
      if (n / 16 =? 0)%N then acc' else hex_digits f upper (n / 16) acc'
  end.

(** ["{:x}".format(z)] and [f"{z:X}"]: a minus sign for a negative
    number, then the digits of the magnitude; no prefix, no padding. *)
Definition format_hex (upper : bool) (z : Z) : string :=
  let n := Z.to_N (Z.abs z) in
  let digits := hex_digits (S (N.to_nat (N.log2 n))) upper n EmptyString in
  if z <? 0 then String "-" digits else digits.

(** **** [int(s, 16)] *)

Definition split_sign (s : string) : bool * string :=
  match s with
  | String "+" s' => (false, s')
  | String "-" s' => (true, s')
  | _ => (false, s)
  end.

(** Digits with single underscores between them. Returns the value, the
    number of digits and the unread rest; [None] for a doubled or a
    trailing underscore. *)
Fixpoint int_digits (s : string) (acc : N) (ndigits : nat) (prev_us : bool)
  : option (N * nat * string) :=
  match s with
  | EmptyString => if prev_us then None else Some (acc, ndigits, EmptyString)
  | String c s' =>
      if Ascii.eqb c "_" then
        if prev_us then None else int_digits s' acc ndigits true
      else
        match digit_value c with
        | Some d => int_digits s' (16 * acc + d)%N (S ndigits) false
        | None => if prev_us then None else Some (acc, ndigits, s)
        end
  end.

Definition skip_hex_prefix (s : string) : string :=
  match s with
  | String "0" (String x r) =>
      if Ascii.eqb x "x" || Ascii.eqb x "X" then
        match r with
        | String "_" r' => r'
        | _ => r
        end
      else s
  | _ => s
  end.

Definition int16 (s : string) : result Z :=
  let (neg, s1) := split_sign (lstrip is_unicode_space s) in
  let s2 := skip_hex_prefix s1 in
  if startswith s2 "_" then Raise ValueError
  else
    match int_digits s2 0%N O false with
    | None => Raise ValueError
    | Some (v, n, rest) =>
        match n, lstrip is_unicode_space rest with
        | S _, EmptyString => Ok (if neg then - Z.of_N v else Z.of_N v)
        | _, _ => Raise ValueError
        end
    end.

(** **** [float(s)] *)

(** Underscores are accepted only between two decimal digits; they are
    removed before the number is read. *)
Fixpoint strip_underscores (prev : ascii) (s : string) : option string :=
  match s with
  | EmptyString => if Ascii.eqb prev "_" then None else Some EmptyString
  | String c s' =>
      if Ascii.eqb c "_" then
        if is_decimal prev then strip_underscores c s' else None
      else if Ascii.eqb prev "_" && negb (is_decimal c) then None
      else option_map (String c) (strip_underscores c s')
  end.

Fixpoint dec_digits (s : string) (acc : N) (ndigits : nat)
  : N * nat * string :=
  match s with
  | EmptyString => (acc, ndigits, EmptyString)
  | String c s' =>
      if is_decimal c
      then dec_digits s' (10 * acc + (code c - 48))%N (S ndigits)
      else (acc, ndigits, s)
  end.

(** The exponent part: [e] or [E], an optional sign, at least one digit. *)
Definition float_exponent (s : string) : option Z :=
  match s with
  | EmptyString => Some 0
  | String c s' =>
      if Ascii.eqb c "e" || Ascii.eqb c "E" then
        let (neg, s1) := split_sign s' in
        match dec_digits s1 0%N O with
        | (v, S _, EmptyString) => Some (if neg then - Z.of_N v else Z.of_N v)
        | _ => None
        end
      else None
  end.

Definition float_number (neg : bool) (s : string) : option pyfloat :=
  let '(i, ni, s1) := dec_digits s 0%N O in
  let '(m, nf, s2) :=
    match s1 with
    | String "." s1' => dec_digits s1' i O
    | _ => (i, O, s1)
    end in
  match (ni + nf)%nat with
  | O => None
  | S _ =>
      match float_exponent s2 with
      | Some e => Some (FFin neg m (e - Z.of_nat nf))
      | None => None
      end
  end.

Definition float (s : string) : result pyfloat :=
  let s0 := rstrip is_unicode_space (lstrip is_unicode_space s) in
  match strip_underscores "000" s0 with
  | None => Raise ValueError
  | Some s1 =>
      let (neg, s2) := split_sign s1 in
      let w := str_lower s2 in
      if String.eqb w "inf" || String.eqb w "infinity" then Ok (FInf neg)
      else if String.eqb w "nan" then Ok FNan
      else
        match float_number neg s2 with
        | Some f => Ok f
        | None => Raise ValueError
        end
  end.

(** **** [bytearray.fromhex(s)] *)

Definition byte_of_nibbles (top bot : N) : byte :=
  match Byte.of_N (16 * top + bot) with
  | Some b => b
  | None => x00
  end.

(** Two hexadecimal digits per byte; white space is skipped between
    bytes, never inside one. *)
Fixpoint fromhex (s : string) : result (list byte) :=
  match s with
  | EmptyString => Ok []
  | String c s' =>
      if is_space c then fromhex s'
      else
        match digit_value c, s' with
        | Some top, String d s'' =>
            match digit_value d with
            | Some bot =>
                bind (fromhex s'') (fun bs => Ok (byte_of_nibbles top bot :: bs))
            | None => Raise ValueError
            end
        | _, _ => Raise ValueError
        end
  end.

End Py.

(** *** [src/can/interfaces/socketcand_bus.py] *)
Module socketcand_bus.
Import Py.

(** Modelled from the spec: the class [can.Message] that this file
    constructs and reads is not under [src/] (the [Message] of
    [pycanlib/CAN.py] takes other arguments). Section 3 of the spec gives
    the frame its fields; the four the codec passes by keyword and reads
    back are kept here, stored as they are given. *)
Record Message := {
  timestamp : pyfloat;
  arbitration_id : Z;
  data : list byte;
  dlc : Z
}.

(** Records written to the module's logger. *)
Inductive log_record :=
| warning (text : string).

Definition convert_ascii_message_to_can_message (ascii_message : string)
  : list log_record * result (option Message) :=
  if negb (startswith ascii_message "< frame ")
     || negb (endswith ascii_message " >")
  then
    ([warning ("Could not parse ascii message: " +:+ ascii_message)], Ok None)
  else
    let frame_string :=
      removesuffix (removeprefix ascii_message "< frame ") " >" in
    let parts := split " " 3 frame_string in
    ([],
     bind (index parts 0) (fun p0 =>
     bind (int16 p0) (fun can_id =>
     bind (index parts 1) (fun p1 =>
     bind (float p1) (fun timestamp =>
     bind (index parts 2) (fun p2 =>
     bind (fromhex p2) (fun data =>
     let can_dlc := Z.of_nat (length data) in
     Ok (Some {| timestamp := timestamp; arbitration_id := can_id;
                 data := data; dlc := can_dlc |})))))))).

Definition byte_value (b : byte) : Z := Z.of_N (Byte.to_N b).

Definition convert_can_message_to_ascii_message (can_message : Message)
  : string :=
  let can_id := arbitration_id can_message in
  let data := data can_message in
  let length := dlc can_message in
  let bytes_string :=
    join " " (map (fun x => format_hex false (byte_value x))
                  (slice_to data length)) in
  "< send " +:+ format_hex true can_id +:+ " " +:+ format_hex true length
    +:+ " " +:+ bytes_string +:+ " >".

(** The wall clock ([time.time()], in seconds) and the socket are the
    environment of [connect_to_server]: [clock k] is the [k]-th reading of
    the clock and [attempt i] the outcome of the [i]-th call of
    [s.connect]. A reading is a binary64 [float], and so are [now] and
    [end_time]: the product [time.time() * 1000], the sum
    [now + timeout_ms] and the test [now < end_time] are those of binary64
    (round to nearest even), with the integers 1000 and 10000 as the floats
    of the same value. *)
Inductive connect_outcome :=
| Connected
| Failed (type_e message_e : string).

Definition timeout_ms : PrimFloat.float := 10000%float.

(** The [while now < end_time] loop; [i] counts the attempts made so far,
    which is also the number of clock readings taken after the first.
    [None] when [fuel] iterations did not finish the loop. *)
Fixpoint connect_loop (fuel : nat) (clock : nat -> PrimFloat.float)
    (attempt : nat -> connect_outcome) (i : nat)
    (now end_time : PrimFloat.float)
    (log : list log_record) : option (list log_record * result unit) :=
  match fuel with
  | O => None
  | S fuel' =>
      if PrimFloat.ltb now end_time then
        match attempt i with
        | Connected => Some (log, Ok tt)
        | Failed type_e message_e =>
            let log' :=
              log ++ [warning ("Failed to connect to server: " +:+ type_e
                                 +:+ " Message: " +:+ message_e)] in
            let now' := (clock (S i) * 1000)%float in
            connect_loop fuel' clock attempt (S i) now' end_time log'
        end
      else
        Some (log,
              Raise (TimeoutError
                "connect_to_server: Failed to connect server for 10000 ms"))
  end.

Definition connect_to_server (fuel : nat) (clock : nat -> PrimFloat.float)
    (attempt : nat -> connect_outcome)
  : option (list log_record * result unit) :=
  let now := (clock O * 1000)%float in
  let end_time := (now + timeout_ms)%float in
  connect_loop fuel clock attempt O now end_time [].

End socketcand_bus.

(** *** [src/can/bus.py] *)
Module bus.
Import Py.

Section BusABC.
(** [M] is the class of the messages and [L] that of the listener
    callbacks. A queued object is [Some m], or [None] for Python's
    [None], which [write] accepts like any other object. *)
Context {M L : Type}.

Record BusABC := {
  listeners : list L;
  _tx_queue : Queue (option M);
  _threads_running : bool
}.

(** The constructor also starts [tx_thread] and [rx_thread] on threads
    of their own; the fields are what it leaves in the object. *)
Definition __init__ : BusABC :=
  {| listeners := [];
     _tx_queue := Queue_new 0;
     _threads_running := true |}.

Definition write (msg : option M) (self : BusABC) : result BusABC :=
  bind (put_nowait msg (_tx_queue self)) (fun q =>
  Ok {| listeners := listeners self;
        _tx_queue := q;
        _threads_running := _threads_running self |}).

Definition shutdown (self : BusABC) : BusABC :=
  {| listeners := listeners self;
     _tx_queue := _tx_queue self;
     _threads_running := false |}.

(** The state of a run of [tx_thread]: the bus and the messages handed
    to [_put_message] so far, oldest first. *)
Record tx_state := {
  self : BusABC;
  put_calls : list M
}.

(** [while not self._tx_queue.empty(): tx_msg = self._tx_queue.get(...)]
    with the [_put_message] call for every object that is not [None]. *)
Fixpoint drain (q : list (option M)) (put_calls : list M) : list M :=
  match q with
  | [] => put_calls
  | None :: q' => drain q' put_calls
  | Some tx_msg :: q' => drain q' (put_calls ++ [tx_msg])
  end.

(** One pass through the body of the outer loop. [BusABC] defines none
    of [single_handle], [writing_event] and [done_writing]: reading one
    of them is an [AttributeError]. *)
Definition tx_iteration (st : tx_state) : result tx_state :=
  bind (py_and false (fun _ => Raise AttributeError)) (fun single =>
  bind
    (if single then
       if negb (empty (_tx_queue (self st))) then Raise AttributeError
       else Ok st (* [raise queue.Empty], caught below *)
     else
       Ok {| self :=
               {| listeners := listeners (self st);
                  _tx_queue :=
                    {| maxsize := maxsize (_tx_queue (self st));
                       items := [] |};
                  _threads_running := _threads_running (self st) |};
             put_calls :=
               drain (items (_tx_queue (self st))) (put_calls st) |})
    (fun st' =>
  bind (py_and false (fun _ => Raise AttributeError)) (fun release =>
  if release then Raise AttributeError else Ok st'))).

(** [while False and self._threads_running.is_set(): ...]; [None] when
    [fuel] passes did not leave the loop. *)
Fixpoint tx_thread_loop (fuel : nat) (st : tx_state)
  : option (result tx_state) :=
  match fuel with
  | O => None
  | S fuel' =>
      match py_and false (fun _ => Ok (_threads_running (self st))) with
      | Raise e => Some (Raise e)
      | Ok false => Some (Ok st)
      | Ok true =>
          match tx_iteration st with
          | Raise e => Some (Raise e)
          | Ok st' => tx_thread_loop fuel' st'
          end
      end
  end.

Definition tx_thread (fuel : nat) (self : BusABC)
  : option (result tx_state) :=
  tx_thread_loop fuel {| self := self; put_calls := [] |}.

End BusABC.
Arguments BusABC : clear implicits.
Arguments tx_state : clear implicits.

End bus.

(** *** [src/can/CAN.py] *)
Module CAN.
Import Py.

Section BufferedReader.
Context {M : Type}.

Record BufferedReader := {
  buffer : Queue M
}.

Definition __init__ : BufferedReader :=
  {| buffer := Queue_new 0 |}.

Definition on_message_received (msg : M) (self : BufferedReader)
  : option BufferedReader :=
  match put msg (buffer self) with
  | Some q => Some {| buffer := q |}
  | None => None
  end.

(** A call of [reader.get_message] with the positional arguments [args].
    The method is declared with [self] alone, so a call that passes anything
    else is a [TypeError] before the body runs. The result is what the call
    evaluates to, the time it kept the caller waiting, and the reader
    afterwards. *)
Definition get_message (args : list pyval) (arrival : option (Q * M))
    (self : BufferedReader)
  : result (option M) * Q * BufferedReader :=
  match args with
  | _ :: _ => (Raise TypeError, 0%Q, self)
  | [] =>
      match get (1 # 2) arrival (buffer self) with
      | (Ok (msg, q), waited) => (Ok (Some msg), waited, {| buffer := q |})
      | (Raise Empty, waited) => (Ok None, waited, self)
      | (Raise e, waited) => (Raise e, waited, self)
      end
  end.

End BufferedReader.
Arguments BufferedReader : clear implicits.

End CAN.

(** *** [src/pycanlib/CAN.py] *)
Module pycanlib.
Import Py.

(** [isinstance(v, types.IntType)], with the integer [v] stands for. *)
Definition as_int (v : pyval) : option Z :=
  match v with
  | VInt z => Some z
  | VBool b => Some (if b then 1 else 0)
  | _ => None
  end.

(** [z in range(lo, hi)] *)
Definition in_range (z lo hi : Z) : bool := (lo <=? z) && (z <? hi).

(** [v < 0] for a [float], an [int] or a [bool]. *)
Definition ltz (v : pyval) : bool :=
  match v with
  | VInt z => z <? 0
  | VFloat f => float_ltz f
  | _ => false
  end.

Module LogMessage.
Record t := { timestamp : pyval }.

Definition __init__ (timestamp : pyval) : result t :=
  match timestamp with
  | VFloat _ | VInt _ | VBool _ =>
      if ltz timestamp then
        Raise (InvalidMessageParameterError "timestamp" timestamp
                 "timestamp value must be positive")
      else Ok {| timestamp := timestamp |}
  | _ =>
      Raise (InvalidMessageParameterError "timestamp" timestamp
               ("expected float or int; received '"
                  +:+ class_name timestamp +:+ "'"))
  end.
End LogMessage.

Module Message.
Record t := {
  timestamp : pyval;
  device_id : pyval;
  payload : list pyval;
  dlc : pyval;
  flags : pyval
}.

(** [for item in payload: ...]; [payload] is the whole list, for the
    error. *)
Fixpoint check_items (payload items : list pyval) : result unit :=
  match items with
  | [] => Ok tt
  | item :: rest =>
      match as_int item with
      | None =>
          Raise (InvalidMessageParameterError "payload" (VList payload)
                   ("payload array must contain only integers; found '"
                      +:+ class_name item +:+ "'"))
      | Some z =>
          if negb (in_range z 0 (2 ^ 8)) then
            Raise (InvalidMessageParameterError "payload" (VList payload)
              "payload array element values must be in range [0, 2**8-1]")
          else check_items payload rest
      end
  end.

(** A scalar argument that has to be an [int] inside [range(lo, hi)]. *)
Definition check_int (name : string) (v : pyval) (type_reason : string)
    (lo hi : Z) (range_reason : string) : result unit :=
  match as_int v with
  | None => Raise (InvalidMessageParameterError name v type_reason)
  | Some z =>
      if negb (in_range z lo hi)
      then Raise (InvalidMessageParameterError name v range_reason)
      else Ok tt
  end.

Definition __init__ (device_id : pyval) (payload : option (list pyval))
    (dlc flags timestamp : pyval) : result t :=
  let payload := match payload with None => [] | Some l => l end in
  bind (LogMessage.__init__ timestamp) (fun base =>
  bind (check_int "device_id" device_id
          ("expected int; received '" +:+ class_name device_id +:+ "'")
          0 (2 ^ 11) "device_id must be in range [0, 2**11-1]") (fun _ =>
  bind (if negb (in_range (Z.of_nat (length payload)) 0 9) then
          Raise (InvalidMessageParameterError "payload" (VList payload)
                   "payload array length must be in range [0, 8]")
        else Ok tt) (fun _ =>
  bind (check_items payload payload) (fun _ =>
  bind (check_int "dlc" dlc
          ("expected int; received " +:+ class_name dlc)
          0 9 "DLC value must be in range [0, 8]") (fun _ =>
  bind (check_int "flags" flags
          ("expected int; received " +:+ class_name flags)
          0 (2 ^ 16) "flags value must be in range [0, 2**16-1]") (fun _ =>
  Ok {| timestamp := LogMessage.timestamp base;
        device_id := device_id;
        payload := payload;
        dlc := dlc;
        flags := flags |})))))).
End Message.

(** **** The driver *)

Record bus_params := {
  speed : Z; tseg1 : Z; tseg2 : Z; sjw : Z; no_samp : Z
}.

Global Instance bus_params_eq_dec : EqDecision bus_params.
Proof. solve_decision. Defined.

Inductive callback := RX_CALLBACK | TX_CALLBACK.
Inductive notify := canNOTIFY_RX | canNOTIFY_TX.

Inductive canlib_call :=
| canOpenChannel_call (channel flags : Z)
| canFlushReceiveQueue (h : Z)
| canFlushTransmitQueue (h : Z)
| canIoCtl_SET_TIMER_SCALE (h : Z) (resolution : Z)
| canBusOn (h : Z)
| canBusOff (h : Z)
| canSetBusParams (h : Z) (p : bus_params)
| canSetDriverMode (h : Z) (driver_mode : Z)
| kvSetNotifyCallback (h : Z) (cb : callback) (what : notify).

(** Modelled from the spec: the bindings [canlib] and [canstat] are not
    under [src/]. Section 6 of the spec gives their surface: open(channel,
    flags) yields a handle or an error whose code tells "not found" from
    the rest; bus parameters are set and read per handle; bus on and off;
    a notification callback is registered per handle and direction. The
    driver is this record: its constants, the status an open of a channel
    with given flags meets ([0] is [canOK]), the next handle it hands out
    (handles are never reused), the bus parameters per handle, the timer,
    and the calls it has served, oldest first. *)
Record canlib := {
  FLAGS_MASK : Z;
  canERR_NOTFOUND : Z;
  canDRIVER_SILENT : Z;
  num_channels : Z;
  open_status : Z -> Z -> Z;
  next_handle : Z;
  params : gmap Z bus_params;
  default_params : bus_params;
  timer : Z;
  calls : list canlib_call
}.

Definition served (c : canlib_call) (d : canlib) : canlib :=
  {| FLAGS_MASK := FLAGS_MASK d; canERR_NOTFOUND := canERR_NOTFOUND d;
     canDRIVER_SILENT := canDRIVER_SILENT d;
     num_channels := num_channels d; open_status := open_status d;
     next_handle := next_handle d; params := params d;
     default_params := default_params d; timer := timer d;
     calls := calls d ++ [c] |}.

Definition canOpenChannel (channel flags : Z) (d : canlib)
  : canlib * result Z :=
  let d := served (canOpenChannel_call channel flags) d in
  if open_status d channel flags =? 0 then
    ({| FLAGS_MASK := FLAGS_MASK d; canERR_NOTFOUND := canERR_NOTFOUND d;
        canDRIVER_SILENT := canDRIVER_SILENT d;
        num_channels := num_channels d; open_status := open_status d;
        next_handle := next_handle d + 1; params := params d;
        default_params := default_params d; timer := timer d;
        calls := calls d |},
     Ok (next_handle d))
  else (d, Raise (CANLIBError (open_status d channel flags))).

Definition canGetBusParams (h : Z) (d : canlib) : bus_params :=
  match params d !! h with
  | Some p => p
  | None => default_params d
  end.

Definition set_params (h : Z) (p : bus_params) (d : canlib) : canlib :=
  let d := served (canSetBusParams h p) d in
  {| FLAGS_MASK := FLAGS_MASK d; canERR_NOTFOUND := canERR_NOTFOUND d;
     canDRIVER_SILENT := canDRIVER_SILENT d;
     num_channels := num_channels d; open_status := open_status d;
     next_handle := next_handle d; params := <[h := p]> (params d);
     default_params := default_params d; timer := timer d;
     calls := calls d |}.

Definition MICROSECONDS_PER_TIMER_TICK : Z := 1000000 / 1000000.

(** **** Handles, buses and the module state *)

(** Objects live in a store and are known by their address: a registry
    and a [Bus] hold the address of a handle, a handle holds the addresses
    of its listeners. *)
Module _Handle.
Record t := {
  channel : Z;
  flags : Z;
  _canlib_handle : Z;
  listeners : list nat;
  tx_queue : Queue Message.t;
  reading : bool;
  writing : bool;
  receive_callback_enabled : bool;
  transmit_callback_enabled : bool
}.

Definition add_listener (listener : nat) (self : t) : t :=
  {| channel := channel self; flags := flags self;
     _canlib_handle := _canlib_handle self;
     listeners := listeners self ++ [listener];
     tx_queue := tx_queue self;
     reading := reading self; writing := writing self;
     receive_callback_enabled := receive_callback_enabled self;
     transmit_callback_enabled := transmit_callback_enabled self |}.
End _Handle.

Module Bus.
Record t := {
  name : string;
  _read_handle : nat;
  _write_handle : nat;
  driver_mode : Z;
  rx_queue : Queue Message.t;
  timer_offset : Z
}.
End Bus.

Record world := {
  drv : canlib;
  handles : gmap nat _Handle.t;
  buses : gmap nat Bus.t;
  READ_HANDLE_REGISTRY : gmap Z nat;
  WRITE_HANDLE_REGISTRY : gmap Z nat
}.

(** The dictionary a caller passes as [registry]: one of the two of the
    module. *)
Inductive registry_name := READ | WRITE.

Global Instance registry_name_eq_dec : EqDecision registry_name.
Proof. solve_decision. Defined.

Definition registry_of (r : registry_name) (w : world) : gmap Z nat :=
  match r with
  | READ => READ_HANDLE_REGISTRY w
  | WRITE => WRITE_HANDLE_REGISTRY w
  end.

Definition set_drv (d : canlib) (w : world) : world :=
  {| drv := d; handles := handles w; buses := buses w;
     READ_HANDLE_REGISTRY := READ_HANDLE_REGISTRY w;
     WRITE_HANDLE_REGISTRY := WRITE_HANDLE_REGISTRY w |}.

Definition set_handles (hs : gmap nat _Handle.t) (w : world) : world :=
  {| drv := drv w; handles := hs; buses := buses w;
     READ_HANDLE_REGISTRY := READ_HANDLE_REGISTRY w;
     WRITE_HANDLE_REGISTRY := WRITE_HANDLE_REGISTRY w |}.

Definition set_buses (bs : gmap nat Bus.t) (w : world) : world :=
  {| drv := drv w; handles := handles w; buses := bs;
     READ_HANDLE_REGISTRY := READ_HANDLE_REGISTRY w;
     WRITE_HANDLE_REGISTRY := WRITE_HANDLE_REGISTRY w |}.

Definition set_registry (r : registry_name) (m : gmap Z nat) (w : world)
  : world :=
  match r with
  | READ =>
      {| drv := drv w; handles := handles w; buses := buses w;
         READ_HANDLE_REGISTRY := m;
         WRITE_HANDLE_REGISTRY := WRITE_HANDLE_REGISTRY w |}
  | WRITE =>
      {| drv := drv w; handles := handles w; buses := buses w;
         READ_HANDLE_REGISTRY := READ_HANDLE_REGISTRY w;
         WRITE_HANDLE_REGISTRY := m |}
  end.

(** Code that reads and changes the module state and may raise; what was
    changed before an exception stays changed. *)
Definition st (A : Type) : Type := world -> world * result A.

Definition ret {A} (a : A) : st A := fun w => (w, Ok a).
Definition raise {A} (e : exn) : st A := fun w => (w, Raise e).
Definition bindS {A B} (c : st A) (k : A -> st B) : st B :=
  fun w =>
    match c w with
    | (w', Ok a) => k a w'
    | (w', Raise e) => (w', Raise e)
    end.
Definition get_world : st world := fun w => (w, Ok w).
Definition modify (f : world -> world) : st unit := fun w => (f w, Ok tt).

Notation "x <- c ;; k" := (bindS c (fun x => k))
  (at level 62, c at next level, right associativity).
Notation "'do' c ;; k" := (bindS c (fun _ => k))
  (at level 62, c at next level, right associativity).

(** A driver call that only has an effect on the driver. *)
Definition driver (c : canlib_call) : st unit :=
  modify (fun w => set_drv (served c (drv w)) w).

(** [handle.get_canlib_handle()] *)
Definition get_canlib_handle (handle : nat) : st Z :=
  fun w =>
    match handles w !! handle with
    | Some h => (w, Ok (_Handle._canlib_handle h))
    | None => (w, Raise ReferenceError)
    end.

(** [_Handle(channel, flags)]: the address of the new object. *)
Definition _Handle__init__ (channel flags : Z) : st nat :=
  w <- get_world ;;
  let _num_channels := num_channels (drv w) in
  if negb (in_range channel 0 _num_channels) then
    raise (InvalidBusParameterError "channel" (VInt channel)
             ("available channels on this system are in the range [0, "
                +:+ format_dec _num_channels +:+ "]"))
  else if negb (Z.land flags (65535 - FLAGS_MASK (drv w)) =? 0) then
    raise (InvalidBusParameterError "flags" (VInt flags)
             "must contain only the canOPEN_* flags listed in canlib.py")
  else
    h <- (fun w =>
            match canOpenChannel channel flags (drv w) with
            | (d, Ok h) => (set_drv d w, Ok h)
            | (d, Raise (CANLIBError error_code)) =>
                if error_code =? canERR_NOTFOUND d then
                  (set_drv d w,
                   Raise (InvalidBusParameterError "flags" (VInt flags)
                     "no hardware is available that has all these capabilities"))
                else (set_drv d w, Raise (CANLIBError error_code))
            | (d, Raise e) => (set_drv d w, Raise e)
            end) ;;
    do driver (canFlushReceiveQueue h) ;;
    do driver (canFlushTransmitQueue h) ;;
    do driver (canIoCtl_SET_TIMER_SCALE h MICROSECONDS_PER_TIMER_TICK) ;;
    do driver (canBusOn h) ;;
    w <- get_world ;;
    let self := fresh (dom (handles w)) in
    do modify (set_handles
      (<[self := {| _Handle.channel := channel; _Handle.flags := flags;
                    _Handle._canlib_handle := h;
                    _Handle.listeners := [];
                    _Handle.tx_queue := Queue_new 0;
                    _Handle.reading := false; _Handle.writing := false;
                    _Handle.receive_callback_enabled := true;
                    _Handle.transmit_callback_enabled := true |}]>
         (handles w))) ;;
    ret self.

(** [handle.add_listener(listener)] *)
Definition add_listener (handle listener : nat) : st unit :=
  fun w =>
    match handles w !! handle with
    | Some h =>
        (set_handles
           (<[handle := _Handle.add_listener listener h]> (handles w)) w,
         Ok tt)
    | None => (w, Raise ReferenceError)
    end.

(** The test of the loop of [_get_handle] on one registered object. A
    registry holds addresses of objects of the store only; the address of
    none is no match. *)
Definition is_match (hs : gmap nat _Handle.t) (channel_number flags : Z)
    (obj : nat) : bool :=
  match hs !! obj with
  | Some h =>
      (_Handle.channel h =? channel_number) && (_Handle.flags h =? flags)
  | None => false
  end.

(** [for _key in registry.keys(): ...]: the loop does not stop at a
    match, so the last one in the order of the keys stays in [handle];
    [_found_handle] is true exactly when the result is not [None]. *)
Definition scan_step (hs : gmap nat _Handle.t) (channel_number flags : Z)
    (handle : option nat) (entry : Z * nat) : option nat :=
  if is_match hs channel_number flags (snd entry)
  then Some (snd entry) else handle.

Definition scan (hs : gmap nat _Handle.t) (channel_number flags : Z)
    (entries : list (Z * nat)) : option nat :=
  fold_left (scan_step hs channel_number flags) entries None.

Definition _get_handle (channel_number flags : Z) (registry : registry_name)
  : st nat :=
  w <- get_world ;;
  handle <-
    match scan (handles w) channel_number flags
            (map_to_list (registry_of registry w)) with
    | Some handle => ret handle
    | None =>
        handle <- _Handle__init__ channel_number flags ;;
        key <- get_canlib_handle handle ;;
        do modify (fun w =>
          set_registry registry (<[key := handle]> (registry_of registry w)) w) ;;
        ret handle
    end ;;
  key <- get_canlib_handle handle ;;
  w <- get_world ;;
  do (if decide (registry_of registry w = READ_HANDLE_REGISTRY w)
   then driver (kvSetNotifyCallback key RX_CALLBACK canNOTIFY_RX)
   else driver (kvSetNotifyCallback key TX_CALLBACK canNOTIFY_TX)) ;;
  ret handle.

(** The part of [Bus.__init__] that programs one handle. *)
Definition program_handle (h : Z) (p : bus_params) (driver_mode : Z)
  : st unit :=
  w <- get_world ;;
  let old := canGetBusParams h (drv w) in
  do (if negb (speed p =? speed old) || negb (tseg1 p =? tseg1 old)
      || negb (tseg2 p =? tseg2 old) || negb (sjw p =? sjw old)
      || negb (no_samp p =? no_samp old)
   then
     do driver (canBusOff h) ;;
     do modify (fun w => set_drv (set_params h p (drv w)) w) ;;
     driver (canBusOn h)
   else ret tt) ;;
  driver (canSetDriverMode h driver_mode).

(** [Bus(channel, flags, speed, ..., driver_mode, name)]: the address of
    the new bus. *)
Definition Bus__init__ (channel flags : Z) (p : bus_params)
    (driver_mode : Z) (name : string) : st nat :=
  _read_handle <- _get_handle channel flags READ ;;
  _write_handle <- _get_handle channel flags WRITE ;;
  rh <- get_canlib_handle _read_handle ;;
  do program_handle rh p driver_mode ;;
  w <- get_world ;;
  do (if negb (driver_mode =? canDRIVER_SILENT (drv w)) then
     wh <- get_canlib_handle _write_handle ;;
     program_handle wh p driver_mode
   else ret tt) ;;
  w <- get_world ;;
  let self := fresh (dom (buses w)) in
  do modify (set_buses
    (<[self := {| Bus.name := name;
                  Bus._read_handle := _read_handle;
                  Bus._write_handle := _write_handle;
                  Bus.driver_mode := driver_mode;
                  Bus.rx_queue := Queue_new 0;
                  Bus.timer_offset := timer (drv w) |}]> (buses w))) ;;
  do add_listener _read_handle self ;;
  ret self.

(** The module right after import, on a given driver. *)
Definition initial (d : canlib) : world :=
  {| drv := d; handles := ∅; buses := ∅;
     READ_HANDLE_REGISTRY := ∅; WRITE_HANDLE_REGISTRY := ∅ |}.

End pycanlib.

(** *** Further built-ins *)
Module Builtins.
Import Py.

(** The exceptions of the code below: those of [exn], and the ones the
    code above had no use for. *)
Inductive error :=
| Exn (e : exn)
| KeyError (key : Z)
| OverflowError
| UnicodeEncodeError (position : nat)
| UnicodeDecodeError (position : nat)
| CanError (message : string).

Inductive outcome (A : Type) :=
| Done (a : A)
| Fail (e : error).
Arguments Done {A} a.
Arguments Fail {A} e.

Definition lift {A} (r : result A) : outcome A :=
  match r with
  | Ok a => Done a
  | Raise e => Fail (Exn e)
  end.

Definition and_then {A B} (r : outcome A) (k : A -> outcome B) : outcome B :=
  match r with
  | Done a => k a
  | Fail e => Fail e
  end.

(** [s.encode("ascii")]: every code point has to be below 128; [pos] is
    the position of the first character of [s] in the whole string. *)
Fixpoint encode_ascii_from (pos : nat) (s : string) : outcome (list byte) :=
  match s with
  | EmptyString => Done []
  | String c s' =>
      if (code c <? 128)%N then
        and_then (encode_ascii_from (S pos) s')
          (fun bs => Done (byte_of_ascii c :: bs))
      else Fail (UnicodeEncodeError pos)
  end.

Definition encode_ascii (s : string) : outcome (list byte) :=
  encode_ascii_from 0 s.

(** [bs.decode("ascii")] *)
Fixpoint decode_ascii_from (pos : nat) (bs : list byte) : outcome string :=
  match bs with
  | [] => Done EmptyString
  | b :: bs' =>
      if (Byte.to_N b <? 128)%N then
        and_then (decode_ascii_from (S pos) bs')
          (fun s => Done (String (ascii_of_byte b) s))
      else Fail (UnicodeDecodeError pos)
  end.

Definition decode_ascii (bs : list byte) : outcome string :=
  decode_ascii_from 0 bs.

(** [sep.join(items)] for items that are arbitrary values: an item that
    is no [str] is a [TypeError]. *)
Fixpoint strings_of (items : list pyval) : result (list string) :=
  match items with
  | [] => Ok []
  | VStr s :: rest => bind (strings_of rest) (fun l => Ok (s :: l))
  | _ :: _ => Raise TypeError
  end.

Definition join_values (sep : string) (items : list pyval) : result string :=
  bind (strings_of items) (fun l => Ok (join sep l)).

End Builtins.

(** *** [src/can/interfaces/socketcand_bus.py], the bus class *)
Module SocketCanDaemonBus.
Import Py Builtins socketcand_bus.

(** The TCP socket of a bus: the bytes handed to [sendall] so far, and the
    bytes that have arrived and are not read yet, both oldest first. *)
Record socket := {
  outgoing : list byte;
  incoming : list byte
}.



(** What the methods of the bus write to the logger of the module: the
    records of the converters, a debug record for every text that is sent,
    and an info record for every read. The info record holds the bytes
    that were read; its text is ["Received Ascii Message: "] followed by
    their [repr]. *)
Inductive log_entry :=
| converter (r : log_record)
| debug (text : string)
| info_received (ascii_message : list byte).

Definition _tcp_send (message : string) (self : socket)
  : socket * list log_entry * outcome unit :=
  let log := [debug ("Sending Tcp Message: '" +:+ message +:+ "'")] in
  match encode_ascii message with
  | Done bs =>
      ({| outgoing := outgoing self ++ bs; incoming := incoming self |},
       log, Done tt)
  | Fail e => (self, log, Fail e)
  end.

Definition send (message : Message) (self : socket)
  : socket * list log_entry * outcome unit :=
  let ascii_message := convert_can_message_to_ascii_message message in
  _tcp_send ascii_message self.


End SocketCanDaemonBus.

(** *** [src/can/bus.py], the reader loop *)
Module bus_reader.
Import Py bus.

Section rx_thread.
(** [M] is the class of the messages, [L] that of the listener callbacks
    and [W] the state the callbacks work on. The environment of a run:
    [_get_message k] is what the [k]-th call of the abstract
    [self._get_message()] returns or raises; [running k] is the state of
    the event at the [k]-th test of the loop (another thread clears it
    with [shutdown]); [call l msg s] is the call [l(msg)] in the state [s],
    [None] when it does not return. *)
Context {M L W : Type}.
Variable _get_message : nat -> result (option M).
Variable running : nat -> bool.
Variable call : L -> M -> W -> option (W * result unit).

(** A run of [rx_thread] so far: the messages printed, the state of the
    callbacks, and the number of calls of [_get_message]. *)
Record rx_state := {
  printed : list M;
  sinks : W;
  fetched : nat
}.

(** [for callback in self.listeners: callback(rx_msg)] *)
Fixpoint fan_out (callbacks : list L) (rx_msg : M) (s : W)
  : option (W * result unit) :=
  match callbacks with
  | [] => Some (s, Ok tt)
  | callback :: rest =>
      match call callback rx_msg s with
      | None => None
      | Some (s', Raise e) => Some (s', Raise e)
      | Some (s', Ok _) => fan_out rest rx_msg s'
      end
  end.

(** [while self._threads_running.is_set(): ...]; [None] when the loop has
    not ended after [fuel] passes or a callback does not return. On an
    exception the state is the one reached when it was raised. *)
Fixpoint rx_thread_loop (fuel : nat) (self : BusABC M L) (st : rx_state)
  : option (rx_state * result unit) :=
  match fuel with
  | O => None
  | S fuel' =>
      if running (fetched st) then
        match _get_message (fetched st) with
        | Raise e =>
            Some ({| printed := printed st; sinks := sinks st;
                     fetched := S (fetched st) |}, Raise e)
        | Ok None =>
            rx_thread_loop fuel' self
              {| printed := printed st; sinks := sinks st;
                 fetched := S (fetched st) |}
        | Ok (Some rx_msg) =>
            match fan_out (listeners self) rx_msg (sinks st) with
            | None => None
            | Some (s', Raise e) =>
                Some ({| printed := printed st ++ [rx_msg]; sinks := s';
                         fetched := S (fetched st) |}, Raise e)
            | Some (s', Ok _) =>
                rx_thread_loop fuel' self
                  {| printed := printed st ++ [rx_msg]; sinks := s';
                     fetched := S (fetched st) |}
            end
        end
      else Some (st, Ok tt)
  end.

Definition rx_thread (fuel : nat) (self : BusABC M L) (s : W)
  : option (rx_state * result unit) :=
  rx_thread_loop fuel self {| printed := []; sinks := s; fetched := O |}.

End rx_thread.
Arguments rx_state : clear implicits.

End bus_reader.

(** *** [src/can/CAN.py], the other listeners *)
Module Listener.
Import Py Builtins.

(** [Listener.__call__]: the call of a listener is the call of its
    [on_message_received]. *)
Definition __call__ {M S R} (on_message_received : M -> S -> R) (msg : M)
    (self : S) : R :=
  on_message_received msg self.

(** The attributes [CSVWriter.on_message_received] reads of a message. *)
Record csv_message := {
  timestamp : pyval;
  arbitration_id : pyval;
  flags : pyval;
  dlc : pyval;
  data : pyval
}.

(** A [CSVWriter] whose file could be opened: the text written to the
    file so far. *)
Record CSVWriter := {
  csv_file : string
}.

Definition CSVWriter__init__ : CSVWriter :=
  {| csv_file := "timestamp, arbitrationid, flags, dlc, data" |}.

Definition newline : string := String "010" EmptyString.

Definition CSVWriter_on_message_received (msg : csv_message)
    (self : CSVWriter) : CSVWriter * result unit :=
  match join_values "," [timestamp msg; arbitration_id msg; flags msg;
                         dlc msg; data msg] with
  | Ok row => ({| csv_file := csv_file self +:+ row +:+ newline |}, Ok tt)
  | Raise e => (self, Raise e)
  end.

End Listener.

(** *** [src/pycanlib/CAN.py], sending and receiving *)
Module pycanlib_io.
Import Py Builtins pycanlib.

(** Modelled from the spec: the driver calls [canRead] and [canWrite] are
    behind the bindings, which are not under [src/]. Section 6 of the spec
    has them as read(handle), a frame or none, and write(handle, frame).
    A frame is what [canRead] leaves in the variables the caller passes:
    the identifier and the time as C longs, the length and the flags as C
    unsigned ints, and the data in the buffer of eight characters. *)
Record frame := {
  _device_id : Z;
  _data : list byte;
  _dlc : Z;
  _flags : Z;
  _timestamp : Z
}.

(** The arguments of a call of [canWrite]. *)
Record canWrite_call := {
  handle : Z;
  id : pyval;
  msg : string;
  dlc : pyval;
  flag : pyval
}.

(** The module state with the traffic of the driver: per driver handle the
    frames that wait to be read, and the calls of [canWrite] so far, both
    oldest first. *)
Record system := {
  state : world;
  pending : gmap Z (list frame);
  written : list canWrite_call
}.

Definition set_state (w : world) (s : system) : system :=
  {| state := w; pending := pending s; written := written s |}.

Definition set_pending (p : gmap Z (list frame)) (s : system) : system :=
  {| state := state s; pending := p; written := written s |}.

(** Code that works on the system and may raise ([st] with the traffic
    and the further exceptions). *)
Definition io (A : Type) : Type := system -> system * outcome A.

Definition unit_io {A} (a : A) : io A := fun s => (s, Done a).
Definition fail_io {A} (e : error) : io A := fun s => (s, Fail e).
Definition bind_io {A B} (c : io A) (k : A -> io B) : io B :=
  fun s =>
    match c s with
    | (s', Done a) => k a s'
    | (s', Fail e) => (s', Fail e)
    end.
Definition get_system : io system := fun s => (s, Done s).
Definition from_result {A} (r : result A) : io A := fun s => (s, lift r).

(** Code of the first part, run on the module state of the system. *)
Definition run {A} (c : st A) : io A :=
  fun s => let (w, r) := c (state s) in (set_state w s, lift r).

Notation "x <~ c ;; k" := (bind_io c (fun x => k))
  (at level 62, c at next level, right associativity).
Notation "'do~' c ;; k" := (bind_io c (fun _ => k))
  (at level 62, c at next level, right associativity).

(** **** Objects of the store *)

Definition set_reading (v : bool) (h : _Handle.t) : _Handle.t :=
  {| _Handle.channel := _Handle.channel h; _Handle.flags := _Handle.flags h;
     _Handle._canlib_handle := _Handle._canlib_handle h;
     _Handle.listeners := _Handle.listeners h;
     _Handle.tx_queue := _Handle.tx_queue h;
     _Handle.reading := v; _Handle.writing := _Handle.writing h;
     _Handle.receive_callback_enabled := _Handle.receive_callback_enabled h;
     _Handle.transmit_callback_enabled :=
       _Handle.transmit_callback_enabled h |}.

Definition set_writing (v : bool) (h : _Handle.t) : _Handle.t :=
  {| _Handle.channel := _Handle.channel h; _Handle.flags := _Handle.flags h;
     _Handle._canlib_handle := _Handle._canlib_handle h;
     _Handle.listeners := _Handle.listeners h;
     _Handle.tx_queue := _Handle.tx_queue h;
     _Handle.reading := _Handle.reading h; _Handle.writing := v;
     _Handle.receive_callback_enabled := _Handle.receive_callback_enabled h;
     _Handle.transmit_callback_enabled :=
       _Handle.transmit_callback_enabled h |}.

Definition set_tx_queue (q : Queue Message.t) (h : _Handle.t) : _Handle.t :=
  {| _Handle.channel := _Handle.channel h; _Handle.flags := _Handle.flags h;
     _Handle._canlib_handle := _Handle._canlib_handle h;
     _Handle.listeners := _Handle.listeners h;
     _Handle.tx_queue := q;
     _Handle.reading := _Handle.reading h;
     _Handle.writing := _Handle.writing h;
     _Handle.receive_callback_enabled := _Handle.receive_callback_enabled h;
     _Handle.transmit_callback_enabled :=
       _Handle.transmit_callback_enabled h |}.

Definition set_rx_queue (q : Queue Message.t) (b : Bus.t) : Bus.t :=
  {| Bus.name := Bus.name b; Bus._read_handle := Bus._read_handle b;
     Bus._write_handle := Bus._write_handle b;
     Bus.driver_mode := Bus.driver_mode b;
     Bus.rx_queue := q; Bus.timer_offset := Bus.timer_offset b |}.

(** Following an address, and changing the object at an address. *)
Definition handle_obj (a : nat) : io _Handle.t :=
  fun s =>
    match handles (state s) !! a with
    | Some h => (s, Done h)
    | None => (s, Fail (Exn ReferenceError))
    end.

Definition update_handle (a : nat) (f : _Handle.t -> _Handle.t) : io unit :=
  fun s =>
    match handles (state s) !! a with
    | Some h =>
        (set_state (set_handles (<[a := f h]> (handles (state s))) (state s)) s,
         Done tt)
    | None => (s, Fail (Exn ReferenceError))
    end.

Definition bus_obj (b : nat) : io Bus.t :=
  fun s =>
    match buses (state s) !! b with
    | Some B => (s, Done B)
    | None => (s, Fail (Exn ReferenceError))
    end.

Definition update_bus (b : nat) (f : Bus.t -> Bus.t) : io unit :=
  fun s =>
    match buses (state s) !! b with
    | Some B =>
        (set_state (set_buses (<[b := f B]> (buses (state s))) (state s)) s,
         Done tt)
    | None => (s, Fail (Exn ReferenceError))
    end.

(** **** [Bus]: the receive queue *)

Definition Bus_on_message_received (self : nat) (msg : Message.t) : io unit :=
  B <~ bus_obj self ;;
  q <~ from_result (put_nowait msg (Bus.rx_queue B)) ;;
  update_bus self (set_rx_queue q).

Definition Bus_read (self : nat) : io (option Message.t) :=
  B <~ bus_obj self ;;
  match get_nowait (Bus.rx_queue B) with
  | Ok (msg, q) =>
      do~ update_bus self (set_rx_queue q) ;;
      unit_io (Some msg)
  | Raise Empty => unit_io None
  | Raise e => fail_io (Exn e)
  end.

(** **** The transmit path *)

(** ["%c" % v] in Python 2: the character with the code [v] for an
    integer from 0 to 255, [v] itself for a string of one character. *)
Definition percent_c (v : pyval) : outcome ascii :=
  match v with
  | VInt z | VLong z =>
      if in_range z 0 256 then Done (ascii_of_N (Z.to_N z))
      else Fail OverflowError
  | VBool b => Done (ascii_of_N (if b then 1 else 0))
  | VStr (String c EmptyString) => Done c
  | _ => Fail (Exn TypeError)
  end.

(** ["".join([("%c" % byte) for byte in payload])] *)
Fixpoint payload_string (payload : list pyval) : outcome string :=
  match payload with
  | [] => Done EmptyString
  | byte :: rest =>
      and_then (percent_c byte) (fun c =>
      and_then (payload_string rest) (fun s => Done (String c s)))
  end.

Definition canWrite (c : canWrite_call) : io unit :=
  fun s =>
    ({| state := state s; pending := pending s;
        written := written s ++ [c] |}, Done tt).

(** [handle.transmit_callback()]. The transmit buffer level it asks the
    driver for goes to the debug log only. *)
Definition transmit_callback (self : nat) : io unit :=
  h <~ handle_obj self ;;
  if negb (_Handle.writing h) && _Handle.transmit_callback_enabled h then
    do~ update_handle self (set_writing true) ;;
    match get_nowait (_Handle.tx_queue h) with
    | Raise Empty => update_handle self (set_writing false)
    | Raise e => fail_io (Exn e)
    | Ok (_to_send, q) =>
        do~ update_handle self (set_tx_queue q) ;;
        _payload_string <~
          (fun s => (s, payload_string (Message.payload _to_send))) ;;
        do~ canWrite {| handle := _Handle._canlib_handle h;
                        id := Message.device_id _to_send;
                        msg := _payload_string;
                        dlc := Message.dlc _to_send;
                        flag := Message.flags _to_send |} ;;
        update_handle self (set_writing false)
    end
  else unit_io tt.

(** [handle.write(msg)] *)
Definition _Handle_write (self : nat) (msg : Message.t) : io unit :=
  h <~ handle_obj self ;;
  let _old_size := qsize (_Handle.tx_queue h) in
  q <~ from_result (put_nowait msg (_Handle.tx_queue h)) ;;
  do~ update_handle self (set_tx_queue q) ;;
  if _old_size =? 0 then transmit_callback self else unit_io tt.

(** [bus.write(msg)]. Its debug texts go to the log only; the one that
    holds [str(msg)] is made of what [Message.__str__] returns, which is
    a text for every message the constructor of [Message] has returned. *)
Definition Bus_write (self : nat) (msg : Message.t) : io unit :=
  B <~ bus_obj self ;;
  s <~ get_system ;;
  if negb (Bus.driver_mode B =? canDRIVER_SILENT (drv (state s)))
  then _Handle_write (Bus._write_handle B) msg
  else unit_io tt.

(** The module function the driver calls with a driver handle when a
    transmission has ended. *)
Definition _transmit_callback (handle : Z) : io Z :=
  s <~ get_system ;;
  match WRITE_HANDLE_REGISTRY (state s) !! handle with
  | None => fail_io (KeyError handle)
  | Some a =>
      do~ transmit_callback a ;;
      unit_io 0
  end.

(** **** The receive path *)

(** [int(v)] for the value [v] of a C unsigned int, which Python 2 has as
    a [long]: an [int] when it fits one, where [maxint] is [sys.maxint]. *)
Definition int (maxint z : Z) : pyval :=
  if z <=? maxint then VInt z else VLong z.

Definition TIMER_TICKS_PER_SECOND : Z := 1000000.

(** [float(ticks) / TIMER_TICKS_PER_SECOND]: the float is written by the
    decimal value it is nearest to, [ticks * 10^-6]. *)
Definition seconds (ticks : Z) : pyfloat :=
  FFin (ticks <? 0) (Z.to_N (Z.abs ticks)) (-6).

(** The [Message] made of a frame that was read. *)
Definition received_message (maxint : Z) (f : frame) : result Message.t :=
  let _data_array := map (fun c => VInt (Z.of_N (Byte.to_N c))) (_data f) in
  Message.__init__ (VInt (_device_id f))
    (Some (slice_to _data_array (_dlc f)))
    (int maxint (_dlc f)) (int maxint (_flags f))
    (VFloat (seconds (_timestamp f))).

(** [for _listener in self.listeners: _listener.on_message_received(msg)];
    the listeners of a handle are buses. *)
Fixpoint notify_listeners (listeners : list nat) (msg : Message.t)
  : io unit :=
  match listeners with
  | [] => unit_io tt
  | _listener :: rest =>
      do~ Bus_on_message_received _listener msg ;;
      notify_listeners rest msg
  end.

(** The loop [while _status.value == canstat.canOK] of
    [receive_callback]: [waiting] are the frames the driver holds for the
    handle; a call of [canRead] takes the oldest, and finds no message
    when there is none, which ends the loop with a status the lookup table
    of [canstat] has. *)
Fixpoint read_loop (maxint : Z) (self : nat) (key : Z) (waiting : list frame)
  : io unit :=
  match waiting with
  | [] => unit_io tt
  | f :: rest =>
      do~ (fun s => (set_pending (<[key := rest]> (pending s)) s, Done tt)) ;;
      _rx_msg <~ from_result (received_message maxint f) ;;
      h <~ handle_obj self ;;
      do~ notify_listeners (_Handle.listeners h) _rx_msg ;;
      read_loop maxint self key rest
  end.

(** [handle.receive_callback()] *)
Definition receive_callback (maxint : Z) (self : nat) : io unit :=
  h <~ handle_obj self ;;
  if negb (_Handle.reading h) && _Handle.receive_callback_enabled h then
    do~ update_handle self (set_reading true) ;;
    s <~ get_system ;;
    do~ read_loop maxint self (_Handle._canlib_handle h)
          (default [] (pending s !! _Handle._canlib_handle h)) ;;
    do~ run (driver (kvSetNotifyCallback (_Handle._canlib_handle h)
                       RX_CALLBACK canNOTIFY_RX)) ;;
    update_handle self (set_reading false)
  else unit_io tt.

(** The module function the driver calls with a driver handle when frames
    have arrived. *)
Definition _receive_callback (maxint : Z) (handle : Z) : io Z :=
  s <~ get_system ;;
  match READ_HANDLE_REGISTRY (state s) !! handle with
  | None => fail_io (KeyError handle)
  | Some a =>
      do~ receive_callback maxint a ;;
      unit_io 0
  end.

End pycanlib_io.

(** ** Part II: the notions the properties are stated with *)

Import Py.

(** *** Strings and hexadecimal numerals *)

(** [c] does not occur in [s]. *)
Fixpoint lacks (c : ascii) (s : string) : bool :=
  match s with
  | EmptyString => true
  | String d s' => negb (Ascii.eqb d c) && lacks c s'
  end.

(** The digit characters of one case. *)
Definition digit_chars (upper : bool) : string :=
  if upper then "0123456789ABCDEF" else "0123456789abcdef".

Definition is_digit_char (upper : bool) (c : ascii) : bool :=
  negb (lacks c (digit_chars upper)).

Fixpoint only_digits (upper : bool) (s : string) : bool :=
  match s with
  | EmptyString => true
  | String c s' => is_digit_char upper c && only_digits upper s'
  end.

(** The number a string of digits denotes, most significant digit first. *)
Fixpoint numeral_value (acc : N) (s : string) : N :=
  match s with
  | EmptyString => acc
  | String c s' =>
      numeral_value (16 * acc + default 0%N (digit_value c))%N s'
  end.


(** [s] is the numeral of [z] in the given case: a minus sign for a
    negative number, then the digits of the magnitude and nothing else,
    without a leading zero. *)
Definition numeral (upper : bool) (z : Z) (s : string) : Prop :=
  ∃ digits,
    s = (if z <? 0 then "-" else "") +:+ digits
    ∧ digits ≠ ""
    ∧ only_digits upper digits = true
    ∧ numeral_value 0 digits = Z.to_N (Z.abs z)
    ∧ (startswith digits "0" = true → digits = "0").

(** *** The wire grammar of the daemon protocol

    Written from section 4.5 of the spec, not from the code: an outbound
    frame is [< send ID LEN byte1 byte2 ... >] with single spaces, an inbound
    frame is [< frame ID TIMESTAMP PAYLOAD >] with the payload as one run of
    hexadecimal digits, two per byte. *)
Module Wire.

(** Fields separated by single spaces. *)
Fixpoint spaced (fields : list string) : string :=
  match fields with
  | [] => ""
  | f :: rest =>
      match rest with
      | [] => f
      | _ :: _ => f +:+ " " +:+ spaced rest
      end
  end.

Definition send_line (id_field len_field : string) (byte_fields : list string)
  : string :=
  "< send " +:+ id_field +:+ " " +:+ len_field +:+ " "
    +:+ spaced byte_fields +:+ " >".








End Wire.

(** *** The decoder of the daemon backend *)

(** The envelope test of the decoder, and what is between the brackets. *)
Definition envelope (line : string) : bool :=
  startswith line "< frame " && endswith line " >".



(** *** Bus states *)
Section BusNotions.
Context {M L : Type}.
Import bus.

(** The states a bus goes through: made by the constructor, then written
    to, shut down, or given one more listener (the attribute [listeners] is a
    plain list that callers append to). *)
Definition append_listener (l : L) (b : BusABC M L) : BusABC M L :=
  {| listeners := listeners b ++ [l];
     _tx_queue := _tx_queue b;
     _threads_running := _threads_running b |}.

Inductive reachable : BusABC M L → Prop :=
| reach_init : reachable __init__
| reach_write b msg b' : reachable b → write msg b = Ok b' → reachable b'
| reach_shutdown b : reachable b → reachable (shutdown b)
| reach_listener b l : reachable b → reachable (append_listener l b).

End BusNotions.

(** A bus made by the constructor and written to once. *)
Definition sample_bus : bus.BusABC nat nat :=
  {| bus.listeners := [];
     bus._tx_queue := {| maxsize := 0; items := [Some 7%nat] |};
     bus._threads_running := true |}.

(** *** Waiting and the clock *)
Section ReaderNotions.
Context {M : Type}.

(** Another thread puts a message before [t] seconds have passed. *)
Definition arrives_before (t : Q) (arrival : option (Q * M)) : bool :=
  match arrival with
  | Some (d, _) => negb (Qle_bool t d)
  | None => false
  end.

End ReaderNotions.

Section ConnectNotions.
Import socketcand_bus.
Variable clock : nat → PrimFloat.float.
Variable attempt : nat → connect_outcome.

(** The [k]-th reading of the clock in milliseconds, and the end of the
    window, as binary64 computes them. *)
Definition reading (k : nat) : PrimFloat.float := (clock k * 1000)%float.

Definition end_time : PrimFloat.float := (reading 0 + timeout_ms)%float.

(** The [k]-th reading is inside the window: it is below the end in the
    order of binary64, which is the test of the loop. *)
Definition inside (k : nat) : bool := PrimFloat.ltb (reading k) end_time.

Definition timed_out : result unit :=
  Raise (TimeoutError "connect_to_server: Failed to connect server for 10000 ms").

Definition fails (j : nat) : Prop := ∃ ty msg, attempt j = Failed ty msg.

End ConnectNotions.

(** *** Ranges of the fields of a native-driver message *)

(** [f >= 0] on floats. *)
Definition float_gez (f : pyfloat) : bool :=
  match f with
  | FNan => false
  | FInf neg => negb neg
  | FFin neg m _ => negb neg || (m =? 0)%N
  end.

(** A timestamp that is an [int] or a [float] and is [>= 0]. *)
Definition nonnegative (v : pyval) : bool :=
  match v with
  | VInt z => 0 <=? z
  | VFloat f => float_gez f
  | _ => false
  end.




Definition is_byte (z : Z) : Prop := 0 ≤ z < 256.

(** *** Module states of the native-driver backend *)
Section RegistryNotions.
Import pycanlib.

Definition new_handle (channel flags h : Z) : _Handle.t :=
  {| _Handle.channel := channel; _Handle.flags := flags;
     _Handle._canlib_handle := h;
     _Handle.listeners := [];
     _Handle.tx_queue := Queue_new 0;
     _Handle.reading := false; _Handle.writing := false;
     _Handle.receive_callback_enabled := true;
     _Handle.transmit_callback_enabled := true |}.

(** The channel exists, the flags are inside the mask, and the driver has
    hardware for them. *)
Definition can_open (channel flags : Z) (d : canlib) : bool :=
  in_range channel 0 (num_channels d)
  && (Z.land flags (65535 - FLAGS_MASK d) =? 0)
  && (open_status d channel flags =? 0).

Definition opened_driver (channel flags : Z) (d : canlib) : canlib :=
  let h := next_handle d in
  served (canBusOn h)
    (served (canIoCtl_SET_TIMER_SCALE h MICROSECONDS_PER_TIMER_TICK)
       (served (canFlushTransmitQueue h)
          (served (canFlushReceiveQueue h)
             (fst (canOpenChannel channel flags d))))).

(** The module state after a successful [_Handle(channel, flags)]. *)
Definition opened (channel flags : Z) (w : world) : world :=
  set_handles
    (<[fresh (dom (handles w)) :=
         new_handle channel flags (next_handle (drv w))]> (handles w))
    (set_drv (opened_driver channel flags (drv w)) w).

(** The scan of the registry [reg] for the pair ends on the object [a]. *)
Definition finds (w : world) (reg : registry_name) (ch fl : Z) (a : nat)
  : Prop :=
  scan (handles w) ch fl (map_to_list (registry_of reg w)) = Some a.

(** The module state after the notification callback of [_get_handle] has
    been set for the driver handle [key]. *)
Definition notified (reg : registry_name) (key : Z) (w : world) : world :=
  set_drv
    (served
       (if decide (registry_of reg w = READ_HANDLE_REGISTRY w)
        then kvSetNotifyCallback key RX_CALLBACK canNOTIFY_RX
        else kvSetNotifyCallback key TX_CALLBACK canNOTIFY_TX)
       (drv w))
    w.

(** The module state after a new handle for the pair has been opened and
    put into the registry [reg]. *)
Definition registered (reg : registry_name) (ch fl : Z) (w : world) : world :=
  set_registry reg
    (<[next_handle (drv w) := fresh (dom (handles w))]> (registry_of reg w))
    (opened ch fl w).

(** No handle of the registry carries the pair. *)
Definition unregistered (w : world) (reg : registry_name) (ch fl : Z) : Prop :=
  ∀ k a, registry_of reg w !! k = Some a →
    is_match (handles w) ch fl a = false.

(** What [Bus.__init__] does once it holds its two handles. *)
Definition bus_tail (_read_handle _write_handle : nat) (p : bus_params)
    (driver_mode : Z) (name : string) : st nat :=
  rh <- get_canlib_handle _read_handle ;;
  do program_handle rh p driver_mode ;;
  w <- get_world ;;
  do (if negb (driver_mode =? canDRIVER_SILENT (drv w)) then
        wh <- get_canlib_handle _write_handle ;;
        program_handle wh p driver_mode
      else ret tt) ;;
  w <- get_world ;;
  let self := fresh (dom (buses w)) in
  do modify (set_buses
    (<[self := {| Bus.name := name;
                  Bus._read_handle := _read_handle;
                  Bus._write_handle := _write_handle;
                  Bus.driver_mode := driver_mode;
                  Bus.rx_queue := Queue_new 0;
                  Bus.timer_offset := timer (drv w) |}]> (buses w))) ;;
  do add_listener _read_handle self ;;
  ret self.

(** Every object a registry refers to is in the store. *)
Definition wf (w : world) : Prop :=
  ∀ reg k a, registry_of reg w !! k = Some a → is_Some (handles w !! a).

(** The objects of [w] are still there in [w'], with their channel and
    flags. *)
Definition extends (w w' : world) : Prop :=
  ∀ a h, handles w !! a = Some h →
    ∃ h', handles w' !! a = Some h'
          ∧ _Handle.channel h' = _Handle.channel h
          ∧ _Handle.flags h' = _Handle.flags h.

(** The registry [reg] holds the object [a], and [a] carries the pair. *)
Definition carries (w : world) (reg : registry_name) (ch fl : Z) (a : nat)
  : Prop :=
  ∃ k, registry_of reg w !! k = Some a ∧ is_match (handles w) ch fl a = true.

(** The object [a] is a handle of the store that was made for the channel
    [ch] and the flags [fl], and the registry [reg] refers to it. *)
Definition registered_for (w : world) (reg : registry_name) (ch fl : Z)
    (a : nat) : Prop :=
  ∃ h k, handles w !! a = Some h
         ∧ _Handle.channel h = ch ∧ _Handle.flags h = fl
         ∧ registry_of reg w !! k = Some a.

(** The registry [reg] refers to no handle of the store that was made for
    the channel [ch] and the flags [fl]. *)
Definition no_handle_for (w : world) (reg : registry_name) (ch fl : Z)
  : Prop :=
  ∀ k a h, registry_of reg w !! k = Some a → handles w !! a = Some h →
    ¬ (_Handle.channel h = ch ∧ _Handle.flags h = fl).

(** The registries refer to objects of the store, under driver handles the
    driver has handed out already, and a registry holds one object at most
    for a pair. With one object at most for a pair, the order in which the
    loop of [_get_handle] goes through the keys does not matter. *)
Definition deduplicated (w : world) : Prop :=
  wf w
  ∧ (∀ reg k a, registry_of reg w !! k = Some a → k < next_handle (drv w))
  ∧ (∀ reg ch fl a1 a2,
       carries w reg ch fl a1 → carries w reg ch fl a2 → a1 = a2).

(** What is registered in [w], and the buses of [w], are still there in
    [w']. *)
Definition persists (w w' : world) : Prop :=
  (∀ reg ch fl a, carries w reg ch fl a → carries w' reg ch fl a)
  ∧ (∀ b B, buses w !! b = Some B → buses w' !! b = Some B).

(** [w'] has the registries and the handle counter of [w], and its objects
    carry the pairs they carry in [w]. *)
Definition same_registries (w w' : world) : Prop :=
  (∀ a, is_Some (handles w !! a) → is_Some (handles w' !! a))
  ∧ (∀ ch fl a, is_match (handles w') ch fl a = is_match (handles w) ch fl a)
  ∧ (∀ reg, registry_of reg w' = registry_of reg w)
  ∧ next_handle (drv w') = next_handle (drv w).

(** The module states a program reaches from [w] by calls of [_get_handle]
    and constructions of a [Bus], whatever their arguments and however they
    end. *)
Inductive evolves (w : world) : world → Prop :=
| evolves_here : evolves w w
| evolves_get_handle w1 w2 ch fl reg r :
    evolves w w1 → _get_handle ch fl reg w1 = (w2, r) → evolves w w2
| evolves_bus w1 w2 ch fl p driver_mode name r :
    evolves w w1 → Bus__init__ ch fl p driver_mode name w1 = (w2, r) →
    evolves w w2.

End RegistryNotions.

(** A driver with two channels that opens whatever is asked for, and the
    default bus parameters of [Bus.__init__]. *)
Definition sample_driver : pycanlib.canlib :=
  {| pycanlib.FLAGS_MASK := 255;
     pycanlib.canERR_NOTFOUND := -3;
     pycanlib.canDRIVER_SILENT := 1;
     pycanlib.num_channels := 2;
     pycanlib.open_status := λ _ _, 0;
     pycanlib.next_handle := 0;
     pycanlib.params := ∅;
     pycanlib.default_params :=
       {| pycanlib.speed := 0; pycanlib.tseg1 := 0; pycanlib.tseg2 := 0;
          pycanlib.sjw := 0; pycanlib.no_samp := 0 |};
     pycanlib.timer := 7;
     pycanlib.calls := [] |}.

Definition sample_params : pycanlib.bus_params :=
  {| pycanlib.speed := 1000000; pycanlib.tseg1 := 1; pycanlib.tseg2 := 0;
     pycanlib.sjw := 1; pycanlib.no_samp := 1 |}.

(** *** Text on the socket of the daemon backend *)

(** Every code point of [s] is below 128. *)
Fixpoint is_ascii (s : string) : bool :=
  match s with
  | EmptyString => true
  | String c s' => (code c <? 128)%N && is_ascii s'
  end.

(** The bytes of an ASCII text, one per character. *)
Fixpoint ascii_bytes (s : string) : list byte :=
  match s with
  | EmptyString => []
  | String c s' => byte_of_ascii c :: ascii_bytes s'
  end.

(** What the decoder makes of the three fields it reads. *)
Definition decoded (id_field ts_field payload_field : string)
  : result (option socketcand_bus.Message) :=
  bind (int16 id_field) (λ can_id,
  bind (float ts_field) (λ timestamp,
  bind (fromhex payload_field) (λ data,
  Ok (Some {| socketcand_bus.timestamp := timestamp;
              socketcand_bus.arbitration_id := can_id;
              socketcand_bus.data := data;
              socketcand_bus.dlc := Z.of_nat (length data) |})))).

(** *** Runs of the reader loop and of a buffered listener *)
Section ReaderLoopNotions.
Context {M L : Type}.

(** A state of the callbacks that is the list of the calls made, oldest
    first; [raising l msg] tells whether the call [l(msg)] raises. *)
Definition recorded (raising : L → M → option exn) (l : L) (msg : M)
    (calls : list (L * M)) : option (list (L * M) * result unit) :=
  Some (calls ++ [(l, msg)],
        match raising l msg with Some e => Raise e | None => Ok tt end).

(** The calls of a fan-out of [msgs] to [ls]: message by message, and for
    each message listener by listener. *)
Definition deliveries (ls : list L) (msgs : list M) : list (L * M) :=
  flat_map (λ msg, map (λ l, (l, msg)) ls) msgs.

(** The messages among the results of the calls [k], ..., [k + n - 1] of
    [_get_message]. *)
Fixpoint received_from (_get_message : nat → result (option M)) (k n : nat)
  : list M :=
  match n with
  | O => []
  | S n' =>
      match _get_message k with
      | Ok (Some msg) => [msg]
      | _ => []
      end ++ received_from _get_message (S k) n'
  end.

(** [on_message_received] for each of [msgs] in turn; [None] when one of
    the calls does not return. *)
Fixpoint receive_all (msgs : list M) (r : CAN.BufferedReader M)
  : option (CAN.BufferedReader M) :=
  match msgs with
  | [] => Some r
  | msg :: rest =>
      match CAN.on_message_received msg r with
      | Some r' => receive_all rest r'
      | None => None
      end
  end.

(** [n] calls of [get_message()] in a row while nothing else arrives: the
    results, the time spent waiting in all, and the reader afterwards. *)
Fixpoint get_messages (n : nat) (r : CAN.BufferedReader M)
  : list (result (option M)) * Q * CAN.BufferedReader M :=
  match n with
  | O => ([], 0%Q, r)
  | S n' =>
      let '(res, waited, r') := CAN.get_message [] None r in
      let '(rs, total, r'') := get_messages n' r' in
      (res :: rs, (waited + total)%Q, r'')
  end.

(** [write] for each of [msgs] in turn. *)
Fixpoint write_all (msgs : list (option M)) (b : bus.BusABC M L)
  : result (bus.BusABC M L) :=
  match msgs with
  | [] => Ok b
  | msg :: rest => bind (bus.write msg b) (write_all rest)
  end.

End ReaderLoopNotions.

(** *** Rows of the CSV listener *)

(** The text of a value that is a [str]. *)
Definition str_text (v : pyval) : option string :=
  match v with
  | VStr s => Some s
  | _ => None
  end.

Definition csv_fields (msg : Listener.csv_message) : list pyval :=
  [Listener.timestamp msg; Listener.arbitration_id msg; Listener.flags msg;
   Listener.dlc msg; Listener.data msg].

(** *** Frames and queues of the native-driver backend *)
Section TrafficNotions.
Import pycanlib pycanlib_io.

(** A frame the constructor of [Message] takes: an identifier of 11
    bits, a length up to 8, flags of 16 bits and a time that is not
    negative. *)
Definition acceptable (f : frame) : Prop :=
  0 ≤ _device_id f < 2 ^ 11 ∧ 0 ≤ _dlc f ≤ 8
  ∧ 0 ≤ _flags f < 2 ^ 16 ∧ 0 ≤ _timestamp f.

(** The message of an acceptable frame: the first [_dlc] bytes of the
    buffer as payload, the time in seconds. *)
Definition message_of (f : frame) : Message.t :=
  {| Message.timestamp := VFloat (seconds (_timestamp f));
     Message.device_id := VInt (_device_id f);
     Message.payload :=
       slice_to (map (λ c, VInt (Z.of_N (Byte.to_N c))) (_data f)) (_dlc f);
     Message.dlc := VInt (_dlc f);
     Message.flags := VInt (_flags f) |}.

(** A bus with [msgs] behind what is in its receive queue. *)
Definition enqueue_all (msgs : list Message.t) (B : Bus.t) : Bus.t :=
  set_rx_queue {| maxsize := maxsize (Bus.rx_queue B);
                  items := items (Bus.rx_queue B) ++ msgs |} B.

(** The buses after [msg] has gone to the listeners [ls], and after
    each of [msgs] has. *)
Definition deliver_to (ls : list nat) (bs : gmap nat Bus.t) (msg : Message.t)
  : gmap nat Bus.t :=
  foldl (λ bs l, alter (enqueue_all [msg]) l bs) bs ls.

Definition deliver_all (ls : list nat) (msgs : list Message.t)
    (bs : gmap nat Bus.t) : gmap nat Bus.t :=
  foldl (deliver_to ls) bs msgs.

(** The listeners are buses of the store, and none has a bounded receive
    queue. *)
Definition listening (ls : list nat) (bs : gmap nat Bus.t) : Prop :=
  ∀ l, l ∈ ls → ∃ B, bs !! l = Some B ∧ maxsize (Bus.rx_queue B) ≤ 0.

(** A system by its parts. *)
Definition system_of (d : canlib) (hs : gmap nat _Handle.t)
    (bs : gmap nat Bus.t) (R W : gmap Z nat) (p : gmap Z (list frame))
    (wr : list canWrite_call) : system :=
  {| state := {| drv := d; handles := hs; buses := bs;
                 READ_HANDLE_REGISTRY := R; WRITE_HANDLE_REGISTRY := W |};
     pending := p; written := wr |}.

(** The character of a payload item that is an integer. *)
Definition char_of (v : pyval) : ascii :=
  ascii_of_N (Z.to_N (default 0 (as_int v))).

(** The call of [canWrite] that sends [m] on the driver handle [key]. *)
Definition sending (key : Z) (m : Message.t) : canWrite_call :=
  {| handle := key; id := Message.device_id m;
     msg := string_of_list_ascii (map char_of (Message.payload m));
     dlc := Message.dlc m; flag := Message.flags m |}.

(** The payload is what the constructor of [Message] takes: integers
    from 0 to 255. *)
Definition bytes_payload (m : Message.t) : Prop :=
  Forall (λ v, ∃ z, as_int v = Some z ∧ 0 ≤ z < 256) (Message.payload m).

(** A handle that is not transmitting and has its transmit callback
    enabled, with an unbounded transmit queue. *)
Definition ready_to_send (h : _Handle.t) : Prop :=
  _Handle.writing h = false ∧ _Handle.transmit_callback_enabled h = true
  ∧ maxsize (_Handle.tx_queue h) ≤ 0.

(** [n] calls in a row. *)
Fixpoint times {A} (n : nat) (c : io A) : io (list A) :=
  match n with
  | O => unit_io []
  | S n' => a <~ c ;; rest <~ times n' c ;; unit_io (a :: rest)
  end.

End TrafficNotions.

(** A handle on channel 0 with the driver handle 5 and one listener, the
    bus at address 0; a frame with three bytes of data, and an extended
    frame. *)
Definition sample_handle : pycanlib._Handle.t :=
  pycanlib._Handle.add_listener 0 (new_handle 0 0 5).

Definition sample_can_bus : pycanlib.Bus.t :=
  {| pycanlib.Bus.name := "default";
     pycanlib.Bus._read_handle := 0; pycanlib.Bus._write_handle := 1;
     pycanlib.Bus.driver_mode := 4;
     pycanlib.Bus.rx_queue := Queue_new 0;
     pycanlib.Bus.timer_offset := 0 |}.

Definition sample_frame : pycanlib_io.frame :=
  {| pycanlib_io._device_id := 291;
     pycanlib_io._data := [x11; x22; x33; x00; x00; x00; x00; x00];
     pycanlib_io._dlc := 3; pycanlib_io._flags := 2;
     pycanlib_io._timestamp := 1500000 |}.

Definition extended_frame : pycanlib_io.frame :=
  {| pycanlib_io._device_id := 2 ^ 11 + 5;
     pycanlib_io._data := [x11; x22; x33; x00; x00; x00; x00; x00];
     pycanlib_io._dlc := 3; pycanlib_io._flags := 4;
     pycanlib_io._timestamp := 1600000 |}.

(** The objects as the constructors leave them, before any traffic: no
    handle is reading, every listener of a handle is a bus of the store,
    listed once, and every bus has an empty, unbounded receive queue and
    listens on its read handle. *)
Definition quiet (w : pycanlib.world) : Prop :=
  (∀ a h, pycanlib.handles w !! a = Some h →
     pycanlib._Handle.reading h = false
     ∧ pycanlib._Handle.receive_callback_enabled h = true
     ∧ NoDup (pycanlib._Handle.listeners h)
     ∧ ∀ b, b ∈ pycanlib._Handle.listeners h →
            is_Some (pycanlib.buses w !! b))
  ∧ (∀ b B, pycanlib.buses w !! b = Some B →
       pycanlib.Bus.rx_queue B = Queue_new 0
       ∧ ∃ h, pycanlib.handles w !! pycanlib.Bus._read_handle B = Some h
              ∧ b ∈ pycanlib._Handle.listeners h).

(** ** Part III: properties *)

(** *** Strings *)
Section StringFacts.

Lemma str_app_cons c (s t : string) : String c s +:+ t = String c (s +:+ t).
Proof. reflexivity. Qed.

Lemma str_app_empty_l (s : string) : "" +:+ s = s.
Proof. reflexivity. Qed.

Lemma str_app_empty_r (s : string) : s +:+ "" = s.
Proof. induction s as [|c s IH]; [reflexivity|]. by rewrite str_app_cons, IH. Qed.

Lemma str_app_assoc (s t u : string) : (s +:+ t) +:+ u = s +:+ t +:+ u.
Proof.
  induction s as [|c s IH]; [reflexivity|]. by rewrite !str_app_cons, IH.
Qed.

Lemma str_length_app (s t : string) :
  String.length (s +:+ t) = (String.length s + String.length t)%nat.
Proof.
  induction s as [|c s IH]; [reflexivity|].
  rewrite str_app_cons. simpl. by rewrite IH.
Qed.

Lemma startswith_app (p s : string) : startswith (p +:+ s) p = true.
Proof.
  induction p as [|c p IH]; [reflexivity|].
  rewrite str_app_cons. simpl. by rewrite Ascii.eqb_refl.
Qed.

Lemma str_drop_app (p s : string) : drop (String.length p) (p +:+ s) = s.
Proof. induction p as [|c p IH]; [reflexivity|]. by rewrite str_app_cons. Qed.

Lemma str_take_app (p s : string) : take (String.length p) (p +:+ s) = p.
Proof.
  induction p as [|c p IH]; [reflexivity|].
  rewrite str_app_cons. simpl. by rewrite IH.
Qed.

Lemma removeprefix_app (p s : string) : removeprefix (p +:+ s) p = s.
Proof. unfold removeprefix. by rewrite startswith_app, str_drop_app. Qed.

Lemma endswith_app (s p : string) : endswith (s +:+ p) p = true.
Proof.
  unfold endswith. rewrite str_length_app.
  destruct (Nat.ltb_spec (String.length s + String.length p)
              (String.length p)) as [H|_]; [lia|].
  replace (String.length s + String.length p - String.length p)%nat
    with (String.length s) by lia.
  rewrite str_drop_app. apply String.eqb_refl.
Qed.

Lemma removesuffix_app (s p : string) :
  p ≠ "" → removesuffix (s +:+ p) p = s.
Proof.
  intros Hp. unfold removesuffix.
  rewrite endswith_app.
  destruct (String.eqb_spec p "") as [->|_]; [done|]. simpl.
  rewrite str_length_app.
  replace (String.length s + String.length p - String.length p)%nat
    with (String.length s) by lia.
  apply str_take_app.
Qed.

Lemma split_lacks sep n (a : string) : lacks sep a = true → split sep n a = [a].
Proof.
  induction a as [|c a IH]; [reflexivity|]. simpl.
  intros [Hc Ha]%andb_true_iff. apply negb_true_iff in Hc.
  by rewrite Hc, (IH Ha).
Qed.

Lemma split_app sep n (a rest : string) :
  lacks sep a = true →
  split sep (S n) (a +:+ String sep rest) = a :: split sep n rest.
Proof.
  induction a as [|c a IH]; intros Ha.
  - rewrite str_app_empty_l. simpl. by rewrite Ascii.eqb_refl.
  - simpl in Ha. apply andb_true_iff in Ha as [Hc Ha].
    apply negb_true_iff in Hc.
    rewrite str_app_cons. cbn [split]. by rewrite Hc, (IH Ha).
Qed.

Lemma lacks_app c (s t : string) :
  lacks c (s +:+ t) = lacks c s && lacks c t.
Proof.
  induction s as [|d s IH]; [reflexivity|].
  rewrite str_app_cons. simpl. rewrite IH. by rewrite andb_assoc.
Qed.

End StringFacts.

(** *** Hexadecimal numerals *)
Section HexFacts.

Lemma small_cases (d : N) :
  (d < 16)%N →
  d ∈ [0; 1; 2; 3; 4; 5; 6; 7; 8; 9; 10; 11; 12; 13; 14; 15]%N.
Proof.
  intros Hd. destruct d as [|p]; [set_solver|].
  do 4 (try (destruct p as [p|p|]; try lia)); set_solver.
Qed.

Ltac by_digit d H :=
  let Hin := fresh in
  pose proof (small_cases d H) as Hin;
  repeat (apply elem_of_cons in Hin as [->|Hin]; [vm_compute; done|]);
  by apply elem_of_nil in Hin.

Lemma digit_value_hex_digit upper d :
  (d < 16)%N → digit_value (hex_digit upper d) = Some d.
Proof. intros H. destruct upper; by_digit d H. Qed.

Lemma hex_digit_is_digit upper d :
  (d < 16)%N → is_digit_char upper (hex_digit upper d) = true.
Proof. intros H. destruct upper; by_digit d H. Qed.


Lemma hex_digit_value_back upper c :
  is_digit_char upper c = true →
  ∃ d, digit_value c = Some d ∧ (d < 16)%N ∧ hex_digit upper d = c.
Proof.
  unfold is_digit_char. intros H.
  destruct upper; cbn [lacks digit_chars] in H;
    repeat match type of H with
      | context [Ascii.eqb ?d c] =>
          destruct (Ascii.eqb_spec d c) as [Heq|_];
          [subst c; eexists; vm_compute; split_and!; reflexivity|]
      end; done.
Qed.

Lemma hex_digits_acc fuel upper n acc :
  hex_digits fuel upper n acc = hex_digits fuel upper n "" +:+ acc.
Proof.
  revert n acc. induction fuel as [|f IH]; intros n acc; [reflexivity|].
  simpl. destruct (n / 16 =? 0)%N; [reflexivity|].
  rewrite IH, (IH _ (String _ "")). by rewrite str_app_assoc.
Qed.

Lemma hex_digits_step f upper n :
  hex_digits (S f) upper n "" =
    if (n / 16 =? 0)%N then String (hex_digit upper (n mod 16)) ""
    else hex_digits f upper (n / 16) ""
           +:+ String (hex_digit upper (n mod 16)) "".
Proof. simpl. destruct (n / 16 =? 0)%N; [done|]. apply hex_digits_acc. Qed.

Lemma only_digits_app upper s t :
  only_digits upper (s +:+ t) = only_digits upper s && only_digits upper t.
Proof.
  induction s as [|c s IH]; [reflexivity|].
  rewrite str_app_cons. simpl. rewrite IH. by rewrite andb_assoc.
Qed.

Lemma numeral_value_app a s t :
  numeral_value a (s +:+ t) = numeral_value (numeral_value a s) t.
Proof.
  revert a. induction s as [|c s IH]; intros a; [reflexivity|].
  rewrite str_app_cons. simpl. apply IH.
Qed.

Lemma hex_digits_only_digits f upper n :
  only_digits upper (hex_digits (S f) upper n "") = true.
Proof.
  revert n. induction f as [|f IH]; intros n; rewrite hex_digits_step.
  - assert (Hd : (n mod 16 < 16)%N) by (apply N.mod_lt; lia).
    destruct (n / 16 =? 0)%N; simpl;
      by rewrite hex_digit_is_digit.
  - assert (Hd : (n mod 16 < 16)%N) by (apply N.mod_lt; lia).
    destruct (n / 16 =? 0)%N.
    + simpl. by rewrite hex_digit_is_digit.
    + rewrite only_digits_app, IH. simpl. by rewrite hex_digit_is_digit.
Qed.

Lemma hex_digits_value f upper n :
  (n < 16 ^ N.of_nat (S f))%N →
  numeral_value 0 (hex_digits (S f) upper n "") = n.
Proof.
  revert n. induction f as [|f IH]; intros n Hn; rewrite hex_digits_step.
  - assert (Hd : (n mod 16 < 16)%N) by (apply N.mod_lt; lia).
    change (16 ^ N.of_nat 1)%N with 16%N in Hn.
    rewrite (N.div_small n 16 Hn). simpl.
    rewrite digit_value_hex_digit by done. simpl.
    rewrite N.mod_small; lia.
  - assert (Hd : (n mod 16 < 16)%N) by (apply N.mod_lt; lia).
    destruct (N.eqb_spec (n / 16) 0) as [Hz|Hz].
    + simpl. rewrite digit_value_hex_digit by done. simpl.
      pose proof (N.div_mod n 16). lia.
    + rewrite numeral_value_app, IH.
      * simpl. rewrite digit_value_hex_digit by done. simpl.
        pose proof (N.div_mod n 16). lia.
      * apply N.Div0.div_lt_upper_bound.
        rewrite <- N.pow_succ_r'. by rewrite <- Nat2N.inj_succ.
Qed.

Lemma hex_digits_msd f upper n :
  (n < 16 ^ N.of_nat (S f))%N → n ≠ 0%N →
  ∃ d s, hex_digits (S f) upper n "" = String (hex_digit upper d) s
         ∧ (0 < d < 16)%N.
Proof.
  revert n. induction f as [|f IH]; intros n Hn Hnz; rewrite hex_digits_step.
  - change (16 ^ N.of_nat 1)%N with 16%N in Hn.
    rewrite (N.div_small n 16 Hn). simpl.
    exists (n mod 16)%N, "". rewrite N.mod_small by done. split; [done|lia].
  - destruct (N.eqb_spec (n / 16) 0) as [Hz|Hz].
    + exists (n mod 16)%N, "". split; [done|].
      pose proof (N.div_mod n 16). pose proof (N.mod_lt n 16). lia.
    + destruct (IH (n / 16)%N) as (d & s & -> & Hd); [|done|].
      * apply N.Div0.div_lt_upper_bound.
        rewrite <- N.pow_succ_r'. by rewrite <- Nat2N.inj_succ.
      * exists d, (s +:+ String (hex_digit upper (n mod 16)) "").
        by rewrite str_app_cons.
Qed.

Lemma log2_fuel n : (n < 16 ^ N.of_nat (S (N.to_nat (N.log2 n))))%N.
Proof.
  rewrite Nat2N.inj_succ, N2Nat.id.
  destruct (N.eq_dec n 0%N) as [->|Hn]; [done|].
  assert (H : (n < 2 ^ N.succ (N.log2 n))%N) by (apply N.log2_spec; lia).
  eapply N.lt_le_trans; [exact H|].
  apply N.pow_le_mono_l. lia.
Qed.

Lemma format_hex_numeral upper z : numeral upper z (format_hex upper z).
Proof.
  unfold format_hex.
  set (n := Z.to_N (Z.abs z)). set (f := N.to_nat (N.log2 n)).
  pose proof (log2_fuel n) as Hf. fold f in Hf.
  exists (hex_digits (S f) upper n ""). split_and!.
  - by destruct (z <? 0).
  - rewrite hex_digits_step.
    destruct (n / 16 =? 0)%N; [done|].
    destruct (hex_digits f upper (n / 16) ""); done.
  - apply hex_digits_only_digits.
  - by apply hex_digits_value.
  - destruct (N.eq_dec n 0%N) as [Hz|Hz].
    + rewrite Hz. by rewrite hex_digits_step.
    + destruct (hex_digits_msd f upper n Hf Hz) as (d & s & -> & Hd).
      cbn [startswith]. intros H. exfalso.
      destruct (Ascii.eqb_spec "0" (hex_digit upper d)) as [Heq|]; [|done].
      assert (Hv : digit_value (hex_digit upper d) = Some d)
        by (apply digit_value_hex_digit; lia).
      rewrite <- Heq in Hv. vm_compute in Hv. simplify_eq. lia.
Qed.







Lemma digit_value_lt c d : digit_value c = Some d → (d < 16)%N.
Proof.
  unfold digit_value.
  repeat match goal with
         | |- context [if ?b then _ else _] => destruct b eqn:?
         end; intros; simplify_eq;
    repeat match goal with
           | H : (_ && _) = true |- _ => apply andb_true_iff in H as [? ?]
           | H : (_ <=? _)%N = true |- _ => apply N.leb_le in H
           end; lia.
Qed.

Lemma numeral_value_acc a s :
  numeral_value a s
  = (a * 16 ^ N.of_nat (String.length s) + numeral_value 0 s)%N.
Proof.
  revert a. induction s as [|c s IH]; intros a.
  - simpl. lia.
  - cbn [numeral_value String.length].
    rewrite (IH (16 * a + _)%N), (IH (16 * 0 + _)%N).
    rewrite Nat2N.inj_succ, N.pow_succ_r'. lia.
Qed.

Lemma numeral_value_bound s :
  (numeral_value 0 s < 16 ^ N.of_nat (String.length s))%N.
Proof.
  induction s as [|c s IH]; [simpl; lia|].
  cbn [numeral_value String.length]. rewrite numeral_value_acc.
  rewrite Nat2N.inj_succ, N.pow_succ_r'.
  assert (default 0 (digit_value c) < 16)%N.
  { destruct (digit_value c) eqn:Hd; simpl; [by eapply digit_value_lt|lia]. }
  nia.
Qed.

Lemma same_length_same_value upper s s' :
  String.length s = String.length s' →
  only_digits upper s = true → only_digits upper s' = true →
  numeral_value 0 s = numeral_value 0 s' →
  s = s'.
Proof.
  revert s'. induction s as [|c s IH]; intros [|c' s'] Hlen Hs Hs' Hv;
    try done.
  simpl in Hlen, Hs, Hs'. injection Hlen as Hlen.
  apply andb_true_iff in Hs as [Hc Hs]. apply andb_true_iff in Hs' as [Hc' Hs'].
  destruct (hex_digit_value_back _ _ Hc) as (d & Hd & Hlt & Hback).
  destruct (hex_digit_value_back _ _ Hc') as (d' & Hd' & Hlt' & Hback').
  cbn [numeral_value] in Hv. rewrite Hd, Hd' in Hv. simpl in Hv.
  rewrite (numeral_value_acc _ s), (numeral_value_acc _ s'), <- Hlen in Hv.
  pose proof (numeral_value_bound s) as Hb.
  pose proof (numeral_value_bound s') as Hb'. rewrite <- Hlen in Hb'.
  assert (d = d') by nia. subst d'.
  assert (numeral_value 0 s = numeral_value 0 s') by nia.
  f_equal; [congruence|by apply IH].
Qed.

Lemma leading_digit_weight upper c s :
  only_digits upper (String c s) = true →
  startswith (String c s) "0" = false →
  (16 ^ N.of_nat (String.length s) ≤ numeral_value 0 (String c s))%N.
Proof.
  simpl. intros [Hc _]%andb_true_iff Hz.
  destruct (hex_digit_value_back _ _ Hc) as (d & Hd & Hlt & Hback).
  rewrite Hd. simpl. rewrite numeral_value_acc.
  assert (d ≠ 0%N).
  { intros ->. subst c. by destruct upper. }
  nia.
Qed.

(** A number has one numeral in each case. *)
Lemma numeral_unique upper z s s' :
  numeral upper z s → numeral upper z s' → s = s'.
Proof.
  intros (D & -> & Hne & Hd & Hv & Hpad) (D' & -> & Hne' & Hd' & Hv' & Hpad').
  f_equal.
  destruct (startswith D "0") eqn:Hz, (startswith D' "0") eqn:Hz'.
  - by rewrite Hpad, Hpad'.
  - rewrite (Hpad eq_refl) in Hv. simpl in Hv.
    destruct D' as [|c' D']; [done|].
    pose proof (leading_digit_weight _ _ _ Hd' Hz') as Hw.
    rewrite Hv', <- Hv in Hw.
    pose proof (N.pow_nonzero 16 (N.of_nat (String.length D'))). lia.
  - rewrite (Hpad' eq_refl) in Hv'. simpl in Hv'.
    destruct D as [|c D]; [done|].
    pose proof (leading_digit_weight _ _ _ Hd Hz) as Hw.
    rewrite Hv, <- Hv' in Hw.
    pose proof (N.pow_nonzero 16 (N.of_nat (String.length D))). lia.
  - destruct D as [|c D]; [done|]. destruct D' as [|c' D']; [done|].
    pose proof (leading_digit_weight _ _ _ Hd Hz) as Hw.
    pose proof (leading_digit_weight _ _ _ Hd' Hz') as Hw'.
    pose proof (numeral_value_bound (String c D)) as Hb.
    pose proof (numeral_value_bound (String c' D')) as Hb'.
    rewrite Hv in Hw, Hb. rewrite Hv' in Hw', Hb'.
    cbn [String.length] in Hb, Hb'.
    apply (same_length_same_value upper); [|done|done|congruence].
    cbn [String.length]. f_equal.
    destruct (Nat.lt_trichotomy (String.length D) (String.length D'))
      as [Hlt|[Heq|Hgt]]; [|done|]; exfalso.
    + assert (16 ^ N.of_nat (S (String.length D))
              ≤ 16 ^ N.of_nat (String.length D'))%N
        by (apply N.pow_le_mono_r; lia).
      lia.
    + assert (16 ^ N.of_nat (S (String.length D'))
              ≤ 16 ^ N.of_nat (String.length D))%N
        by (apply N.pow_le_mono_r; lia).
      lia.
Qed.

End HexFacts.

(** *** The codec of the daemon backend *)
Section Codec.
Import socketcand_bus.

Example decode_sample :
  convert_ascii_message_to_can_message "< frame 1A 12.3 0aFF00 >"
  = ([], Ok (Some {| timestamp := FFin false 123 (-1); arbitration_id := 26;
                     data := [x0a; xff; x00]; dlc := 3 |})).
Proof. reflexivity. Qed.

(** Only the third field is read as payload: what follows a third space is
    dropped. *)
Example decode_spaced_payload :
  convert_ascii_message_to_can_message "< frame 1A 12.3 0a ff 00 >"
  = ([], Ok (Some {| timestamp := FFin false 123 (-1); arbitration_id := 26;
                     data := [x0a]; dlc := 1 |})).
Proof. reflexivity. Qed.

(** An empty payload leaves an empty field between two spaces, on the way
    out and on the way in. *)
Example encode_empty_payload :
  convert_can_message_to_ascii_message
    {| timestamp := FNan; arbitration_id := 26; data := []; dlc := 0 |}
  = "< send 1A 0  >"
  ∧ convert_ascii_message_to_can_message "< frame 1A 12.3  >"
    = ([], Ok (Some {| timestamp := FFin false 123 (-1); arbitration_id := 26;
                       data := []; dlc := 0 |})).
Proof. split; reflexivity. Qed.

(** A negative dlc cuts bytes off the end of the data. *)
Example encode_negative_dlc :
  convert_can_message_to_ascii_message
    {| timestamp := FNan; arbitration_id := 26;
       data := [x0a; xff; x00]; dlc := -1 |}
  = "< send 1A -1 a ff >".
Proof. reflexivity. Qed.

Lemma join_spaced (l : list string) : join " " l = Wire.spaced l.
Proof. induction l as [|x [|y l] IH]; try done. simpl in *. by rewrite IH. Qed.

Lemma slice_to_firstn {A} (l : list A) (stop : Z) :
  0 ≤ stop → slice_to l stop = firstn (Z.to_nat stop) l.
Proof.
  intros H. unfold slice_to.
  destruct (Z.ltb_spec stop 0) as [|_]; [lia|].
  destruct (Z.le_gt_cases stop (Z.of_nat (length l))).
  - by rewrite Z.min_l.
  - rewrite Z.min_r by lia. rewrite Nat2Z.id.
    rewrite !firstn_all2; [done|lia|lia].
Qed.


Lemma encoding_send_line (m : Message) :
  0 ≤ dlc m →
  convert_can_message_to_ascii_message m =
    Wire.send_line (format_hex true (arbitration_id m))
      (format_hex true (dlc m))
      (map (λ b, format_hex false (byte_value b))
           (firstn (Z.to_nat (dlc m)) (data m))).
Proof.
  intros Hdlc.
  unfold convert_can_message_to_ascii_message, Wire.send_line.
  by rewrite join_spaced, slice_to_firstn.
Qed.

(** C3. The outbound encoding of a frame is exactly the line
    [< send ID LEN BYTES >] of the wire grammar: whatever strings are the
    numeral of the arbitration id in upper-case hexadecimal without padding,
    the numeral of the dlc likewise, and the numerals, in lower-case
    hexadecimal, of the first [dlc] bytes of the data, the encoder returns
    these fields after [< send ], separated by single spaces and followed by
    [ >]; and such fields exist. *)
Theorem C3_outbound_encoding (m : Message) :
  0 ≤ dlc m →
  let payload := firstn (Z.to_nat (dlc m)) (data m) in
  (∃ id_field len_field byte_fields,
     numeral true (arbitration_id m) id_field
     ∧ numeral true (dlc m) len_field
     ∧ Forall2 (λ b f, numeral false (byte_value b) f) payload byte_fields)
  ∧ (∀ id_field len_field byte_fields,
       numeral true (arbitration_id m) id_field →
       numeral true (dlc m) len_field →
       Forall2 (λ b f, numeral false (byte_value b) f) payload byte_fields →
       convert_can_message_to_ascii_message m
       = Wire.send_line id_field len_field byte_fields).
Proof.
  intros Hdlc payload. split.
  - exists (format_hex true (arbitration_id m)), (format_hex true (dlc m)),
      (map (λ b, format_hex false (byte_value b)) payload).
    split_and!; [apply format_hex_numeral..|].
    induction payload as [|b rest IH]; constructor;
      [apply format_hex_numeral|done].
  - intros id_field len_field byte_fields Hid Hlen Hbytes.
    rewrite encoding_send_line by done. fold payload.
    rewrite (numeral_unique _ _ _ _ Hid (format_hex_numeral true _)).
    rewrite (numeral_unique _ _ _ _ Hlen (format_hex_numeral true _)).
    f_equal. clear -Hbytes.
    induction Hbytes as [|b f rest fs Hf _ IH]; [done|]. simpl.
    by rewrite IH, (numeral_unique _ _ _ _ Hf (format_hex_numeral false _)).
Qed.

Lemma numeral_of_format upper z s : format_hex upper z = s → numeral upper z s.
Proof. intros <-. apply format_hex_numeral. Qed.

Lemma C3_outbound_encoding_witness :
  convert_can_message_to_ascii_message
    {| timestamp := FNan; arbitration_id := 26;
       data := [x0a; xff; x00; x07]; dlc := 3 |}
  = "< send 1A 3 a ff 0 >".
Proof.
  destruct (C3_outbound_encoding
    {| timestamp := FNan; arbitration_id := 26;
       data := [x0a; xff; x00; x07]; dlc := 3 |}) as [_ H]; [simpl; lia|].
  apply (H "1A" "3" ["a"; "ff"; "0"]).
  - by apply numeral_of_format.
  - by apply numeral_of_format.
  - repeat constructor; by apply numeral_of_format.
Defined.















(** C4, as the code has it. A line that fails the envelope test (it does not
    start with [< frame ] or does not end with [ >]) is logged with a warning
    and decodes to [None]; nothing is raised. *)
Theorem C4_envelope_failure_is_no_frame (line : string) :
  envelope line = false →
  convert_ascii_message_to_can_message line
  = ([warning ("Could not parse ascii message: " +:+ line)], Ok None).
Proof.
  unfold envelope, convert_ascii_message_to_can_message.
  by destruct (startswith line "< frame "), (endswith line " >").
Qed.

Lemma C4_envelope_failure_witness :
  (envelope "garbage" = false
   ∧ convert_ascii_message_to_can_message "garbage"
     = ([warning "Could not parse ascii message: garbage"], Ok None))
  ∧ (envelope "< frame 1A 12.3 00" = false
     ∧ convert_ascii_message_to_can_message "< frame 1A 12.3 00"
       = ([warning "Could not parse ascii message: < frame 1A 12.3 00"],
          Ok None)).
Proof.
  split; (split; [reflexivity|]).
  - exact (C4_envelope_failure_is_no_frame "garbage" eq_refl).
  - exact (C4_envelope_failure_is_no_frame "< frame 1A 12.3 00" eq_refl).
Defined.

(** C4, as the spec words it, fails: the line [< frame zz 1.0 00 >] is
    malformed (its id field is no hexadecimal number) and the decoder raises
    on it instead of returning [None]. *)
Lemma C4_counterexample :
  int16 "zz" = Raise ValueError
  ∧ snd (convert_ascii_message_to_can_message "< frame zz 1.0 00 >")
    = Raise ValueError
  ∧ snd (convert_ascii_message_to_can_message "< frame zz 1.0 00 >")
    ≠ Ok None.
Proof. split_and!; [reflexivity|reflexivity|discriminate]. Qed.

End Codec.

(** *** The bus abstraction *)
Section BusFacts.
Context {M L : Type}.
Import bus.

(** The body of the writer loop does drain the queue when it runs: the loop
    is dead because of its guard alone. *)
Example tx_iteration_drains (a b : M) :
  tx_iteration
    {| self :=
         {| listeners := @nil L;
            _tx_queue := {| maxsize := 0; items := [Some a; None; Some b] |};
            _threads_running := true |};
       put_calls := [] |}
  = Ok {| self :=
            {| listeners := [];
               _tx_queue := {| maxsize := 0; items := [] |};
               _threads_running := true |};
          put_calls := [a; b] |}.
Proof. reflexivity. Qed.

(** C5. The writer loop is dead code: its guard [False and ...] is false
    whatever the bus state, so [tx_thread] returns at once, with the bus
    (transmit queue included) as it was and without a single call of
    [_put_message]. *)
Theorem C5_tx_thread_is_dead (fuel : nat) (b : BusABC M L) :
  py_and false (λ _, Ok (_threads_running b)) = Ok false
  ∧ tx_thread (S fuel) b = Some (Ok {| self := b; put_calls := [] |}).
Proof. split; reflexivity. Qed.

(** The transmit queue of a bus is never bounded. *)
Lemma reachable_unbounded (b : BusABC M L) :
  reachable b → maxsize (_tx_queue b) = 0.
Proof.
  induction 1 as [|b msg b' _ IH Hw| |]; try done.
  unfold write, put_nowait, full in Hw. rewrite IH in Hw.
  simpl in Hw. by simplify_eq.
Qed.

Lemma write_unbounded msg (b : BusABC M L) :
  maxsize (_tx_queue b) = 0 →
  write msg b
  = Ok {| listeners := listeners b;
          _tx_queue := {| maxsize := 0; items := items (_tx_queue b) ++ [msg] |};
          _threads_running := _threads_running b |}.
Proof.
  intros H. unfold write, put_nowait, full. rewrite H. done.
Qed.

(** C10. [shutdown] clears the threads-running event and nothing else: the
    listeners and the transmit queue stay as they are. A [write] after it
    succeeds and appends the message to the queue, and a second [shutdown]
    changes nothing. *)
Theorem C10_shutdown_only_clears_event (b : BusABC M L) :
  reachable b →
  shutdown b = {| listeners := listeners b;
                  _tx_queue := _tx_queue b;
                  _threads_running := false |}
  ∧ (∀ msg,
       write msg (shutdown b)
       = Ok {| listeners := listeners b;
               _tx_queue := {| maxsize := maxsize (_tx_queue b);
                               items := items (_tx_queue b) ++ [msg] |};
               _threads_running := false |})
  ∧ shutdown (shutdown b) = shutdown b.
Proof.
  intros Hb. pose proof (reachable_unbounded b Hb) as Hq.
  split_and!; [done| |done].
  intros msg. rewrite write_unbounded by done. by rewrite Hq.
Qed.

End BusFacts.

Lemma sample_bus_reachable : reachable sample_bus.
Proof.
  apply (reach_write bus.__init__ (Some 7%nat)); [constructor|reflexivity].
Qed.

Lemma C10_shutdown_witness :
  bus.write (Some 8%nat) (bus.shutdown sample_bus)
  = Ok {| bus.listeners := [];
          bus._tx_queue := {| maxsize := 0; items := [Some 7%nat; Some 8%nat] |};
          bus._threads_running := false |}.
Proof.
  destruct (C10_shutdown_only_clears_event sample_bus sample_bus_reachable)
    as (_ & Hw & _).
  exact (Hw (Some 8%nat)).
Defined.

(** *** The buffered listener *)
Section ReaderFacts.
Context {M : Type}.
Import CAN.

(** C8, as the code has it. [get_message()] takes no timeout: it waits for
    at most the fixed half second. It never raises; with an empty buffer and
    no message arriving within the half second it returns [None] after half a
    second and leaves the reader as it was; a buffered message is returned
    at once. *)
Theorem C8_get_message_fixed_half_second (r : BufferedReader M)
    (arrival : option (Q * M)) :
  ∃ res waited r',
    get_message [] arrival r = (Ok res, waited, r')
    ∧ (waited <= 1 # 2)%Q
    ∧ (items (buffer r) = [] → arrives_before (1 # 2) arrival = false →
       res = None ∧ waited = (1 # 2)%Q ∧ r' = r)
    ∧ (∀ x rest, items (buffer r) = x :: rest →
       res = Some x ∧ waited = 0%Q
       ∧ r' = {| buffer := {| maxsize := maxsize (buffer r);
                              items := rest |} |}).
Proof.
  unfold get_message, get, arrives_before.
  destruct (items (buffer r)) as [|x rest] eqn:Hitems.
  - destruct arrival as [[d y]|].
    + destruct (Qle_bool (1 # 2) d) eqn:Hd; simpl.
      * eexists _, _, _. split_and!; [done|apply Qle_refl|done|done].
      * eexists _, _, _. split_and!; [done| |done|done].
        apply Qlt_le_weak, Qnot_le_lt. intros H%Qle_bool_iff. congruence.
    + eexists _, _, _. split_and!; [done|apply Qle_refl|done|done].
  - eexists _, _, _. split_and!; [done|done|done|].
    intros ? ? [= <- <-]. done.
Qed.

End ReaderFacts.

(** C8, as the spec words it, fails. A caller cannot supply the timeout: the
    call with one is a [TypeError]. And the wait is not the caller's: a
    message that arrives after one second, within a two-second wait, is
    missed, and [None] comes back after half a second. *)
Lemma C8_counterexample :
  CAN.get_message [VFloat (FFin false 2 0)] (Some ((1 # 1)%Q, 7%nat))
    CAN.__init__
  = (Raise TypeError, 0%Q, CAN.__init__)
  ∧ CAN.get_message [] (Some ((1 # 1)%Q, 7%nat)) CAN.__init__
    = (Ok None, (1 # 2)%Q, CAN.__init__).
Proof. split; reflexivity. Qed.

(** *** Connection establishment *)
Section ConnectFacts.
Import socketcand_bus.
Variable clock : nat → PrimFloat.float.
Variable attempt : nat → connect_outcome.

Lemma connect_loop_all_fail (n : nat) :
  ∀ fuel i log,
    (n < fuel)%nat →
    (∀ j, (i ≤ j < i + n)%nat → inside clock j = true ∧ fails attempt j) →
    inside clock (i + n) = false →
    ∃ log',
      connect_loop fuel clock attempt i (reading clock i) (end_time clock) log
      = Some (log', timed_out)
      ∧ length log' = (length log + n)%nat.
Proof.
  induction n as [|n IH]; intros fuel i log Hfuel Hwin Hend;
    (destruct fuel as [|fuel]; [lia|]); cbn [connect_loop].
  - rewrite Nat.add_0_r in Hend. unfold inside in Hend. rewrite Hend.
    exists log. split; [done|lia].
  - destruct (Hwin i) as [Hi (ty & msg & Hf)]; [lia|].
    unfold inside in Hi. rewrite Hi, Hf.
    change (clock (S i) * 1000)%float with (reading clock (S i)).
    edestruct (IH fuel (S i)) as (log' & -> & Hlen); [lia| | |].
    + intros j Hj. apply Hwin. lia.
    + by replace (S i + n)%nat with (i + S n)%nat by lia.
    + exists log'. split; [done|]. rewrite Hlen, List.length_app. simpl. lia.
Qed.

Lemma connect_loop_connects (k : nat) :
  ∀ fuel i log,
    (k < fuel)%nat →
    (∀ j, (i ≤ j < i + k)%nat → inside clock j = true ∧ fails attempt j) →
    inside clock (i + k) = true →
    attempt (i + k)%nat = Connected →
    ∃ log',
      connect_loop fuel clock attempt i (reading clock i) (end_time clock) log
      = Some (log', Ok tt)
      ∧ length log' = (length log + k)%nat.
Proof.
  induction k as [|k IH]; intros fuel i log Hfuel Hwin Hlast Hok;
    (destruct fuel as [|fuel]; [lia|]); cbn [connect_loop].
  - rewrite Nat.add_0_r in Hlast, Hok. unfold inside in Hlast.
    rewrite Hlast, Hok. exists log. split; [done|lia].
  - destruct (Hwin i) as [Hi (ty & msg & Hf)]; [lia|].
    unfold inside in Hi. rewrite Hi, Hf.
    change (clock (S i) * 1000)%float with (reading clock (S i)).
    edestruct (IH fuel (S i)) as (log' & -> & Hlen); [lia| | | |].
    + intros j Hj. apply Hwin. lia.
    + by replace (S i + k)%nat with (i + S k)%nat by lia.
    + by replace (S i + k)%nat with (i + S k)%nat by lia.
    + exists log'. split; [done|]. rewrite Hlen, List.length_app. simpl. lia.
Qed.

(** While the readings are inside the window and the attempts fail, the
    loop has not ended. *)
Lemma connect_loop_goes_on (fuel : nat) :
  (∀ j, inside clock j = true) →
  (∀ j, fails attempt j) →
  ∀ i log,
    connect_loop fuel clock attempt i (reading clock i) (end_time clock) log
    = None.
Proof.
  intros Hwin Hfail. induction fuel as [|fuel IH]; intros i log; [done|].
  cbn [connect_loop]. pose proof (Hwin i) as Hi. unfold inside in Hi.
  rewrite Hi. destruct (Hfail i) as (ty & msg & ->).
  apply (IH (S i)).
Qed.

End ConnectFacts.

(** The window is counted in binary64. With a first reading of
    115199410227581 / 65536 seconds and a second one of
    7372762296508223 / 4194304 seconds, which is less than ten seconds
    later, the second product is not below the end of the window any more:
    one attempt is made, and the second test ends the loop. *)
Example connect_window_in_binary64 :
  let t0 := (115199410227581 / 65536)%float in
  let t1 := (7372762296508223 / 4194304)%float in
  PrimFloat.ltb t1 (t0 + 10)%float = true
  ∧ socketcand_bus.connect_to_server 3
      (λ k, match k with O => t0 | _ => t1 end)
      (λ _, socketcand_bus.Failed "<class 'ConnectionRefusedError'>"
              "[Errno 111] Connection refused")
    = Some ([socketcand_bus.warning
               "Failed to connect to server: <class 'ConnectionRefusedError'> Message: [Errno 111] Connection refused"],
            timed_out).
Proof. split; vm_compute; reflexivity. Qed.

(** C7. The window is the fixed 10000 ms after the first reading of the
    clock, in the binary64 arithmetic of the code: its end is the sum of
    the first reading in milliseconds and 10000, and a reading is inside
    while its product with 1000 is below that sum. When every attempt
    fails, [connect_to_server] retries at every reading inside the window
    and raises [TimeoutError] at the first reading that is not inside,
    having made [n] attempts, each with its warning, when that is the
    [n]-th reading. When the [k]-th attempt succeeds and all readings up
    to it are inside the window, it returns without an error. *)
Theorem C7_connect_retries_until_timeout
    (clock : nat → PrimFloat.float)
    (attempt : nat → socketcand_bus.connect_outcome) :
  end_time clock = (clock 0%nat * 1000 + 10000)%float
  ∧ (∀ j, inside clock j
          = PrimFloat.ltb (clock j * 1000)%float
              (clock 0%nat * 1000 + 10000)%float)
  ∧ (∀ n fuel,
       (n < fuel)%nat →
       (∀ j, fails attempt j) →
       (∀ j, (j < n)%nat → inside clock j = true) →
       inside clock n = false →
       ∃ log,
         socketcand_bus.connect_to_server fuel clock attempt
         = Some (log, timed_out)
         ∧ length log = n)
  ∧ (∀ k fuel,
       (k < fuel)%nat →
       attempt k = socketcand_bus.Connected →
       (∀ j, (j < k)%nat → fails attempt j) →
       (∀ j, (j ≤ k)%nat → inside clock j = true) →
       ∃ log,
         socketcand_bus.connect_to_server fuel clock attempt
         = Some (log, Ok tt)
         ∧ length log = k).
Proof.
  split_and!.
  - reflexivity.
  - reflexivity.
  - intros n fuel Hfuel Hfail Hwin Hend.
    destruct (connect_loop_all_fail clock attempt n fuel 0%nat [])
      as (log & Hrun & Hlen); [done| |done|].
    + intros j Hj. split; [apply Hwin; lia|apply Hfail].
    + exists log. split; [exact Hrun|exact Hlen].
  - intros k fuel Hfuel Hok Hfail Hwin.
    destruct (connect_loop_connects clock attempt k fuel 0%nat [])
      as (log & Hrun & Hlen); [done| | |done|].
    + intros j Hj. split; [apply Hwin; lia|apply Hfail; lia].
    + apply Hwin. lia.
    + exists log. split; [exact Hrun|exact Hlen].
Qed.

(** A clock read every five seconds and a daemon that never answers: two
    attempts, then the timeout. *)
Lemma C7_connect_witness :
  ∃ log,
    socketcand_bus.connect_to_server 3
      (λ k, match k with
            | O => 1757803500.25
            | S O => 1757803505.25
            | _ => 1757803510.25
            end%float)
      (λ _, socketcand_bus.Failed "ConnectionRefusedError" "refused")
    = Some (log, timed_out)
    ∧ length log = 2%nat.
Proof.
  destruct (C7_connect_retries_until_timeout
              (λ k, match k with
                    | O => 1757803500.25
                    | S O => 1757803505.25
                    | _ => 1757803510.25
                    end%float)
              (λ _, socketcand_bus.Failed "ConnectionRefusedError" "refused"))
    as (_ & _ & Htimeout & _).
  apply (Htimeout 2%nat 3%nat).
  - lia.
  - intros j. by eexists _, _.
  - intros j Hj. destruct j as [|[|j]]; [reflexivity|reflexivity|lia].
  - reflexivity.
Defined.

(** *** Construction of a native-driver message *)
Section MessageFacts.
Import pycanlib.

Lemma float_gez_not_ltz f : float_gez f = true → float_ltz f = false.
Proof.
  destruct f as [|neg|neg m e]; simpl; try done.
  - by destruct neg.
  - destruct neg; simpl; [|done]. intros ->. done.
Qed.

Lemma timestamp_accepted ts :
  nonnegative ts = true →
  LogMessage.__init__ ts = Ok {| LogMessage.timestamp := ts |}.
Proof.
  destruct ts as [z|z|b|f|s| |l]; simpl; try done.
  - intros H. destruct (Z.ltb_spec z 0); [lia|done].
  - intros H. by rewrite float_gez_not_ltz.
Qed.






Lemma check_items_bytes (whole : list pyval) (bytes : list Z) :
  Forall is_byte bytes → Message.check_items whole (map VInt bytes) = Ok tt.
Proof.
  induction 1 as [|z bytes Hz _ IH]; [done|]. simpl.
  unfold in_range. destruct Hz.
  destruct (Z.leb_spec 0 z); [|lia]. destruct (Z.ltb_spec z (2 ^ 8)); [|lia].
  done.
Qed.


Lemma check_int_ok name z type_reason lo hi range_reason :
  lo ≤ z < hi →
  Message.check_int name (VInt z) type_reason lo hi range_reason = Ok tt.
Proof.
  intros [? ?]. unfold Message.check_int, in_range. simpl.
  destruct (Z.leb_spec lo z); [|lia]. destruct (Z.ltb_spec z hi); [|lia]. done.
Qed.

Lemma check_int_bad name z type_reason lo hi range_reason :
  ¬ lo ≤ z < hi →
  Message.check_int name (VInt z) type_reason lo hi range_reason
  = Raise (InvalidMessageParameterError name (VInt z) range_reason).
Proof.
  intros H. unfold Message.check_int, in_range. simpl.
  destruct (Z.leb_spec lo z); simpl; [|done].
  destruct (Z.ltb_spec z hi); simpl; [|done]. lia.
Qed.

Lemma length_in_range (n : nat) :
  (n ≤ 8)%nat → in_range (Z.of_nat n) 0 9 = true.
Proof.
  intros H. unfold in_range.
  destruct (Z.leb_spec 0 (Z.of_nat n)); [|lia].
  destruct (Z.ltb_spec (Z.of_nat n) 9); [done|lia].
Qed.





End MessageFacts.

(** *** The handle registry *)
Section RegistryFacts.
Import pycanlib.

Lemma bindS_ok {A B} (c : st A) (k : A → st B) w w' b :
  bindS c k w = (w', Ok b) →
  ∃ w1 a, c w = (w1, Ok a) ∧ k a w1 = (w', Ok b).
Proof.
  unfold bindS. destruct (c w) as [w1 [a|e]]; [|done]. intros H. by exists w1, a.
Qed.

Lemma bindS_run {A B} (c : st A) (k : A → st B) w w1 a :
  c w = (w1, Ok a) → bindS c k w = k a w1.
Proof. unfold bindS. by intros ->. Qed.

(** **** The scan of a registry *)

Lemma scan_from_no_match hs ch fl entries acc :
  (∀ e, e ∈ entries → is_match hs ch fl e.2 = false) →
  fold_left (scan_step hs ch fl) entries acc = acc.
Proof.
  revert acc. induction entries as [|e entries IH]; intros acc H; [done|].
  simpl. unfold scan_step at 2. rewrite H by (apply elem_of_cons; by left).
  apply IH. intros e' He'. apply H, elem_of_cons. by right.
Qed.

Lemma scan_from_inv hs ch fl entries acc a :
  fold_left (scan_step hs ch fl) entries acc = Some a →
  acc = Some a ∨ ∃ e, e ∈ entries ∧ e.2 = a ∧ is_match hs ch fl a = true.
Proof.
  revert acc. induction entries as [|e entries IH]; intros acc H; [by left|].
  simpl in H. apply IH in H as [H|(e' & He' & Ha & Hm)].
  - unfold scan_step in H.
    destruct (is_match hs ch fl e.2) eqn:Hm; [|by left].
    right. exists e. simplify_eq.
    split_and!; [apply elem_of_cons; by left|done|done].
  - right. exists e'. split_and!; [apply elem_of_cons; by right|done|done].
Qed.

Lemma scan_from_some hs ch fl entries x :
  is_Some (fold_left (scan_step hs ch fl) entries (Some x)).
Proof.
  revert x. induction entries as [|e entries IH]; intros x; [by eexists|].
  simpl. unfold scan_step at 2. destruct (is_match hs ch fl e.2); apply IH.
Qed.

Lemma scan_from_none_inv hs ch fl entries acc :
  fold_left (scan_step hs ch fl) entries acc = None →
  ∀ e, e ∈ entries → is_match hs ch fl e.2 = false.
Proof.
  revert acc. induction entries as [|e entries IH]; intros acc H e' He'.
  - by apply elem_of_nil in He'.
  - simpl in H. apply elem_of_cons in He' as [->|He']; [|by eapply IH].
    destruct (is_match hs ch fl e.2) eqn:Hm; [|done].
    unfold scan_step in H at 2. rewrite Hm in H.
    destruct (scan_from_some hs ch fl entries e.2) as [y Hy]. congruence.
Qed.

Lemma scan_from_unique hs ch fl entries acc a :
  (∀ e, e ∈ entries → is_match hs ch fl e.2 = true → e.2 = a) →
  acc = Some a ∨ (∃ e, e ∈ entries ∧ is_match hs ch fl e.2 = true) →
  fold_left (scan_step hs ch fl) entries acc = Some a.
Proof.
  revert acc. induction entries as [|e entries IH]; intros acc Hall Hsome.
  - destruct Hsome as [->|(e & He & _)]; [done|]. by apply elem_of_nil in He.
  - simpl. apply IH; [intros x Hx; apply Hall; by apply elem_of_cons; right|].
    unfold scan_step. destruct (is_match hs ch fl e.2) eqn:Hm.
    + left. f_equal. apply Hall; [by apply elem_of_cons; left|done].
    + destruct Hsome as [->|(x & Hx & Hmx)]; [by left|].
      apply elem_of_cons in Hx as [->|Hx]; [congruence|]. right. eauto.
Qed.

Lemma scan_from_ext hs hs' ch fl entries acc :
  (∀ e, e ∈ entries → is_match hs ch fl e.2 = is_match hs' ch fl e.2) →
  fold_left (scan_step hs ch fl) entries acc
  = fold_left (scan_step hs' ch fl) entries acc.
Proof.
  revert acc. induction entries as [|e entries IH]; intros acc H; [done|].
  simpl. unfold scan_step at 2 4.
  rewrite (H e) by (apply elem_of_cons; by left).
  apply IH. intros x Hx. apply H, elem_of_cons. by right.
Qed.

(** **** Opening a handle *)

Lemma handle_init_opens ch fl w :
  can_open ch fl (drv w) = true →
  _Handle__init__ ch fl w = (opened ch fl w, Ok (fresh (dom (handles w)))).
Proof.
  unfold can_open. intros [[H1 H2]%andb_true_iff H3]%andb_true_iff.
  unfold _Handle__init__, bindS, get_world. rewrite H1, H2. cbn [negb].
  unfold opened, opened_driver, canOpenChannel.
  cbn [open_status served]. rewrite H3.
  reflexivity.
Qed.

Lemma handle_init_refuses ch fl w :
  can_open ch fl (drv w) = false →
  ∃ w' e, _Handle__init__ ch fl w = (w', Raise e)
          ∧ handles w' = handles w
          ∧ buses w' = buses w
          ∧ READ_HANDLE_REGISTRY w' = READ_HANDLE_REGISTRY w
          ∧ WRITE_HANDLE_REGISTRY w' = WRITE_HANDLE_REGISTRY w
          ∧ next_handle (drv w') = next_handle (drv w).
Proof.
  unfold can_open. intros H.
  unfold _Handle__init__, bindS, get_world.
  destruct (in_range ch 0 (num_channels (drv w))); cbn [negb];
    [|by eexists _, _].
  destruct (Z.land fl (65535 - FLAGS_MASK (drv w)) =? 0); cbn [negb];
    [|by eexists _, _].
  simpl in H. unfold canOpenChannel. cbn [open_status served]. rewrite H.
  destruct (_ =? canERR_NOTFOUND _); by eexists _, _.
Qed.

Lemma handle_init_inv ch fl w w' a :
  _Handle__init__ ch fl w = (w', Ok a) →
  can_open ch fl (drv w) = true
  ∧ w' = opened ch fl w ∧ a = fresh (dom (handles w)).
Proof.
  intros H. destruct (can_open ch fl (drv w)) eqn:Hc.
  - rewrite handle_init_opens in H by done. by simplify_eq.
  - destruct (handle_init_refuses ch fl w Hc) as (? & ? & Hr & _). congruence.
Qed.

(** **** Acquiring a handle *)

Lemma is_match_lookup hs ch fl a :
  is_match hs ch fl a = true →
  ∃ h, hs !! a = Some h ∧ _Handle.channel h = ch ∧ _Handle.flags h = fl.
Proof.
  unfold is_match. destruct (hs !! a) as [h|]; [|done].
  intros [?%Z.eqb_eq ?%Z.eqb_eq]%andb_true_iff. by exists h.
Qed.

Lemma finds_lookup w reg ch fl a :
  finds w reg ch fl a →
  ∃ h k, handles w !! a = Some h ∧ registry_of reg w !! k = Some a
         ∧ _Handle.channel h = ch ∧ _Handle.flags h = fl.
Proof.
  intros H. apply scan_from_inv in H as [|([k a'] & Hin & <- & Hm)]; [done|].
  apply elem_of_map_to_list in Hin.
  destruct (is_match_lookup _ _ _ _ Hm) as (h & ? & ? & ?).
  by exists h, k.
Qed.

Lemma get_handle_found ch fl reg w a h :
  finds w reg ch fl a → handles w !! a = Some h →
  _get_handle ch fl reg w = (notified reg (_Handle._canlib_handle h) w, Ok a).
Proof.
  unfold finds. intros Hscan Hh.
  unfold _get_handle, bindS, get_world. rewrite Hscan.
  unfold ret, get_canlib_handle. rewrite Hh.
  unfold notified. by destruct (decide _).
Qed.

Lemma set_registry_handles reg m w : handles (set_registry reg m w) = handles w.
Proof. by destruct reg. Qed.

Lemma set_registry_drv reg m w : drv (set_registry reg m w) = drv w.
Proof. by destruct reg. Qed.

Lemma registry_of_set_registry reg m w :
  registry_of reg (set_registry reg m w) = m.
Proof. by destruct reg. Qed.

Lemma opened_lookup ch fl w :
  handles (opened ch fl w) !! fresh (dom (handles w))
  = Some (new_handle ch fl (next_handle (drv w))).
Proof. unfold opened. simpl. apply lookup_insert_eq. Qed.

Lemma get_handle_new ch fl reg w :
  scan (handles w) ch fl (map_to_list (registry_of reg w)) = None →
  can_open ch fl (drv w) = true →
  _get_handle ch fl reg w
  = (notified reg (next_handle (drv w)) (registered reg ch fl w),
     Ok (fresh (dom (handles w)))).
Proof.
  intros Hscan Hopen.
  unfold _get_handle, bindS, get_world. rewrite Hscan.
  rewrite (handle_init_opens ch fl w Hopen).
  unfold get_canlib_handle at 1. rewrite opened_lookup.
  unfold modify at 1, ret at 1.
  assert (Hreg :
    set_registry reg
      (<[_Handle._canlib_handle (new_handle ch fl (next_handle (drv w))) :=
           fresh (dom (handles w))]> (registry_of reg (opened ch fl w)))
      (opened ch fl w)
    = registered reg ch fl w) by (by destruct reg).
  rewrite Hreg. unfold get_canlib_handle.
  unfold registered at 1. rewrite set_registry_handles, opened_lookup.
  unfold notified, driver, modify, ret. by destruct (decide _).
Qed.

Lemma get_handle_refused ch fl reg w :
  scan (handles w) ch fl (map_to_list (registry_of reg w)) = None →
  can_open ch fl (drv w) = false →
  ∃ w' e, _get_handle ch fl reg w = (w', Raise e)
          ∧ handles w' = handles w
          ∧ buses w' = buses w
          ∧ READ_HANDLE_REGISTRY w' = READ_HANDLE_REGISTRY w
          ∧ WRITE_HANDLE_REGISTRY w' = WRITE_HANDLE_REGISTRY w
          ∧ next_handle (drv w') = next_handle (drv w).
Proof.
  intros Hscan Hopen.
  destruct (handle_init_refuses ch fl w Hopen) as (w' & e & Hr & ?).
  exists w', e. split; [|done].
  unfold _get_handle, bindS, get_world. rewrite Hscan.
  fold (@bindS nat). unfold bindS. by rewrite Hr.
Qed.

(** What a successful [_get_handle] did: it found the handle, or it opened
    and registered a new one. *)
Lemma get_handle_inv ch fl reg w w' a :
  _get_handle ch fl reg w = (w', Ok a) →
  (∃ h, finds w reg ch fl a ∧ handles w !! a = Some h
        ∧ w' = notified reg (_Handle._canlib_handle h) w)
  ∨ (scan (handles w) ch fl (map_to_list (registry_of reg w)) = None
     ∧ can_open ch fl (drv w) = true
     ∧ a = fresh (dom (handles w))
     ∧ w' = notified reg (next_handle (drv w)) (registered reg ch fl w)).
Proof.
  intros H.
  destruct (scan (handles w) ch fl (map_to_list (registry_of reg w)))
    as [a'|] eqn:Hscan.
  - destruct (finds_lookup w reg ch fl a' Hscan) as (h & _ & Hh & _).
    rewrite (get_handle_found ch fl reg w a' h Hscan Hh) in H.
    simplify_eq. left. by exists h.
  - destruct (can_open ch fl (drv w)) eqn:Hopen.
    + rewrite get_handle_new in H by done. simplify_eq. by right.
    + destruct (get_handle_refused ch fl reg w Hscan Hopen) as (?&?&Hr&_).
      congruence.
Qed.

Lemma notified_handles reg key w : handles (notified reg key w) = handles w.
Proof. done. Qed.

Lemma notified_registry reg' reg key w :
  registry_of reg' (notified reg key w) = registry_of reg' w.
Proof. by destruct reg'. Qed.

Lemma registered_handles reg ch fl w :
  handles (registered reg ch fl w)
  = <[fresh (dom (handles w)) := new_handle ch fl (next_handle (drv w))]>
      (handles w).
Proof. unfold registered. by rewrite set_registry_handles. Qed.

Lemma registered_registry reg ch fl w :
  registry_of reg (registered reg ch fl w)
  = <[next_handle (drv w) := fresh (dom (handles w))]> (registry_of reg w).
Proof. unfold registered. by rewrite registry_of_set_registry. Qed.

Lemma registered_other_registry reg reg' ch fl w :
  reg' ≠ reg →
  registry_of reg' (registered reg ch fl w) = registry_of reg' w.
Proof. by destruct reg, reg'. Qed.

Lemma fresh_handle_unused (w : world) :
  handles w !! fresh (dom (handles w)) = None.
Proof. apply not_elem_of_dom, is_fresh. Qed.

(** After a successful [_get_handle] the scan of the same registry for the
    same pair ends on the handle that was returned. *)
Lemma get_handle_finds ch fl reg w w' a :
  _get_handle ch fl reg w = (w', Ok a) → finds w' reg ch fl a.
Proof.
  intros [(h & Hf & _ & ->)|(Hscan & _ & -> & ->)]%get_handle_inv.
  - unfold finds. by rewrite notified_handles, notified_registry.
  - unfold finds.
    rewrite notified_handles, notified_registry, registered_handles,
      registered_registry.
    set (a := fresh (dom (handles w))). set (k := next_handle (drv w)).
    apply scan_from_unique.
    + intros [k' a'] [[_ ?]|[_ Hold]]%elem_of_map_to_list%lookup_insert_Some;
        [done|].
      simpl. intros Hm. destruct (decide (a' = a)) as [|Hne]; [done|].
      unfold is_match in Hm. rewrite lookup_insert_ne in Hm by done.
      apply elem_of_map_to_list in Hold.
      pose proof (scan_from_none_inv _ _ _ _ _ Hscan _ Hold) as Hno.
      unfold is_match in Hno. simpl in Hno. congruence.
    + right. exists (k, a). split.
      * apply elem_of_map_to_list, lookup_insert_eq.
      * unfold is_match. simpl. rewrite lookup_insert_eq. simpl.
        by rewrite !Z.eqb_refl.
Qed.

(** A second call with the same pair on the same registry returns the same
    object and opens nothing. *)
Lemma get_handle_again ch fl reg w w1 a :
  _get_handle ch fl reg w = (w1, Ok a) →
  ∃ w2,
    _get_handle ch fl reg w1 = (w2, Ok a)
    ∧ handles w2 = handles w1
    ∧ buses w2 = buses w1
    ∧ READ_HANDLE_REGISTRY w2 = READ_HANDLE_REGISTRY w1
    ∧ WRITE_HANDLE_REGISTRY w2 = WRITE_HANDLE_REGISTRY w1
    ∧ next_handle (drv w2) = next_handle (drv w1).
Proof.
  intros Hf%get_handle_finds.
  destruct (finds_lookup _ _ _ _ _ Hf) as (h & _ & Hh & _).
  eexists. split; [by apply (get_handle_found ch fl reg w1 a h)|done].
Qed.

Lemma unregistered_scan w reg ch fl :
  unregistered w reg ch fl →
  scan (handles w) ch fl (map_to_list (registry_of reg w)) = None.
Proof.
  intros H. apply scan_from_no_match.
  intros [k a] Hin%elem_of_map_to_list. by apply (H k).
Qed.

(** A call for a pair that is not registered opens a new handle with the
    driver and registers it under the driver's handle. *)
Lemma get_handle_unregistered ch fl reg w :
  unregistered w reg ch fl →
  can_open ch fl (drv w) = true →
  ∃ w1 a,
    _get_handle ch fl reg w = (w1, Ok a)
    ∧ handles w !! a = None
    ∧ handles w1 !! a = Some (new_handle ch fl (next_handle (drv w)))
    ∧ registry_of reg w1 = <[next_handle (drv w) := a]> (registry_of reg w)
    ∧ next_handle (drv w1) = next_handle (drv w) + 1
    ∧ canOpenChannel_call ch fl ∈ calls (drv w1).
Proof.
  intros Hun Hopen. eexists _, _.
  split; [apply get_handle_new; [by apply unregistered_scan|done]|].
  split; [apply fresh_handle_unused|].
  split; [by rewrite notified_handles, registered_handles, lookup_insert_eq|].
  split; [by rewrite notified_registry, registered_registry|].
  unfold can_open in Hopen.
  apply andb_true_iff in Hopen as [_ Hst].
  split.
  - unfold notified, registered. simpl. rewrite set_registry_drv. simpl.
    unfold canOpenChannel. simpl. by rewrite Hst.
  - unfold notified, registered. simpl. rewrite set_registry_drv. simpl.
    unfold canOpenChannel. simpl. rewrite Hst. simpl.
    rewrite !elem_of_app. do 5 left. right. apply list_elem_of_singleton. done.
Qed.

(** **** Constructing a bus *)

Lemma bus_init_unfold ch fl p driver_mode name :
  Bus__init__ ch fl p driver_mode name
  = (_read_handle <- _get_handle ch fl READ ;;
     _write_handle <- _get_handle ch fl WRITE ;;
     bus_tail _read_handle _write_handle p driver_mode name).
Proof. reflexivity. Qed.

Lemma program_handle_run h p driver_mode w :
  ∃ d, program_handle h p driver_mode w = (set_drv d w, Ok tt)
       ∧ next_handle d = next_handle (drv w).
Proof.
  unfold program_handle, bindS, get_world, driver, modify, ret.
  destruct (_ || _); by eexists.
Qed.

Lemma bus_tail_run rh wh p driver_mode name w hr hw :
  handles w !! rh = Some hr →
  handles w !! wh = Some hw →
  ∃ d B,
    bus_tail rh wh p driver_mode name w
    = (set_handles
         (<[rh := _Handle.add_listener (fresh (dom (buses w))) hr]> (handles w))
         (set_buses (<[fresh (dom (buses w)) := B]> (buses w)) (set_drv d w)),
       Ok (fresh (dom (buses w))))
    ∧ Bus._read_handle B = rh
    ∧ Bus._write_handle B = wh
    ∧ next_handle d = next_handle (drv w).
Proof.
  intros Hr Hw. unfold bus_tail.
  rewrite (bindS_run (get_canlib_handle rh) _ w w (_Handle._canlib_handle hr))
    by (unfold get_canlib_handle; by rewrite Hr).
  destruct (program_handle_run (_Handle._canlib_handle hr) p driver_mode w)
    as (d1 & Hp1 & Hn1).
  rewrite (bindS_run _ _ _ _ _ Hp1).
  unfold get_world at 1, bindS at 1.
  assert (∃ d2,
    (if negb (driver_mode =? canDRIVER_SILENT (drv (set_drv d1 w)))
     then wh0 <- get_canlib_handle wh ;; program_handle wh0 p driver_mode
     else ret tt) (set_drv d1 w) = (set_drv d2 w, Ok tt)
    ∧ next_handle d2 = next_handle (drv w)) as (d2 & Hp2 & Hn2).
  { destruct (negb _); [|by exists d1].
    rewrite (bindS_run (get_canlib_handle wh) _ (set_drv d1 w) (set_drv d1 w)
               (_Handle._canlib_handle hw))
      by (unfold get_canlib_handle; simpl; by rewrite Hw).
    destruct (program_handle_run (_Handle._canlib_handle hw) p driver_mode
                (set_drv d1 w)) as (d2 & Hp2 & Hn2).
    exists d2. rewrite Hp2. split; [done|]. simpl in Hn2. congruence. }
  rewrite (bindS_run _ _ _ _ _ Hp2).
  unfold get_world, bindS at 1, modify at 1, bindS at 1.
  unfold add_listener, bindS, ret. simpl. rewrite Hr.
  by eexists d2, _.
Qed.

Lemma wf_initial d : wf (initial d).
Proof. intros [] k a; simpl; by rewrite lookup_empty. Qed.

Lemma extends_refl w : extends w w.
Proof. intros a h ?. by exists h. Qed.

Lemma extends_trans w1 w2 w3 : extends w1 w2 → extends w2 w3 → extends w1 w3.
Proof.
  intros H12 H23 a h Hh.
  destruct (H12 a h Hh) as (h2 & Hh2 & ? & ?).
  destruct (H23 a h2 Hh2) as (h3 & Hh3 & ? & ?).
  exists h3. split_and!; [done|congruence|congruence].
Qed.

Lemma finds_stable w w' reg ch fl a :
  wf w → extends w w' →
  registry_of reg w' = registry_of reg w →
  finds w reg ch fl a → finds w' reg ch fl a.
Proof.
  unfold finds, scan. intros Hwf Hext -> <-.
  apply scan_from_ext. intros [k x] Hin%elem_of_map_to_list. simpl.
  destruct (Hwf reg k x Hin) as [h Hh].
  destruct (Hext x h Hh) as (h' & Hh' & Hc & Hf).
  unfold is_match. by rewrite Hh, Hh', Hc, Hf.
Qed.

Lemma get_handle_frame ch fl reg w w' a :
  _get_handle ch fl reg w = (w', Ok a) →
  wf w →
  wf w' ∧ extends w w'
  ∧ (∀ reg', reg' ≠ reg → registry_of reg' w' = registry_of reg' w)
  ∧ buses w' = buses w.
Proof.
  intros [(h & _ & _ & ->)|(_ & _ & -> & ->)]%get_handle_inv Hwf.
  - split_and!; [| | |done].
    + intros reg' k x. rewrite notified_registry, notified_handles. apply Hwf.
    + intros x hx Hx. by exists hx.
    + intros reg' _. apply notified_registry.
  - split_and!.
    + intros reg' k x. rewrite notified_registry, notified_handles,
        registered_handles.
      destruct (decide (reg' = reg)) as [->|Hne].
      * rewrite registered_registry.
        intros [[_ <-]|[_ Hold]]%lookup_insert_Some.
        -- rewrite lookup_insert_eq. by eexists.
        -- destruct (Hwf reg k x Hold) as [hx Hx].
           rewrite lookup_insert_ne; [by eexists|].
           intros <-. by rewrite fresh_handle_unused in Hx.
      * rewrite registered_other_registry by done. intros Hold.
        destruct (Hwf reg' k x Hold) as [hx Hx].
        rewrite lookup_insert_ne; [by eexists|].
        intros <-. by rewrite fresh_handle_unused in Hx.
    + intros x hx Hx. exists hx.
      rewrite notified_handles, registered_handles.
      rewrite lookup_insert_ne; [done|].
      intros <-. by rewrite fresh_handle_unused in Hx.
    + intros reg' Hne.
      by rewrite notified_registry, registered_other_registry.
    + unfold notified, registered. by destruct reg.
Qed.

(** **** Calls separated by other calls *)

Lemma finds_carries w reg ch fl a : finds w reg ch fl a → carries w reg ch fl a.
Proof.
  unfold finds, scan.
  intros [?|([k x] & Hin & <- & Hm)]%scan_from_inv; [done|].
  exists k. split; [by apply elem_of_map_to_list|done].
Qed.

(** With one object at most for a pair the scan ends on that object, in
    whatever order it goes through the registry. *)
Lemma carries_finds w reg ch fl a :
  deduplicated w → carries w reg ch fl a → finds w reg ch fl a.
Proof.
  intros (_ & _ & Huniq) [k [Hk Hm]]. apply scan_from_unique.
  - intros [k' x] Hin%elem_of_map_to_list Hx. simpl in *.
    apply (Huniq reg ch fl); [by exists k'|by exists k].
  - right. exists (k, a). split; [by apply elem_of_map_to_list|done].
Qed.

Lemma carries_lookup w reg ch fl a :
  carries w reg ch fl a → is_Some (handles w !! a).
Proof. intros [k [_ (h & Hh & _)%is_match_lookup]]. by exists h. Qed.

Lemma persists_refl w : persists w w.
Proof. by split. Qed.

Lemma persists_trans w1 w2 w3 : persists w1 w2 → persists w2 w3 → persists w1 w3.
Proof. intros [Hc1 Hb1] [Hc2 Hb2]. split; eauto. Qed.

Lemma same_registries_keeps w w' :
  same_registries w w' → deduplicated w →
  deduplicated w'
  ∧ ∀ reg ch fl a, carries w reg ch fl a → carries w' reg ch fl a.
Proof.
  intros (Hst & Hm & Hreg & Hn) (Hwf & Hkeys & Huniq).
  assert (Hback : ∀ reg ch fl a, carries w' reg ch fl a → carries w reg ch fl a).
  { intros reg ch fl a [k [Hk Ha]]. exists k. by rewrite <- Hreg, <- Hm. }
  split; [split_and!|].
  - intros reg k a Hk. rewrite Hreg in Hk. apply Hst. by apply (Hwf reg k).
  - intros reg k a Hk. rewrite Hreg in Hk. rewrite Hn. by apply (Hkeys reg k a).
  - intros reg ch fl a1 a2 H1%Hback H2%Hback. by apply (Huniq reg ch fl).
  - intros reg ch fl a [k [Hk Ha]]. exists k. by rewrite Hreg, Hm.
Qed.

Lemma notified_same reg key w : same_registries w (notified reg key w).
Proof. split_and!; [done|done|by intros []|done]. Qed.

(** The three ways a call of [_get_handle] ends. *)
Lemma get_handle_cases ch fl reg w :
  (∃ a h, finds w reg ch fl a ∧ handles w !! a = Some h
          ∧ _get_handle ch fl reg w
            = (notified reg (_Handle._canlib_handle h) w, Ok a))
  ∨ (scan (handles w) ch fl (map_to_list (registry_of reg w)) = None
     ∧ can_open ch fl (drv w) = true
     ∧ _get_handle ch fl reg w
       = (notified reg (next_handle (drv w)) (registered reg ch fl w),
          Ok (fresh (dom (handles w)))))
  ∨ (∃ w' e, _get_handle ch fl reg w = (w', Raise e)
             ∧ same_registries w w' ∧ buses w' = buses w).
Proof.
  destruct (scan (handles w) ch fl (map_to_list (registry_of reg w)))
    as [a|] eqn:Hscan.
  - left. destruct (finds_lookup w reg ch fl a Hscan) as (h & _ & Hh & _).
    exists a, h. split_and!; [done|done|by apply get_handle_found].
  - right. destruct (can_open ch fl (drv w)) eqn:Hopen.
    + left. split_and!; [done|done|by apply get_handle_new].
    + right.
      destruct (get_handle_refused ch fl reg w Hscan Hopen)
        as (w' & e & Hrun & Hh & Hb & Hr & Hw & Hn).
      exists w', e. split_and!; [done| |done].
      split_and!; [by rewrite Hh|by rewrite Hh|by intros []|done].
Qed.

Lemma registered_next_handle ch fl reg w :
  can_open ch fl (drv w) = true →
  next_handle (drv (notified reg (next_handle (drv w)) (registered reg ch fl w)))
  = next_handle (drv w) + 1.
Proof.
  unfold can_open. intros [_ Hst]%andb_true_iff.
  unfold notified, registered. simpl. rewrite set_registry_drv. simpl.
  unfold canOpenChannel. simpl. by rewrite Hst.
Qed.

(** Registering a new handle for a pair no registered object carries keeps
    the registries deduplicated and touches nothing that was registered. *)
Lemma registered_keeps ch fl reg w :
  deduplicated w →
  scan (handles w) ch fl (map_to_list (registry_of reg w)) = None →
  can_open ch fl (drv w) = true →
  deduplicated (notified reg (next_handle (drv w)) (registered reg ch fl w))
  ∧ persists w (notified reg (next_handle (drv w)) (registered reg ch fl w)).
Proof.
  intros Hd Hscan Hopen.
  pose proof Hd as (Hwf & Hkeys & Huniq).
  pose proof (get_handle_new ch fl reg w Hscan Hopen) as Hrun.
  pose proof (registered_next_handle ch fl reg w Hopen) as Hnext.
  set (w' := notified reg (next_handle (drv w)) (registered reg ch fl w)) in *.
  set (a0 := fresh (dom (handles w))) in *.
  set (k0 := next_handle (drv w)) in *.
  assert (Hhs : handles w' = <[a0 := new_handle ch fl k0]> (handles w))
    by (unfold w'; by rewrite notified_handles, registered_handles).
  assert (Hreg : registry_of reg w' = <[k0 := a0]> (registry_of reg w))
    by (unfold w'; by rewrite notified_registry, registered_registry).
  assert (Hother : ∀ reg', reg' ≠ reg → registry_of reg' w' = registry_of reg' w).
  { intros reg' Hne. unfold w'.
    by rewrite notified_registry, registered_other_registry. }
  assert (Hbuses : buses w' = buses w)
    by (unfold w', notified, registered; by destruct reg).
  assert (Hold : ∀ a, is_Some (handles w !! a) → a ≠ a0).
  { intros a [h Hh] ->. unfold a0 in Hh. by rewrite fresh_handle_unused in Hh. }
  assert (Hm : ∀ ch' fl' a, a ≠ a0 →
            is_match (handles w') ch' fl' a = is_match (handles w) ch' fl' a).
  { intros ch' fl' a Hne. unfold is_match. by rewrite Hhs, lookup_insert_ne. }
  assert (Hnew : ∀ ch' fl', is_match (handles w') ch' fl' a0 = true →
            ch' = ch ∧ fl' = fl).
  { intros ch' fl'. unfold is_match. rewrite Hhs, lookup_insert_eq. simpl. lia. }
  assert (Hkeep : ∀ reg' ch' fl' a,
            carries w reg' ch' fl' a → carries w' reg' ch' fl' a).
  { intros reg' ch' fl' a Hc. pose proof (carries_lookup _ _ _ _ _ Hc) as Ha.
    destruct Hc as [k [Hk Hc]]. exists k. split.
    - destruct (decide (reg' = reg)) as [->|Hne]; [|by rewrite Hother].
      rewrite Hreg, lookup_insert_ne; [done|].
      pose proof (Hkeys reg k a Hk). unfold k0. lia.
    - rewrite Hm; [done|by apply Hold]. }
  assert (Hsplit : ∀ reg' ch' fl' a, carries w' reg' ch' fl' a →
            carries w reg' ch' fl' a
            ∨ (a = a0 ∧ reg' = reg ∧ ch' = ch ∧ fl' = fl)).
  { intros reg' ch' fl' a [k [Hk Hc]].
    destruct (decide (a = a0)) as [->|Hne].
    - right. destruct (Hnew _ _ Hc) as [-> ->]. split_and!; try done.
      destruct (decide (reg' = reg)) as [|Hne]; [done|].
      rewrite Hother in Hk by done.
      by destruct (Hold a0 (Hwf reg' k a0 Hk)).
    - left. rewrite Hm in Hc by done. exists k. split; [|done].
      destruct (decide (reg' = reg)) as [->|Hne'];
        [|by rewrite Hother in Hk].
      rewrite Hreg in Hk.
      by apply lookup_insert_Some in Hk as [[_ ?]|[_ ?]]. }
  assert (Hfree : ∀ a, ¬ carries w reg ch fl a).
  { intros a [k [Hk Hc]].
    pose proof (scan_from_none_inv _ _ _ _ _ Hscan (k, a)) as Hno.
    simpl in Hno. rewrite Hno in Hc; [done|]. by apply elem_of_map_to_list. }
  split; [split_and!|split].
  - by destruct (get_handle_frame _ _ _ _ _ _ Hrun Hwf).
  - intros reg' k a Hk. rewrite Hnext.
    destruct (decide (reg' = reg)) as [->|Hne].
    + rewrite Hreg in Hk.
      apply lookup_insert_Some in Hk as [[<- _]|[_ Hk]]; [lia|].
      pose proof (Hkeys reg k a Hk). unfold k0. lia.
    + rewrite Hother in Hk by done.
      pose proof (Hkeys reg' k a Hk). unfold k0. lia.
  - intros reg' ch' fl' a1 a2 H1%Hsplit H2%Hsplit.
    destruct H1 as [H1|(-> & -> & -> & ->)], H2 as [H2|(-> & E2 & E3 & E4)].
    + by apply (Huniq reg' ch' fl').
    + subst. by destruct (Hfree a1).
    + by destruct (Hfree a2).
    + done.
  - exact Hkeep.
  - intros b B. by rewrite Hbuses.
Qed.

(** However a call of [_get_handle] ends, the registries stay
    deduplicated and what was registered stays registered. *)
Lemma get_handle_step ch fl reg w w' r :
  deduplicated w → _get_handle ch fl reg w = (w', r) →
  deduplicated w' ∧ persists w w'.
Proof.
  intros Hd Hrun.
  destruct (get_handle_cases ch fl reg w)
    as [(a & h & _ & _ & E)|[(Hscan & Hopen & E)|(v & e & E & Hsame & Hb)]];
    rewrite E in Hrun; injection Hrun as <- <-.
  - destruct (same_registries_keeps _ _
                (notified_same reg (_Handle._canlib_handle h) w) Hd).
    by split_and!.
  - by apply registered_keeps.
  - destruct (same_registries_keeps _ _ Hsame Hd).
    split; [done|]. split; [done|]. intros b B. by rewrite Hb.
Qed.

Lemma get_handle_carries ch fl reg w w' a :
  _get_handle ch fl reg w = (w', Ok a) → carries w' reg ch fl a.
Proof. intros H. by eapply finds_carries, get_handle_finds. Qed.

Lemma same_registries_trans w1 w2 w3 :
  same_registries w1 w2 → same_registries w2 w3 → same_registries w1 w3.
Proof.
  intros (Hs1 & Hm1 & Hr1 & Hn1) (Hs2 & Hm2 & Hr2 & Hn2). split_and!.
  - intros a Ha. by apply Hs2, Hs1.
  - intros ch fl a. by rewrite Hm2, Hm1.
  - intros reg. by rewrite Hr2, Hr1.
  - by rewrite Hn2, Hn1.
Qed.

(** The end of [Bus.__init__] adds the bus and a listener, and leaves the
    registries alone. *)
Lemma bus_tail_step rh wh p driver_mode name w hr hw :
  handles w !! rh = Some hr →
  handles w !! wh = Some hw →
  ∃ w' B,
    bus_tail rh wh p driver_mode name w = (w', Ok (fresh (dom (buses w))))
    ∧ same_registries w w'
    ∧ buses w' = <[fresh (dom (buses w)) := B]> (buses w)
    ∧ Bus._read_handle B = rh
    ∧ Bus._write_handle B = wh.
Proof.
  intros Hhr Hhw.
  destruct (bus_tail_run rh wh p driver_mode name w hr hw Hhr Hhw)
    as (d & B & Hrun & HBr & HBw & Hn).
  eexists _, B. split; [exact Hrun|]. split; [|done]. split_and!; [| | |done].
  - intros a Ha. simpl. destruct (decide (a = rh)) as [->|Hne].
    + rewrite lookup_insert_eq. by eexists.
    + by rewrite lookup_insert_ne.
  - intros ch fl a. unfold is_match. simpl.
    destruct (decide (a = rh)) as [->|Hne].
    + by rewrite lookup_insert_eq, Hhr.
    + by rewrite lookup_insert_ne.
  - by intros [].
Qed.

Lemma fresh_bus_unused (w : world) : buses w !! fresh (dom (buses w)) = None.
Proof. apply not_elem_of_dom, is_fresh. Qed.

(** However the construction of a bus ends, the registries stay
    deduplicated and what was registered stays registered; a bus that was
    constructed is new, and its handles are the registered ones of its
    channel and flags. *)
Lemma bus_init_step ch fl p driver_mode name w w' r :
  deduplicated w → Bus__init__ ch fl p driver_mode name w = (w', r) →
  deduplicated w' ∧ persists w w'
  ∧ ∀ b, r = Ok b →
      ∃ B, buses w !! b = None ∧ buses w' !! b = Some B
           ∧ carries w' READ ch fl (Bus._read_handle B)
           ∧ carries w' WRITE ch fl (Bus._write_handle B).
Proof.
  intros Hd. rewrite bus_init_unfold. unfold bindS at 1.
  destruct (_get_handle ch fl READ w) as [wa [rh|e]] eqn:Hread.
  2: { intros [= <- <-].
       destruct (get_handle_step _ _ _ _ _ _ Hd Hread). by split_and!. }
  destruct (get_handle_step _ _ _ _ _ _ Hd Hread) as [Hda Hpa].
  unfold bindS at 1.
  destruct (_get_handle ch fl WRITE wa) as [wb [wh|e]] eqn:Hwrite.
  2: { intros [= <- <-].
       destruct (get_handle_step _ _ _ _ _ _ Hda Hwrite) as [Hdb Hpb].
       split_and!; [done|by eapply persists_trans|done]. }
  destruct (get_handle_step _ _ _ _ _ _ Hda Hwrite) as [Hdb Hpb].
  pose proof (get_handle_carries _ _ _ _ _ _ Hread) as Hcr.
  pose proof (get_handle_carries _ _ _ _ _ _ Hwrite) as Hcw.
  apply (proj1 Hpb) in Hcr.
  destruct (carries_lookup _ _ _ _ _ Hcr) as [hr Hhr].
  destruct (carries_lookup _ _ _ _ _ Hcw) as [hw Hhw].
  destruct (bus_tail_step rh wh p driver_mode name wb hr hw Hhr Hhw)
    as (w1 & B & Hrun & Hsame & Hb & HBr & HBw).
  rewrite Hrun. intros [= <- <-].
  destruct (same_registries_keeps _ _ Hsame Hdb) as [Hd1 Hk1].
  assert (Hp1 : persists wb w1).
  { split; [done|]. intros b' B' Hb'. rewrite Hb, lookup_insert_ne; [done|].
    intros <-. by rewrite fresh_bus_unused in Hb'. }
  assert (Hp : persists w wb) by (by eapply persists_trans).
  split_and!; [done|by eapply persists_trans|].
  intros b [= <-]. exists B. split_and!.
  - destruct (buses w !! fresh (dom (buses wb))) as [B'|] eqn:HB'; [|done].
    apply (proj2 Hp) in HB'. by rewrite fresh_bus_unused in HB'.
  - by rewrite Hb, lookup_insert_eq.
  - rewrite HBr. by apply Hk1.
  - rewrite HBw. by apply Hk1.
Qed.

Lemma initial_deduplicated d : deduplicated (initial d).
Proof.
  split_and!; [apply wf_initial|by intros [] k a; simpl; rewrite lookup_empty|].
  intros reg ch fl a1 a2 [k [Hk _]]. by destruct reg; simpl in Hk.
Qed.

Lemma evolves_keeps w w' :
  deduplicated w → evolves w w' → deduplicated w' ∧ persists w w'.
Proof.
  intros Hd.
  induction 1 as [|w1 w2 ch fl reg r _ [IHd IHp] Hrun
                  |w1 w2 ch fl p m n r _ [IHd IHp] Hrun].
  - split; [done|apply persists_refl].
  - destruct (get_handle_step _ _ _ _ _ _ IHd Hrun).
    split; [done|by eapply persists_trans].
  - destruct (bus_init_step _ _ _ _ _ _ _ _ IHd Hrun) as (? & ? & _).
    split; [done|by eapply persists_trans].
Qed.

Lemma evolves_from_import d w : evolves (initial d) w → deduplicated w.
Proof. intros H. by destruct (evolves_keeps _ _ (initial_deduplicated d) H). Qed.

(** Where both registries hold a handle for the pair, the construction of
    a bus takes these two and opens nothing. *)
Lemma bus_init_reuses ch fl p driver_mode name w rh wh :
  deduplicated w → carries w READ ch fl rh → carries w WRITE ch fl wh →
  ∃ w' B,
    Bus__init__ ch fl p driver_mode name w = (w', Ok (fresh (dom (buses w))))
    ∧ same_registries w w'
    ∧ buses w' = <[fresh (dom (buses w)) := B]> (buses w)
    ∧ Bus._read_handle B = rh
    ∧ Bus._write_handle B = wh.
Proof.
  intros Hd Hcr Hcw.
  destruct (carries_lookup _ _ _ _ _ Hcr) as [hr Hhr].
  destruct (carries_lookup _ _ _ _ _ Hcw) as [hw Hhw].
  pose proof (get_handle_found ch fl READ w rh hr
                (carries_finds _ _ _ _ _ Hd Hcr) Hhr) as Hread.
  set (v1 := notified READ (_Handle._canlib_handle hr) w) in Hread.
  pose proof (notified_same READ (_Handle._canlib_handle hr) w) as Hs1.
  fold v1 in Hs1.
  destruct (same_registries_keeps _ _ Hs1 Hd) as [Hd1 Hk1].
  pose proof (get_handle_found ch fl WRITE v1 wh hw
                (carries_finds _ _ _ _ _ Hd1 (Hk1 _ _ _ _ Hcw)) Hhw) as Hwrite.
  set (v2 := notified WRITE (_Handle._canlib_handle hw) v1) in Hwrite.
  pose proof (notified_same WRITE (_Handle._canlib_handle hw) v1) as Hs2.
  fold v2 in Hs2.
  destruct (bus_tail_step rh wh p driver_mode name v2 hr hw Hhr Hhw)
    as (w' & B & Hrun & Hs3 & Hb & HBr & HBw).
  exists w', B. split_and!; [|
    by eapply same_registries_trans; [eapply same_registries_trans|]
    |done|done|done].
  rewrite bus_init_unfold.
  by rewrite (bindS_run _ _ _ _ _ Hread), (bindS_run _ _ _ _ _ Hwrite).
Qed.

(** A later call with the same pair on the same registry returns the same
    object and opens nothing, whatever was acquired and constructed in
    between. *)
Lemma get_handle_later ch fl reg w w1 w1' a :
  deduplicated w →
  _get_handle ch fl reg w = (w1, Ok a) →
  evolves w1 w1' →
  ∃ w2,
    _get_handle ch fl reg w1' = (w2, Ok a)
    ∧ handles w2 = handles w1'
    ∧ buses w2 = buses w1'
    ∧ READ_HANDLE_REGISTRY w2 = READ_HANDLE_REGISTRY w1'
    ∧ WRITE_HANDLE_REGISTRY w2 = WRITE_HANDLE_REGISTRY w1'
    ∧ next_handle (drv w2) = next_handle (drv w1').
Proof.
  intros Hd Hrun Hev.
  destruct (get_handle_step _ _ _ _ _ _ Hd Hrun) as [Hd1 _].
  destruct (evolves_keeps _ _ Hd1 Hev) as [Hd1' [Hkeep _]].
  pose proof (Hkeep _ _ _ _ (get_handle_carries _ _ _ _ _ _ Hrun)) as Hc.
  destruct (carries_lookup _ _ _ _ _ Hc) as [h Hh].
  pose proof (get_handle_found ch fl reg w1' a h
                (carries_finds _ _ _ _ _ Hd1' Hc) Hh) as Hagain.
  eexists. split; [exact Hagain|done].
Qed.

(** Two buses constructed for the same channel and flags hold the same
    read handle and the same write handle, whatever was acquired and
    constructed in between; the second construction opens nothing. *)
Lemma bus_init_later ch fl p1 m1 n1 p2 m2 n2 w w1 w1' b1 :
  deduplicated w →
  Bus__init__ ch fl p1 m1 n1 w = (w1, Ok b1) →
  evolves w1 w1' →
  ∃ w2 b2 B1 B2,
    Bus__init__ ch fl p2 m2 n2 w1' = (w2, Ok b2)
    ∧ b1 ≠ b2
    ∧ buses w2 !! b1 = Some B1
    ∧ buses w2 !! b2 = Some B2
    ∧ Bus._read_handle B1 = Bus._read_handle B2
    ∧ Bus._write_handle B1 = Bus._write_handle B2
    ∧ READ_HANDLE_REGISTRY w2 = READ_HANDLE_REGISTRY w1'
    ∧ WRITE_HANDLE_REGISTRY w2 = WRITE_HANDLE_REGISTRY w1'
    ∧ next_handle (drv w2) = next_handle (drv w1').
Proof.
  intros Hd Hrun Hev.
  destruct (bus_init_step _ _ _ _ _ _ _ _ Hd Hrun) as (Hd1 & _ & Hbus).
  destruct (Hbus b1 eq_refl) as (B1 & _ & HB1 & Hcr & Hcw).
  destruct (evolves_keeps _ _ Hd1 Hev) as [Hd1' [Hkeep Hkeepb]].
  apply Hkeep in Hcr, Hcw. apply Hkeepb in HB1.
  destruct (bus_init_reuses ch fl p2 m2 n2 w1' _ _ Hd1' Hcr Hcw)
    as (w2 & B2 & Hrun2 & (_ & _ & Hreg & Hn) & Hb & HBr & HBw).
  exists w2, (fresh (dom (buses w1'))), B1, B2.
  assert (Hne : b1 ≠ fresh (dom (buses w1'))).
  { intros ->. by rewrite fresh_bus_unused in HB1. }
  split_and!; [done|done| | |done|done|apply (Hreg READ)|apply (Hreg WRITE)|done].
  - by rewrite Hb, lookup_insert_ne.
  - by rewrite Hb, lookup_insert_eq.
Qed.

(** Two buses constructed one after the other for the same channel and
    flags hold the same read handle and the same write handle. *)
Lemma bus_init_shares ch fl p1 m1 n1 p2 m2 n2 w w1 b1 :
  wf w →
  Bus__init__ ch fl p1 m1 n1 w = (w1, Ok b1) →
  ∃ w2 b2 B1 B2,
    Bus__init__ ch fl p2 m2 n2 w1 = (w2, Ok b2)
    ∧ b1 ≠ b2
    ∧ buses w2 !! b1 = Some B1
    ∧ buses w2 !! b2 = Some B2
    ∧ Bus._read_handle B1 = Bus._read_handle B2
    ∧ Bus._write_handle B1 = Bus._write_handle B2.
Proof.
  intros Hwf. rewrite !bus_init_unfold.
  intros (wa & rh & Hread & (wb & wh & Hwrite & Htail)%bindS_ok)%bindS_ok.
  (* the first construction *)
  destruct (get_handle_frame _ _ _ _ _ _ Hread Hwf)
    as (Hwfa & Hexta & Hrega & _).
  pose proof (get_handle_finds _ _ _ _ _ _ Hread) as Hfr.
  destruct (get_handle_frame _ _ _ _ _ _ Hwrite Hwfa)
    as (Hwfb & Hextb & Hregb & _).
  pose proof (get_handle_finds _ _ _ _ _ _ Hwrite) as Hfw.
  assert (Hfr' : finds wb READ ch fl rh)
    by (apply (finds_stable wa wb READ ch fl rh Hwfa Hextb);
        [by apply Hregb|done]).
  destruct (finds_lookup _ _ _ _ _ Hfr') as (hr & _ & Hhr & _).
  destruct (finds_lookup _ _ _ _ _ Hfw) as (hw & _ & Hhw & _).
  destruct (bus_tail_run rh wh p1 m1 n1 wb hr hw Hhr Hhw)
    as (d1 & B1 & Hrun1 & HB1r & HB1w & _).
  rewrite Hrun1 in Htail. injection Htail as <- <-.
  set (b1 := fresh (dom (buses wb))).
  set (w1 := set_handles _ _).
  assert (Hext1 : extends wb w1).
  { intros x hx Hx. unfold w1. simpl.
    destruct (decide (x = rh)) as [->|Hne].
    - rewrite lookup_insert_eq. eexists. split; [done|].
      rewrite Hhr in Hx. by simplify_eq.
    - rewrite lookup_insert_ne by done. by exists hx. }
  assert (Hreg1 : ∀ reg, registry_of reg w1 = registry_of reg wb)
    by (by intros []).
  assert (Hfr1 : finds w1 READ ch fl rh)
    by (by apply (finds_stable wb w1 READ ch fl rh Hwfb Hext1)).
  assert (Hfw1 : finds w1 WRITE ch fl wh)
    by (by apply (finds_stable wb w1 WRITE ch fl wh Hwfb Hext1)).
  (* the second construction *)
  destruct (finds_lookup _ _ _ _ _ Hfr1) as (hr1 & _ & Hhr1 & _).
  destruct (finds_lookup _ _ _ _ _ Hfw1) as (hw1 & _ & Hhw1 & _).
  pose proof (get_handle_found ch fl READ w1 rh hr1 Hfr1 Hhr1) as Hread2.
  set (v1 := notified READ _ w1) in Hread2.
  assert (Hfw2 : finds v1 WRITE ch fl wh) by done.
  pose proof (get_handle_found ch fl WRITE v1 wh hw1 Hfw2 Hhw1) as Hwrite2.
  set (v2 := notified WRITE _ v1) in Hwrite2.
  destruct (bus_tail_run rh wh p2 m2 n2 v2 hr1 hw1 Hhr1 Hhw1)
    as (d2 & B2 & Hrun2 & HB2r & HB2w & _).
  eexists _, _, B1, B2. split.
  { rewrite (bindS_run _ _ _ _ _ Hread2), (bindS_run _ _ _ _ _ Hwrite2).
    exact Hrun2. }
  assert (Hb1 : buses w1 !! b1 = Some B1)
    by (unfold w1; simpl; apply lookup_insert_eq).
  assert (Hne : b1 ≠ fresh (dom (buses v2))).
  { intros Heq.
    assert (Hnone : buses w1 !! fresh (dom (buses w1)) = None)
      by apply not_elem_of_dom, is_fresh.
    change (buses v2) with (buses w1) in Heq. rewrite <- Heq in Hnone.
    congruence. }
  split_and!; [done| | |congruence|congruence].
  - simpl. by rewrite lookup_insert_ne.
  - simpl. apply lookup_insert_eq.
Qed.

Lemma carries_registered_for w reg ch fl a :
  carries w reg ch fl a → registered_for w reg ch fl a.
Proof.
  intros (k & Hk & (h & Hh & Hch & Hfl)%is_match_lookup). by exists h, k.
Qed.

Lemma finds_registered_for w reg ch fl a :
  finds w reg ch fl a → registered_for w reg ch fl a.
Proof. intros H. by apply carries_registered_for, finds_carries. Qed.

Lemma no_handle_unregistered w reg ch fl :
  no_handle_for w reg ch fl → unregistered w reg ch fl.
Proof.
  intros Hno k a Hk. destruct (is_match (handles w) ch fl a) eqn:Hm; [|done].
  apply is_match_lookup in Hm as (h & Hh & Hch & Hfl).
  by destruct (Hno k a h Hk Hh).
Qed.

(** A bus that has been constructed holds a read handle and a write handle
    that the scans of the two registries for its channel and flags end
    on. *)
Lemma bus_init_registers ch fl p driver_mode name w w' b :
  wf w →
  Bus__init__ ch fl p driver_mode name w = (w', Ok b) →
  ∃ B, buses w' !! b = Some B
       ∧ finds w' READ ch fl (Bus._read_handle B)
       ∧ finds w' WRITE ch fl (Bus._write_handle B)
       ∧ wf w'.
Proof.
  intros Hwf. rewrite bus_init_unfold.
  intros (wa & rh & Hread & (wb & wh & Hwrite & Htail)%bindS_ok)%bindS_ok.
  destruct (get_handle_frame _ _ _ _ _ _ Hread Hwf)
    as (Hwfa & Hexta & Hrega & _).
  pose proof (get_handle_finds _ _ _ _ _ _ Hread) as Hfr.
  destruct (get_handle_frame _ _ _ _ _ _ Hwrite Hwfa)
    as (Hwfb & Hextb & Hregb & _).
  pose proof (get_handle_finds _ _ _ _ _ _ Hwrite) as Hfw.
  assert (Hfr' : finds wb READ ch fl rh)
    by (apply (finds_stable wa wb READ ch fl rh Hwfa Hextb);
        [by apply Hregb|done]).
  destruct (finds_lookup _ _ _ _ _ Hfr') as (hr & _ & Hhr & _).
  destruct (finds_lookup _ _ _ _ _ Hfw) as (hw & _ & Hhw & _).
  destruct (bus_tail_run rh wh p driver_mode name wb hr hw Hhr Hhw)
    as (d1 & B1 & Hrun1 & HB1r & HB1w & _).
  rewrite Hrun1 in Htail. injection Htail as <- <-.
  set (w1 := set_handles _ _).
  assert (Hext1 : extends wb w1).
  { intros x hx Hx. unfold w1. simpl.
    destruct (decide (x = rh)) as [->|Hne].
    - rewrite lookup_insert_eq. eexists. split; [done|].
      rewrite Hhr in Hx. by simplify_eq.
    - rewrite lookup_insert_ne by done. by exists hx. }
  assert (Hreg1 : ∀ reg, registry_of reg w1 = registry_of reg wb)
    by (by intros []).
  exists B1. split_and!.
  - unfold w1. simpl. apply lookup_insert_eq.
  - rewrite HB1r. by apply (finds_stable wb w1 READ ch fl rh Hwfb Hext1).
  - rewrite HB1w. by apply (finds_stable wb w1 WRITE ch fl wh Hwfb Hext1).
  - intros reg k x. rewrite Hreg1. intros Hk.
    destruct (Hwfb reg k x Hk) as [hx Hx].
    destruct (Hext1 x hx Hx) as (hx' & Hx' & _). by exists hx'.
Qed.

(** C6. Handle acquisition is idempotent per registry. The object a call
    of [_get_handle] returns is a handle of the store made for the channel
    and flags asked for, and the registry refers to it. A second call with
    the same channel and flags on the same registry returns that object
    and opens nothing, leaving store and registries as they were: so for a
    call right after the first in any module state, and so, in a program
    that starts from the import of the module, for a call that comes after
    any other acquisitions and bus constructions, through which the object
    stays registered. Two buses constructed for the same channel and flags
    share their read handle and their write handle, which are handles of
    the store made for that channel and those flags that the read registry
    and the write registry refer to: so for two constructions in a row,
    and so with other acquisitions and constructions in between, where the
    second construction leaves the registries and the driver's handle
    counter as they were. A call for a pair no registered handle was made
    for opens a new handle with the driver and registers it under the
    driver's handle. *)
Theorem C6_handle_acquisition_idempotent :
  (∀ ch fl reg w w1 a,
     _get_handle ch fl reg w = (w1, Ok a) →
     registered_for w1 reg ch fl a
     ∧ ∃ w2,
         _get_handle ch fl reg w1 = (w2, Ok a)
         ∧ handles w2 = handles w1
         ∧ buses w2 = buses w1
         ∧ READ_HANDLE_REGISTRY w2 = READ_HANDLE_REGISTRY w1
         ∧ WRITE_HANDLE_REGISTRY w2 = WRITE_HANDLE_REGISTRY w1
         ∧ next_handle (drv w2) = next_handle (drv w1))
  ∧ (∀ d ch fl reg w w1 w1' a,
       evolves (initial d) w →
       _get_handle ch fl reg w = (w1, Ok a) →
       evolves w1 w1' →
       registered_for w1 reg ch fl a
       ∧ registered_for w1' reg ch fl a
       ∧ ∃ w2,
           _get_handle ch fl reg w1' = (w2, Ok a)
           ∧ handles w2 = handles w1'
           ∧ buses w2 = buses w1'
           ∧ READ_HANDLE_REGISTRY w2 = READ_HANDLE_REGISTRY w1'
           ∧ WRITE_HANDLE_REGISTRY w2 = WRITE_HANDLE_REGISTRY w1'
           ∧ next_handle (drv w2) = next_handle (drv w1'))
  ∧ (∀ ch fl p1 m1 n1 p2 m2 n2 w w1 b1,
       wf w →
       Bus__init__ ch fl p1 m1 n1 w = (w1, Ok b1) →
       ∃ w2 b2 B1 B2,
         Bus__init__ ch fl p2 m2 n2 w1 = (w2, Ok b2)
         ∧ b1 ≠ b2
         ∧ buses w2 !! b1 = Some B1
         ∧ buses w2 !! b2 = Some B2
         ∧ Bus._read_handle B1 = Bus._read_handle B2
         ∧ Bus._write_handle B1 = Bus._write_handle B2
         ∧ registered_for w2 READ ch fl (Bus._read_handle B1)
         ∧ registered_for w2 WRITE ch fl (Bus._write_handle B1))
  ∧ (∀ d ch fl p1 m1 n1 p2 m2 n2 w w1 w1' b1,
       evolves (initial d) w →
       Bus__init__ ch fl p1 m1 n1 w = (w1, Ok b1) →
       evolves w1 w1' →
       ∃ w2 b2 B1 B2,
         Bus__init__ ch fl p2 m2 n2 w1' = (w2, Ok b2)
         ∧ b1 ≠ b2
         ∧ buses w2 !! b1 = Some B1
         ∧ buses w2 !! b2 = Some B2
         ∧ Bus._read_handle B1 = Bus._read_handle B2
         ∧ Bus._write_handle B1 = Bus._write_handle B2
         ∧ registered_for w2 READ ch fl (Bus._read_handle B1)
         ∧ registered_for w2 WRITE ch fl (Bus._write_handle B1)
         ∧ READ_HANDLE_REGISTRY w2 = READ_HANDLE_REGISTRY w1'
         ∧ WRITE_HANDLE_REGISTRY w2 = WRITE_HANDLE_REGISTRY w1'
         ∧ next_handle (drv w2) = next_handle (drv w1'))
  ∧ (∀ ch fl reg w,
       no_handle_for w reg ch fl →
       can_open ch fl (drv w) = true →
       ∃ w1 a,
         _get_handle ch fl reg w = (w1, Ok a)
         ∧ handles w !! a = None
         ∧ handles w1 !! a = Some (new_handle ch fl (next_handle (drv w)))
         ∧ registry_of reg w1 = <[next_handle (drv w) := a]> (registry_of reg w)
         ∧ next_handle (drv w1) = next_handle (drv w) + 1
         ∧ canOpenChannel_call ch fl ∈ calls (drv w1)
         ∧ registered_for w1 reg ch fl a).
Proof.
  split_and!.
  - intros ch fl reg w w1 a Hrun. split.
    + by eapply finds_registered_for, get_handle_finds.
    + by eapply get_handle_again.
  - intros d ch fl reg w w1 w1' a Hw%evolves_from_import Hrun Hev.
    split_and!.
    + by eapply finds_registered_for, get_handle_finds.
    + destruct (get_handle_step _ _ _ _ _ _ Hw Hrun) as [Hd1 _].
      destruct (evolves_keeps _ _ Hd1 Hev) as [_ [Hkeep _]].
      by eapply carries_registered_for, Hkeep, get_handle_carries.
    + by eapply get_handle_later.
  - intros ch fl p1 m1 n1 p2 m2 n2 w w1 b1 Hwf Hrun.
    destruct (bus_init_shares ch fl p1 m1 n1 p2 m2 n2 w w1 b1 Hwf Hrun)
      as (w2 & b2 & B1 & B2 & Hrun2 & Hne & HB1 & HB2 & Hr & Hw).
    destruct (bus_init_registers _ _ _ _ _ _ _ _ Hwf Hrun)
      as (_ & _ & _ & _ & Hwf1).
    destruct (bus_init_registers _ _ _ _ _ _ _ _ Hwf1 Hrun2)
      as (B & HB & Hfr & Hfw & _).
    rewrite HB2 in HB. injection HB as <-.
    exists w2, b2, B1, B2. rewrite Hr, Hw.
    split_and!; try done; by apply finds_registered_for.
  - intros d ch fl p1 m1 n1 p2 m2 n2 w w1 w1' b1 Hw%evolves_from_import
      Hrun Hev.
    destruct (bus_init_later ch fl p1 m1 n1 p2 m2 n2 w w1 w1' b1 Hw Hrun Hev)
      as (w2 & b2 & B1 & B2 & Hrun2 & Hne & HB1 & HB2 & Hr & Hwr & Hrest).
    destruct (bus_init_step _ _ _ _ _ _ _ _ Hw Hrun) as (Hd1 & _ & _).
    destruct (evolves_keeps _ _ Hd1 Hev) as [Hd1' _].
    destruct (bus_init_step _ _ _ _ _ _ _ _ Hd1' Hrun2) as (_ & _ & Hbus).
    destruct (Hbus b2 eq_refl) as (B & _ & HB & Hcr & Hcw).
    rewrite HB2 in HB. injection HB as <-.
    exists w2, b2, B1, B2. rewrite Hr, Hwr.
    split_and!; try done; try (by apply carries_registered_for);
      apply Hrest.
  - intros ch fl reg w Hno Hopen.
    destruct (get_handle_unregistered ch fl reg w
                (no_handle_unregistered _ _ _ _ Hno) Hopen)
      as (w1 & a & Hrun & Hnew & Hh & Hreg & Hrest).
    exists w1, a. split_and!; try done; try apply Hrest.
    exists (new_handle ch fl (next_handle (drv w))), (next_handle (drv w)).
    split_and!; [done|done|done|]. rewrite Hreg. apply lookup_insert_eq.
Qed.

End RegistryFacts.

Lemma C6_handle_acquisition_witness :
  ∃ w1 w1' w2 b2 B1 B2,
    pycanlib.Bus__init__ 0 0 sample_params 4 "first"
      (pycanlib.initial sample_driver) = (w1, Ok 0%nat)
    ∧ pycanlib.Bus__init__ 1 0 sample_params 4 "other" w1 = (w1', Ok 1%nat)
    ∧ pycanlib.Bus__init__ 0 0 sample_params 4 "second" w1' = (w2, Ok b2)
    ∧ 0%nat ≠ b2
    ∧ pycanlib.buses w2 !! 0%nat = Some B1
    ∧ pycanlib.buses w2 !! b2 = Some B2
    ∧ pycanlib.Bus._read_handle B1 = pycanlib.Bus._read_handle B2
    ∧ pycanlib.Bus._write_handle B1 = pycanlib.Bus._write_handle B2
    ∧ registered_for w2 pycanlib.READ 0 0 (pycanlib.Bus._read_handle B1)
    ∧ registered_for w2 pycanlib.WRITE 0 0 (pycanlib.Bus._write_handle B1)
    ∧ pycanlib.READ_HANDLE_REGISTRY w2 = pycanlib.READ_HANDLE_REGISTRY w1'
    ∧ pycanlib.WRITE_HANDLE_REGISTRY w2 = pycanlib.WRITE_HANDLE_REGISTRY w1'
    ∧ pycanlib.next_handle (pycanlib.drv w2)
      = pycanlib.next_handle (pycanlib.drv w1').
Proof.
  destruct C6_handle_acquisition_idempotent as (_ & _ & _ & Hshare & _).
  set (w0 := pycanlib.initial sample_driver).
  set (w1 := fst (pycanlib.Bus__init__ 0 0 sample_params 4 "first" w0)).
  set (w1' := fst (pycanlib.Bus__init__ 1 0 sample_params 4 "other" w1)).
  assert (Hfirst :
    pycanlib.Bus__init__ 0 0 sample_params 4 "first" w0 = (w1, Ok 0%nat))
    by (vm_compute; reflexivity).
  assert (Hother :
    pycanlib.Bus__init__ 1 0 sample_params 4 "other" w1 = (w1', Ok 1%nat))
    by (vm_compute; reflexivity).
  destruct (Hshare sample_driver 0 0 sample_params 4 "first"
              sample_params 4 "second" w0 w1 w1' 0%nat
              (evolves_here w0) Hfirst
              (evolves_bus w1 w1 w1' 1 0 sample_params 4 "other" (Ok 1%nat)
                 (evolves_here w1) Hother))
    as (w2 & b2 & B1 & B2 & H).
  exists w1, w1', w2, b2, B1, B2.
  split; [exact Hfirst|]. split; [exact Hother|exact H].
Defined.

(** ** Part IV: further properties of the code *)

(** *** The decoder and the encoder of the daemon backend, together *)
Section CodecMore.
Import socketcand_bus.

Lemma split_whole sep (s : string) : split sep 0 s = [s].
Proof.
  induction s as [|c s IH]; [done|]. simpl.
  destruct (Ascii.eqb c sep); [done|]. by rewrite IH.
Qed.

(** A line with the envelope and three fields without a space, whatever
    follows the third field. *)
Lemma decode_fields (id_field ts_field payload_field : string)
    (tail : option string) :
  lacks " " id_field = true →
  lacks " " ts_field = true →
  lacks " " payload_field = true →
  convert_ascii_message_to_can_message
    ("< frame " +:+ id_field +:+ " " +:+ ts_field +:+ " " +:+ payload_field
       +:+ match tail with Some t => " " +:+ t | None => "" end +:+ " >")
  = ([], decoded id_field ts_field payload_field).
Proof.
  intros Hid Hts Hp.
  set (T := match tail with Some t => " " +:+ t | None => "" end).
  set (I := id_field +:+ " " +:+ ts_field +:+ " " +:+ payload_field +:+ T).
  assert (Hline :
    "< frame " +:+ id_field +:+ " " +:+ ts_field +:+ " " +:+ payload_field
      +:+ T +:+ " >" = "< frame " +:+ I +:+ " >").
  { unfold I. by rewrite !str_app_assoc. }
  unfold convert_ascii_message_to_can_message. rewrite Hline.
  rewrite startswith_app.
  rewrite <- (str_app_assoc "< frame " I " >"), endswith_app.
  rewrite (str_app_assoc "< frame " I " >"), removeprefix_app.
  rewrite removesuffix_app by done.
  cbn [negb orb].
  assert (Hparts : ∃ rest,
    split " " 3 I = id_field :: ts_field :: payload_field :: rest).
  { unfold I.
    change (" " +:+ ts_field +:+ " " +:+ payload_field +:+ T)
      with (String " " (ts_field +:+ String " " (payload_field +:+ T))).
    rewrite split_app by done. rewrite split_app by done.
    unfold T. destruct tail as [t|].
    - change (" " +:+ t) with (String " " t).
      rewrite split_app by done. rewrite split_whole. by eexists.
    - rewrite str_app_empty_r, split_lacks by done. by eexists. }
  destruct Hparts as [rest ->]. cbn [index bind lookup list_lookup].
  unfold decoded.
  destruct (int16 id_field); cbn [bind]; [|done].
  destruct (float ts_field); cbn [bind]; [|done].
  by destruct (fromhex payload_field).
Qed.

(** X1. The decoder reads three fields and no more: what follows a space
    after the payload field, up to the closing bracket, is dropped without
    a warning. A payload written byte by byte with spaces loses all bytes
    but the first, and of two frames that arrive as one text the second is
    lost. *)
Theorem decoder_reads_three_fields
    (id_field ts_field payload_field tail : string) :
  lacks " " id_field = true →
  lacks " " ts_field = true →
  lacks " " payload_field = true →
  convert_ascii_message_to_can_message
    ("< frame " +:+ id_field +:+ " " +:+ ts_field +:+ " " +:+ payload_field
       +:+ " " +:+ tail +:+ " >")
  = convert_ascii_message_to_can_message
      ("< frame " +:+ id_field +:+ " " +:+ ts_field +:+ " " +:+ payload_field
         +:+ " >").
Proof.
  intros Hid Hts Hp.
  pose proof (decode_fields id_field ts_field payload_field (Some tail)
                Hid Hts Hp) as H1.
  pose proof (decode_fields id_field ts_field payload_field None
                Hid Hts Hp) as H2.
  cbn beta iota in H1, H2. rewrite str_app_empty_l in H2.
  rewrite str_app_assoc in H1. by rewrite H1, H2.
Qed.



(** X3. The two converters are no inverses of each other on the wire: the
    decoder takes no line the encoder returns. Every outbound line fails
    the envelope test, so the decoder logs its warning and returns
    [None]. *)
Theorem encoded_line_is_no_inbound_frame (m : Message) :
  convert_ascii_message_to_can_message (convert_can_message_to_ascii_message m)
  = ([warning ("Could not parse ascii message: "
                 +:+ convert_can_message_to_ascii_message m)], Ok None).
Proof.
  unfold convert_ascii_message_to_can_message at 1.
  assert (H : startswith (convert_can_message_to_ascii_message m) "< frame "
              = false) by reflexivity.
  by rewrite H.
Qed.

End CodecMore.

Lemma decoder_reads_three_fields_witness :
  socketcand_bus.convert_ascii_message_to_can_message
    "< frame 1A 12.3 0a >< frame 1B 12.4 ff >"
  = socketcand_bus.convert_ascii_message_to_can_message "< frame 1A 12.3 0a >".
Proof.
  exact (decoder_reads_three_fields "1A" "12.3" "0a" ">< frame 1B 12.4 ff"
           eq_refl eq_refl eq_refl).
Defined.


(** *** The socket of the daemon backend *)
Section SocketFacts.
Import Builtins socketcand_bus SocketCanDaemonBus.

Lemma byte_of_ascii_code c : Byte.to_N (byte_of_ascii c) = code c.
Proof. apply Byte.to_of_N. symmetry. apply byte_of_ascii_via_N. Qed.

Lemma encode_ascii_bytes (s : string) pos :
  is_ascii s = true → encode_ascii_from pos s = Done (ascii_bytes s).
Proof.
  revert pos. induction s as [|c s IH]; intros pos; [done|]. simpl.
  intros [Hc Hs]%andb_true_iff. by rewrite Hc, (IH _ Hs).
Qed.

Lemma decode_ascii_bytes (s : string) pos :
  is_ascii s = true → decode_ascii_from pos (ascii_bytes s) = Done s.
Proof.
  revert pos. induction s as [|c s IH]; intros pos; [done|]. simpl.
  intros [Hc Hs]%andb_true_iff.
  by rewrite byte_of_ascii_code, Hc, (IH _ Hs), ascii_of_byte_of_ascii.
Qed.

Lemma ascii_bytes_length (s : string) :
  length (ascii_bytes s) = String.length s.
Proof. induction s as [|c s IH]; [done|]. simpl. by rewrite IH. Qed.

Lemma is_ascii_app (s t : string) :
  is_ascii (s +:+ t) = is_ascii s && is_ascii t.
Proof.
  induction s as [|c s IH]; [done|].
  rewrite str_app_cons. simpl. by rewrite IH, andb_assoc.
Qed.

Lemma digit_char_ascii upper c :
  is_digit_char upper c = true → (code c <? 128)%N = true.
Proof.
  unfold is_digit_char. intros H.
  destruct upper; cbn [lacks digit_chars] in H;
    repeat match type of H with
      | context [Ascii.eqb ?d c] =>
          destruct (Ascii.eqb_spec d c) as [Heq|_]; [by subst c|]
      end; done.
Qed.

Lemma only_digits_ascii upper s : only_digits upper s = true → is_ascii s = true.
Proof.
  induction s as [|c s IH]; [done|]. simpl.
  intros [Hc Hs]%andb_true_iff. by rewrite (digit_char_ascii _ _ Hc), (IH Hs).
Qed.

Lemma format_hex_ascii upper z : is_ascii (format_hex upper z) = true.
Proof.
  unfold format_hex. cbv zeta.
  pose proof (hex_digits_only_digits (N.to_nat (N.log2 (Z.to_N (Z.abs z))))
                upper (Z.to_N (Z.abs z))) as H%only_digits_ascii.
  destruct (z <? 0); [|done]. cbn [is_ascii]. by rewrite H.
Qed.

Lemma join_ascii (l : list string) :
  Forall (λ f, is_ascii f = true) l → is_ascii (join " " l) = true.
Proof.
  induction 1 as [|x l Hx Hl IH]; [done|].
  destruct l as [|y l]; [done|].
  change (join " " (x :: y :: l)) with (x +:+ " " +:+ join " " (y :: l)).
  by rewrite !is_ascii_app, Hx, IH.
Qed.

Lemma encoded_line_ascii (m : Message) :
  is_ascii (convert_can_message_to_ascii_message m) = true.
Proof.
  unfold convert_can_message_to_ascii_message.
  rewrite !is_ascii_app, !format_hex_ascii, join_ascii; [done|].
  apply Forall_map, Forall_forall. intros b _. apply format_hex_ascii.
Qed.

(** X4. [send] never fails on the text of a frame: the outbound line of
    every frame is plain ASCII, so the bytes handed to [sendall] are the
    characters of the line, one byte each, appended to what was sent
    before, and they decode to the line again. The one record logged is
    the debug record with the line between single quotes. *)
Theorem send_writes_the_line (m : Message) (s : socket) :
  ∃ bs,
    send m s
    = ({| outgoing := outgoing s ++ bs; incoming := incoming s |},
       [debug ("Sending Tcp Message: '"
                 +:+ convert_can_message_to_ascii_message m +:+ "'")],
       Done tt)
    ∧ bs = ascii_bytes (convert_can_message_to_ascii_message m)
    ∧ length bs = String.length (convert_can_message_to_ascii_message m)
    ∧ decode_ascii bs = Done (convert_can_message_to_ascii_message m).
Proof.
  pose proof (encoded_line_ascii m) as Ha.
  exists (ascii_bytes (convert_can_message_to_ascii_message m)).
  split_and!; [|done|apply ascii_bytes_length|by apply decode_ascii_bytes].
  unfold send, _tcp_send, encode_ascii. by rewrite encode_ascii_bytes.
Qed.



End SocketFacts.


(** *** The reader loop of [BusABC] *)
Section ReaderLoopFacts.
Context {M L : Type}.
Import bus bus_reader.
Variable _get_message : nat → result (option M).
Variable running : nat → bool.
Variable raising : L → M → option exn.

Lemma deliveries_app (ls : list L) (a b : list M) :
  deliveries ls (a ++ b) = deliveries ls a ++ deliveries ls b.
Proof. unfold deliveries. apply flat_map_app. Qed.

Lemma deliveries_one (ls : list L) (msg : M) :
  deliveries ls [msg] = map (λ l, (l, msg)) ls.
Proof. unfold deliveries. simpl. apply app_nil_r. Qed.

Lemma fan_out_all (ls : list L) (msg : M) (calls : list (L * M)) :
  (∀ l, l ∈ ls → raising l msg = None) →
  fan_out (recorded raising) ls msg calls
  = Some (calls ++ map (λ l, (l, msg)) ls, Ok tt).
Proof.
  revert calls. induction ls as [|l ls IH]; intros calls Hok; simpl.
  - by rewrite app_nil_r.
  - unfold recorded at 1. rewrite (Hok l) by apply list_elem_of_here.
    rewrite IH by (intros l' Hl'; by apply Hok, list_elem_of_further).
    by rewrite <- app_assoc.
Qed.

Lemma fan_out_stops (pre post : list L) (bad : L) (msg : M) e
    (calls : list (L * M)) :
  (∀ l, l ∈ pre → raising l msg = None) →
  raising bad msg = Some e →
  fan_out (recorded raising) (pre ++ bad :: post) msg calls
  = Some (calls ++ map (λ l, (l, msg)) pre ++ [(bad, msg)], Raise e).
Proof.
  revert calls. induction pre as [|l pre IH]; intros calls Hok Hbad; simpl.
  - unfold recorded at 1. by rewrite Hbad.
  - unfold recorded at 1. rewrite (Hok l) by apply list_elem_of_here.
    rewrite IH; [|intros l' Hl'; by apply Hok, list_elem_of_further|done].
    by rewrite <- app_assoc.
Qed.

Lemma rx_loop_runs (b : BusABC M L) (n : nat) :
  ∀ fuel st,
    (n < fuel)%nat →
    (∀ k, (fetched st ≤ k < fetched st + n)%nat →
          running k = true ∧ ∃ r, _get_message k = Ok r) →
    (∀ msg l, msg ∈ received_from _get_message (fetched st) n →
              l ∈ listeners b → raising l msg = None) →
    ∀ rest,
      rx_thread_loop _get_message running (recorded raising) (fuel - n) b
        {| printed := printed st
                      ++ received_from _get_message (fetched st) n;
           sinks := sinks st
                    ++ deliveries (listeners b)
                         (received_from _get_message (fetched st) n);
           fetched := fetched st + n |} = rest →
      rx_thread_loop _get_message running (recorded raising) fuel b st = rest.
Proof.
  induction n as [|n IH]; intros fuel st Hfuel Hrun Hok rest.
  - simpl. rewrite !app_nil_r, Nat.sub_0_r, Nat.add_0_r. by destruct st.
  - destruct fuel as [|fuel]; [lia|]. cbn [rx_thread_loop received_from].
    destruct (Hrun (fetched st)) as [-> [r Hr]]; [lia|]. rewrite Hr.
    replace (S fuel - S n)%nat with (fuel - n)%nat by lia.
    replace (fetched st + S n)%nat with (S (fetched st) + n)%nat by lia.
    destruct r as [msg|].
    + rewrite fan_out_all.
      2: { intros l Hl. apply Hok; [|done]. cbn [received_from].
           rewrite Hr. apply elem_of_app. left. apply list_elem_of_here. }
      intros Hrest. apply IH; [lia| | |].
      * intros k Hk. simpl in Hk. apply Hrun. lia.
      * intros m l Hm Hl. apply Hok; [|done]. cbn [received_from].
        rewrite Hr. apply elem_of_app. by right.
      * cbn [printed sinks fetched].
        by rewrite deliveries_app, deliveries_one, !app_assoc in Hrest.
    + intros Hrest. apply IH; [lia| | |].
      * intros k Hk. simpl in Hk. apply Hrun. lia.
      * intros m l Hm Hl. apply Hok; [|done]. cbn [received_from].
        by rewrite Hr.
      * by cbn [printed sinks fetched].
Qed.

(** X6. The reader loop fans every message out, in order. While the event
    is set the loop fetches; a fetch that returns [None] is skipped; every
    message is printed and then handed to every listener of the bus, in
    the order of registration, before the next fetch; and the loop ends at
    the first test that finds the event cleared, with no fetch after
    it. *)
Theorem rx_thread_fans_out_in_order (b : BusABC M L) (n fuel : nat) :
  (n < fuel)%nat →
  (∀ k, (k < n)%nat → running k = true) →
  running n = false →
  (∀ k, (k < n)%nat → ∃ r, _get_message k = Ok r) →
  (∀ l msg, raising l msg = None) →
  rx_thread _get_message running (recorded raising) fuel b []
  = Some ({| printed := received_from _get_message 0 n;
             sinks := deliveries (listeners b)
                        (received_from _get_message 0 n);
             fetched := n |}, Ok tt).
Proof.
  intros Hfuel Hrun Hstop Hget Hok. unfold rx_thread.
  apply (rx_loop_runs b n); [done| | |].
  - intros k Hk. simpl in Hk. split; [apply Hrun|apply Hget]; lia.
  - intros msg l _ _. apply Hok.
  - cbn [printed sinks fetched app Nat.add].
    destruct (fuel - n)%nat as [|f] eqn:Hf; [lia|].
    cbn [rx_thread_loop fetched]. by rewrite Hstop.
Qed.

(** X7. One listener that raises ends the reader loop. The message it
    raised on has reached the listeners registered before it and none of
    those registered after it, the exception leaves [rx_thread], and
    nothing is fetched any more: the listeners that work get no later
    message either. *)
Theorem rx_thread_dies_with_a_listener (b : BusABC M L) (n fuel : nat)
    (msg : M) (pre post : list L) (bad : L) (e : exn) :
  (n < fuel)%nat →
  (∀ k, (k ≤ n)%nat → running k = true) →
  (∀ k, (k < n)%nat → ∃ r, _get_message k = Ok r) →
  (∀ m l, m ∈ received_from _get_message 0 n → l ∈ listeners b →
          raising l m = None) →
  _get_message n = Ok (Some msg) →
  listeners b = pre ++ bad :: post →
  (∀ l, l ∈ pre → raising l msg = None) →
  raising bad msg = Some e →
  rx_thread _get_message running (recorded raising) fuel b []
  = Some ({| printed := received_from _get_message 0 n ++ [msg];
             sinks := deliveries (listeners b)
                        (received_from _get_message 0 n)
                      ++ map (λ l, (l, msg)) pre ++ [(bad, msg)];
             fetched := S n |}, Raise e).
Proof.
  intros Hfuel Hrun Hget Hok Hmsg Hls Hpre Hbad. unfold rx_thread.
  apply (rx_loop_runs b n); [done| |done|].
  - intros k Hk. simpl in Hk. split; [apply Hrun|apply Hget]; lia.
  - cbn [printed sinks fetched app Nat.add].
    destruct (fuel - n)%nat as [|f] eqn:Hf; [lia|].
    cbn [rx_thread_loop fetched printed sinks].
    rewrite (Hrun n) by lia. rewrite Hmsg.
    rewrite Hls at 1. by rewrite (fan_out_stops pre post bad msg e).
Qed.

End ReaderLoopFacts.

Lemma rx_thread_fans_out_in_order_witness :
  bus_reader.rx_thread
    (λ k, Ok (match k with 0 => Some 7 | 1 => None | _ => Some 9 end)%nat)
    (λ k, k <? 3)%nat (recorded (λ _ _, None)) 5
    {| bus.listeners := ["a"; "b"]; bus._tx_queue := Queue_new 0;
       bus._threads_running := true |} []
  = Some ({| bus_reader.printed := [7; 9]%nat;
             bus_reader.sinks :=
               [("a", 7); ("b", 7); ("a", 9); ("b", 9)]%nat;
             bus_reader.fetched := 3 |}, Ok tt).
Proof.
  apply (rx_thread_fans_out_in_order
           (λ k, Ok (match k with 0 => Some 7 | 1 => None | _ => Some 9 end)%nat)
           (λ k, k <? 3)%nat (λ _ _, None)
           {| bus.listeners := ["a"; "b"]; bus._tx_queue := Queue_new 0;
              bus._threads_running := true |} 3 5).
  - lia.
  - intros k Hk. by apply Nat.ltb_lt.
  - reflexivity.
  - intros k _. by eexists.
  - done.
Defined.

Lemma rx_thread_dies_with_a_listener_witness :
  bus_reader.rx_thread (λ k, Ok (Some k)) (λ _, true)
    (recorded (λ (l : string) (_ : nat),
                 if String.eqb l "b" then Some TypeError else None)) 5
    {| bus.listeners := ["a"; "b"; "c"]; bus._tx_queue := Queue_new 0;
       bus._threads_running := true |} []
  = Some ({| bus_reader.printed := [0%nat];
             bus_reader.sinks := [("a", 0%nat); ("b", 0%nat)];
             bus_reader.fetched := 1 |}, Raise TypeError).
Proof.
  apply (rx_thread_dies_with_a_listener (λ k, Ok (Some k)) (λ _, true)
           (λ (l : string) (_ : nat),
              if String.eqb l "b" then Some TypeError else None)
           {| bus.listeners := ["a"; "b"; "c"]; bus._tx_queue := Queue_new 0;
              bus._threads_running := true |}
           0 5 0%nat ["a"] ["c"] "b" TypeError).
  - lia.
  - done.
  - intros k Hk. lia.
  - intros m l Hm. by apply elem_of_nil in Hm.
  - reflexivity.
  - reflexivity.
  - intros l Hl. apply list_elem_of_singleton in Hl. by subst l.
  - reflexivity.
Defined.

(** *** The buffered listener and the transmit queue as queues *)
Section QueueFacts.
Context {M L : Type}.
Import CAN.

Lemma receive_all_unbounded (msgs : list M) (r : BufferedReader M) :
  maxsize (buffer r) ≤ 0 →
  receive_all msgs r
  = Some {| buffer := {| maxsize := maxsize (buffer r);
                         items := items (buffer r) ++ msgs |} |}.
Proof.
  revert r. induction msgs as [|msg msgs IH]; intros r Hmax; simpl.
  - rewrite app_nil_r. by destruct r as [[]].
  - unfold on_message_received, put, full.
    destruct (Z.ltb_spec 0 (maxsize (buffer r))) as [|_]; [lia|]. simpl.
    rewrite IH by done. simpl. by rewrite <- app_assoc.
Qed.

Lemma get_messages_buffered (pending : list M) (k : nat) (max : Z) :
  ∃ total,
    get_messages (length pending + k)
      {| buffer := {| maxsize := max; items := pending |} |}
    = (map (λ msg, Ok (Some msg)) pending ++ repeat (Ok None) k, total,
       {| buffer := {| maxsize := max; items := [] |} |})
    ∧ (total == inject_Z (Z.of_nat k) * (1 # 2))%Q.
Proof.
  induction pending as [|msg pending IH]; simpl.
  - induction k as [|k [total [IHk IHt]]]; simpl.
    + by exists 0%Q.
    + rewrite IHk. eexists. split; [done|]. rewrite IHt.
      change (Z.pos (Pos.of_succ_nat k)) with (Z.of_nat (S k)).
      rewrite Nat2Z.inj_succ, <- Z.add_1_r, inject_Z_plus. ring.
  - destruct IH as [total [IH Ht]]. rewrite IH.
    exists (0 + total)%Q. split; [done|]. by rewrite Qplus_0_l.
Qed.

(** X8. A buffered listener is a queue without a bound. Taking a message
    in never waits or fails, and [get_message] gives the messages back
    one by one in the order they came in, each at once; when they are all
    taken every further call waits its half second and returns [None]. *)
Theorem buffered_reader_is_fifo (r : BufferedReader M) (msgs : list M)
    (k : nat) :
  maxsize (buffer r) ≤ 0 →
  ∃ r' total,
    receive_all msgs r = Some r'
    ∧ get_messages (length (items (buffer r)) + length msgs + k) r'
      = (map (λ msg, Ok (Some msg)) (items (buffer r) ++ msgs)
           ++ repeat (Ok None) k,
         total,
         {| buffer := {| maxsize := maxsize (buffer r); items := [] |} |})
    ∧ (total == inject_Z (Z.of_nat k) * (1 # 2))%Q.
Proof.
  intros Hmax. rewrite receive_all_unbounded by done.
  destruct (get_messages_buffered (items (buffer r) ++ msgs) k
              (maxsize (buffer r))) as [total [Hget Ht]].
  rewrite List.length_app in Hget. by eexists _, total.
Qed.

Import bus.

Lemma write_all_unbounded (msgs : list (option M)) (b : BusABC M L) :
  maxsize (_tx_queue b) = 0 →
  write_all msgs b
  = Ok {| listeners := listeners b;
          _tx_queue := {| maxsize := 0;
                          items := items (_tx_queue b) ++ msgs |};
          _threads_running := _threads_running b |}.
Proof.
  revert b. induction msgs as [|msg msgs IH]; intros b Hmax; simpl.
  - rewrite app_nil_r. destruct b as [? [] ?]. simpl in *. by subst.
  - rewrite write_unbounded by done. cbn [bind].
    rewrite IH by done. simpl. by rewrite <- app_assoc.
Qed.

(** X9. [write] never blocks and never fails, and the transmit queue keeps
    the order: on a bus made by the constructor and used through [write],
    [shutdown] and the registration of listeners, any number of messages
    can be written, and they sit in the queue behind those that were
    there, in the order they were written. The writer loop takes none of
    them out: after it has run they are all still queued and
    [_put_message] has not been called. *)
Theorem write_queues_in_order (b : BusABC M L) (msgs : list (option M))
    (fuel : nat) :
  reachable b →
  ∃ b',
    write_all msgs b = Ok b'
    ∧ items (_tx_queue b') = items (_tx_queue b) ++ msgs
    ∧ listeners b' = listeners b
    ∧ _threads_running b' = _threads_running b
    ∧ tx_thread (S fuel) b' = Some (Ok {| self := b'; put_calls := [] |}).
Proof.
  intros Hb%reachable_unbounded.
  eexists. split; [by apply write_all_unbounded|done].
Qed.

End QueueFacts.

Lemma buffered_reader_is_fifo_witness :
  ∃ r' total,
    receive_all [1; 2; 3]%nat CAN.__init__ = Some r'
    ∧ get_messages 5 r'
      = ([Ok (Some 1); Ok (Some 2); Ok (Some 3); Ok None; Ok None]%nat,
         total, CAN.__init__)
    ∧ (total == 1)%Q.
Proof.
  destruct (buffered_reader_is_fifo (@CAN.__init__ nat) [1; 2; 3]%nat 2
              ltac:(simpl; lia)) as (r' & total & H1 & H2 & H3).
  exists r', total. split; [exact H1|]. split; [exact H2|].
  rewrite H3. reflexivity.
Defined.

Lemma write_queues_in_order_witness :
  ∃ b',
    write_all [Some 8; None; Some 9]%nat sample_bus = Ok b'
    ∧ items (bus._tx_queue b') = [Some 7; Some 8; None; Some 9]%nat
    ∧ bus.listeners b' = []
    ∧ bus._threads_running b' = true
    ∧ bus.tx_thread 1 b'
      = Some (Ok {| bus.self := b'; bus.put_calls := [] |}).
Proof.
  exact (write_queues_in_order sample_bus [Some 8; None; Some 9]%nat 0
           sample_bus_reachable).
Defined.

(** *** The CSV listener *)
Section CsvFacts.
Import Builtins Listener.

Lemma strings_of_texts (items : list pyval) (texts : list string) :
  map str_text items = map Some texts → strings_of items = Ok texts.
Proof.
  revert texts. induction items as [|v items IH]; intros [|t texts]; try done.
  simpl. intros [= Hv Hrest]. destruct v; try done. simpl in Hv.
  injection Hv as ->. by rewrite (IH _ Hrest).
Qed.

Lemma strings_of_other (items : list pyval) :
  (∃ v, v ∈ items ∧ str_text v = None) → strings_of items = Raise TypeError.
Proof.
  induction items as [|v items IH]; intros (x & Hin & Hx).
  - by apply elem_of_nil in Hin.
  - apply elem_of_cons in Hin as [->|Hin].
    + by destruct v.
    + destruct v; try done. simpl. rewrite IH; [done|by exists x].
Qed.

(** X10. The CSV listener writes a row only for a message whose five
    attributes are all strings: the row is their texts with commas between
    them and a newline after, appended to the file. A message with an
    attribute that is no [str] (a number as timestamp, say) is a
    [TypeError], and nothing is written for it. The header is written
    without a newline, so the first row continues the line of the
    header. *)
Theorem csv_writer_rows (msg : csv_message) (w : CSVWriter) :
  (∀ texts,
     map str_text (csv_fields msg) = map Some texts →
     CSVWriter_on_message_received msg w
     = ({| csv_file := csv_file w +:+ join "," texts +:+ newline |}, Ok tt))
  ∧ ((∃ v, v ∈ csv_fields msg ∧ str_text v = None) →
     CSVWriter_on_message_received msg w = (w, Raise TypeError))
  ∧ (∀ texts,
       map str_text (csv_fields msg) = map Some texts →
       lacks "010" (join "," texts) = true →
       split "010" 1
         (csv_file (fst (CSVWriter_on_message_received msg CSVWriter__init__)))
       = [csv_file CSVWriter__init__ +:+ join "," texts; ""]).
Proof.
  split_and!.
  - intros texts H. unfold CSVWriter_on_message_received, join_values.
    fold (csv_fields msg). by rewrite (strings_of_texts _ _ H).
  - intros H. unfold CSVWriter_on_message_received, join_values.
    fold (csv_fields msg). by rewrite (strings_of_other _ H).
  - intros texts H Hrow. unfold CSVWriter_on_message_received, join_values.
    fold (csv_fields msg). rewrite (strings_of_texts _ _ H). simpl.
    rewrite <- str_app_assoc.
    change newline with (String "010" "").
    rewrite split_app; [done|].
    by rewrite lacks_app, Hrow.
Qed.

End CsvFacts.

(** *** The connection loop without a limit of its own *)

(** X11. [connect_to_server] counts no attempts and waits between none:
    it ends only by a success or by the clock. While every reading of the
    clock is inside the window, in the binary64 arithmetic of the code,
    and every attempt fails, the loop goes on, however many passes it is
    given. *)
Theorem connect_goes_on_inside_the_window
    (clock : nat → PrimFloat.float)
    (attempt : nat → socketcand_bus.connect_outcome)
    (fuel : nat) :
  (∀ j, inside clock j = true) →
  (∀ j, fails attempt j) →
  socketcand_bus.connect_to_server fuel clock attempt = None.
Proof.
  intros Hwin Hfail.
  apply (connect_loop_goes_on clock attempt fuel Hwin Hfail 0%nat []).
Qed.

Lemma connect_goes_on_inside_the_window_witness :
  socketcand_bus.connect_to_server 1000 (λ _, 1757803500.25%float)
    (λ _, socketcand_bus.Failed "ConnectionRefusedError" "refused")
  = None.
Proof.
  apply (connect_goes_on_inside_the_window (λ _, 1757803500.25%float)
           (λ _, socketcand_bus.Failed "ConnectionRefusedError" "refused")
           1000).
  - intros j. reflexivity.
  - intros j. by eexists _, _.
Defined.

(** *** The receive path of the native-driver backend *)
Section ReceiveFacts.
Import Builtins pycanlib pycanlib_io.
Variable maxint : Z.
Hypothesis maxint_16 : 2 ^ 16 ≤ maxint.

Lemma slice_to_map {A B} (f : A → B) (l : list A) (stop : Z) :
  slice_to (map f l) stop = map f (slice_to l stop).
Proof. unfold slice_to. by rewrite length_map, firstn_map. Qed.

Lemma slice_to_length {A} (l : list A) (stop : Z) :
  0 ≤ stop → (length (slice_to l stop) ≤ Z.to_nat stop)%nat.
Proof.
  intros H. rewrite slice_to_firstn by done. rewrite length_firstn. lia.
Qed.

Lemma received_message_ok (f : frame) :
  acceptable f → received_message maxint f = Ok (message_of f).
Proof.
  intros (Hid & Hdlc & Hfl & Hts).
  unfold received_message, message_of, int.
  destruct (Z.leb_spec (_dlc f) maxint) as [_|]; [|lia].
  destruct (Z.leb_spec (_flags f) maxint) as [_|]; [|lia].
  rewrite (slice_to_map (λ c, VInt (Z.of_N (Byte.to_N c)))).
  rewrite <- (map_map (λ c, Z.of_N (Byte.to_N c)) VInt).
  unfold Message.__init__.
  rewrite timestamp_accepted.
  2: { simpl. destruct (Z.ltb_spec (_timestamp f) 0); [lia|done]. }
  cbn [bind]. rewrite check_int_ok by done. cbn [bind].
  rewrite length_in_range.
  2: { rewrite !length_map. pose proof (slice_to_length (_data f) (_dlc f)).
       lia. }
  cbn [negb bind]. rewrite check_items_bytes.
  2: { apply Forall_map, Forall_forall. intros c _. unfold is_byte.
       pose proof (Byte.to_N_bounded c). lia. }
  cbn [bind]. rewrite !check_int_ok by lia. done.
Qed.

(** A frame with an identifier of more than 11 bits (an extended frame)
    is none the constructor takes. *)
Lemma extended_frame_rejected (f : frame) :
  0 ≤ _timestamp f → 2 ^ 11 ≤ _device_id f →
  received_message maxint f
  = Raise (InvalidMessageParameterError "device_id" (VInt (_device_id f))
             "device_id must be in range [0, 2**11-1]").
Proof.
  intros Hts Hid. unfold received_message, Message.__init__.
  rewrite timestamp_accepted.
  2: { simpl. destruct (Z.ltb_spec (_timestamp f) 0); [lia|done]. }
  cbn [bind]. rewrite check_int_bad by lia. done.
Qed.

Lemma listening_alter (ls : list nat) (bs : gmap nat Bus.t) l msgs :
  listening ls bs → listening ls (alter (enqueue_all msgs) l bs).
Proof.
  intros H x Hx. destruct (H x Hx) as (B & HB & Hmax).
  destruct (decide (l = x)) as [->|Hne].
  - exists (enqueue_all msgs B). by rewrite lookup_alter_eq, HB.
  - exists B. by rewrite lookup_alter_ne.
Qed.

Lemma listening_deliver_to (ls ls' : list nat) bs msg :
  listening ls bs → listening ls (deliver_to ls' bs msg).
Proof.
  unfold deliver_to. revert bs.
  induction ls' as [|l ls' IH]; intros bs H; [done|]. simpl.
  by apply IH, listening_alter.
Qed.

Lemma notify_run (ls : list nat) (msg : Message.t) d hs bs R W p wr :
  listening ls bs →
  notify_listeners ls msg (system_of d hs bs R W p wr)
  = (system_of d hs (deliver_to ls bs msg) R W p wr, Done tt).
Proof.
  revert bs. induction ls as [|l ls IH]; intros bs Hls; [done|].
  destruct (Hls l) as (B & HB & Hmax); [apply list_elem_of_here|].
  cbn [notify_listeners]. unfold bind_io at 1.
  assert (Hone : Bus_on_message_received l msg (system_of d hs bs R W p wr)
    = (system_of d hs (alter (enqueue_all [msg]) l bs) R W p wr, Done tt)).
  { unfold Bus_on_message_received, bind_io, bus_obj, from_result,
      update_bus, put_nowait, full. simpl. rewrite HB. simpl.
    destruct (Z.ltb_spec 0 (maxsize (Bus.rx_queue B))) as [|_]; [lia|].
    simpl. rewrite HB. unfold system_of, set_state, set_buses. simpl.
    do 3 f_equal. apply map_eq. intros x.
    destruct (decide (l = x)) as [->|Hne].
    - by rewrite lookup_insert_eq, lookup_alter_eq, HB.
    - by rewrite lookup_insert_ne, lookup_alter_ne. }
  rewrite Hone. unfold deliver_to. simpl. apply IH.
  intros x Hx. eapply listening_alter; [done|].
  by apply list_elem_of_further.
Qed.

Lemma deliver_all_app ls (a b : list Message.t) bs :
  deliver_all ls (a ++ b) bs = deliver_all ls b (deliver_all ls a bs).
Proof. unfold deliver_all. apply foldl_app. Qed.

Lemma listening_deliver_all (ls ls' : list nat) msgs bs :
  listening ls bs → listening ls (deliver_all ls' msgs bs).
Proof.
  unfold deliver_all. revert bs.
  induction msgs as [|m msgs IH]; intros bs H; [done|]. simpl.
  by apply IH, listening_deliver_to.
Qed.

(** The loop on frames the constructor takes, up to the first other
    frame or the end. *)
Lemma read_loop_prefix (a : nat) (h : _Handle.t) (key : Z)
    (good rest : list frame) d hs R W wr :
  hs !! a = Some h →
  Forall acceptable good →
  ∀ bs p,
    listening (_Handle.listeners h) bs →
    p !! key = Some (good ++ rest) →
    read_loop maxint a key (good ++ rest) (system_of d hs bs R W p wr)
    = read_loop maxint a key rest
        (system_of d hs
           (deliver_all (_Handle.listeners h) (map message_of good) bs)
           R W (<[key := rest]> p) wr).
Proof.
  intros Hh. induction 1 as [|f good Hf _ IH]; intros bs p Hls Hp.
  - simpl. by rewrite insert_id.
  - cbn [app read_loop map]. unfold bind_io at 1. cbn beta iota.
    unfold bind_io at 1, from_result at 1.
    rewrite (received_message_ok f Hf). cbn [lift].
    unfold bind_io at 1, handle_obj at 1. simpl. rewrite Hh.
    unfold bind_io at 1.
    pose proof (notify_run (_Handle.listeners h) (message_of f) d hs bs R W
                  (<[key := good ++ rest]> p) wr Hls) as Hn.
    unfold system_of in Hn. unfold set_pending. simpl. rewrite Hn.
    fold (system_of d hs (deliver_to (_Handle.listeners h) bs (message_of f))
            R W (<[key := good ++ rest]> p) wr).
    rewrite IH;
      [|by apply listening_deliver_to|by rewrite lookup_insert_eq].
    by rewrite insert_insert_eq.
Qed.

Lemma set_reading_back (h : _Handle.t) :
  _Handle.reading h = false → set_reading false (set_reading true h) = h.
Proof. destruct h. simpl. by intros ->. Qed.

(** What the listeners of a handle find in their queues after frames
    have been handed out. *)
Lemma deliver_to_lookup (ls : list nat) bs msg (b : nat) :
  NoDup ls →
  deliver_to ls bs msg !! b
  = if decide (b ∈ ls) then enqueue_all [msg] <$> bs !! b else bs !! b.
Proof.
  unfold deliver_to. intros Hnd. revert bs.
  induction Hnd as [|l ls Hl _ IH]; intros bs; cbn [foldl].
  - by rewrite decide_False by apply not_elem_of_nil.
  - rewrite IH. destruct (decide (b = l)) as [->|Hne].
    + rewrite decide_False by done.
      rewrite decide_True by apply list_elem_of_here.
      by rewrite lookup_alter_eq.
    + rewrite lookup_alter_ne by done.
      destruct (decide (b ∈ ls)) as [Hin|Hout].
      * by rewrite decide_True by (by apply list_elem_of_further).
      * rewrite decide_False; [done|].
        intros [?|?]%elem_of_cons; done.
Qed.

Lemma enqueue_all_app (a b : list Message.t) (B : Bus.t) :
  enqueue_all b (enqueue_all a B) = enqueue_all (a ++ b) B.
Proof. unfold enqueue_all, set_rx_queue. simpl. by rewrite app_assoc. Qed.

Lemma enqueue_all_nil (B : Bus.t) : enqueue_all [] B = B.
Proof.
  unfold enqueue_all, set_rx_queue. rewrite app_nil_r. by destruct B as [????[]?].
Qed.

Lemma deliver_all_lookup (ls : list nat) msgs bs (b : nat) :
  NoDup ls →
  deliver_all ls msgs bs !! b
  = if decide (b ∈ ls) then enqueue_all msgs <$> bs !! b else bs !! b.
Proof.
  intros Hnd. unfold deliver_all. revert bs.
  induction msgs as [|m msgs IH]; intros bs; simpl.
  - destruct (decide (b ∈ ls)); [|done].
    destruct (bs !! b) as [B|]; [|done]. simpl. by rewrite enqueue_all_nil.
  - rewrite IH, deliver_to_lookup by done.
    destruct (decide (b ∈ ls)); [|done].
    destruct (bs !! b) as [B|]; [|done]. simpl.
    by rewrite enqueue_all_app.
Qed.

(** X12. One call of [receive_callback] empties the driver's queue of
    the handle. When the handle is not reading already and every frame that
    waits is one the constructor of [Message] takes, each frame becomes a
    message (identifier, the first [dlc] bytes of the buffer, dlc, flags,
    the time in seconds), and each message is put, in the order of the
    frames, into the receive queue of every bus that listens on the
    handle; other buses get nothing. Afterwards no frame waits, the
    notification is set up again with the driver, and the handle is as it
    was. *)
Theorem receive_callback_delivers (a : nat) (h : _Handle.t)
    (frames : list frame) d hs bs R W p wr :
  hs !! a = Some h →
  _Handle.reading h = false →
  _Handle.receive_callback_enabled h = true →
  p !! _Handle._canlib_handle h = Some frames →
  Forall acceptable frames →
  NoDup (_Handle.listeners h) →
  listening (_Handle.listeners h) bs →
  ∃ bs',
    receive_callback maxint a (system_of d hs bs R W p wr)
    = (system_of
         (served (kvSetNotifyCallback (_Handle._canlib_handle h)
                    RX_CALLBACK canNOTIFY_RX) d)
         hs bs' R W (<[_Handle._canlib_handle h := []]> p) wr, Done tt)
    ∧ ∀ b, bs' !! b
           = if decide (b ∈ _Handle.listeners h)
             then enqueue_all (map message_of frames) <$> bs !! b
             else bs !! b.
Proof.
  intros Hh Hr He Hp Hok Hnd Hls.
  exists (deliver_all (_Handle.listeners h) (map message_of frames) bs).
  split; [|intros b; by apply deliver_all_lookup].
  unfold receive_callback, bind_io at 1, handle_obj at 1. simpl.
  rewrite Hh, Hr, He. cbn [negb andb].
  unfold bind_io at 1, update_handle at 1. simpl. rewrite Hh.
  unfold bind_io at 1, get_system at 1. simpl. rewrite Hp. cbn [default].
  unfold bind_io at 1.
  pose proof (read_loop_prefix a (set_reading true h)
                (_Handle._canlib_handle h) frames [] d
                (<[a := set_reading true h]> hs) R W wr
                ltac:(by rewrite lookup_insert_eq) Hok bs p Hls
                ltac:(by rewrite app_nil_r)) as Hloop.
  rewrite app_nil_r in Hloop. unfold system_of in Hloop.
  unfold set_state, set_handles. simpl. rewrite Hloop. simpl.
  unfold bind_io, run, driver, modify, update_handle. simpl.
  rewrite lookup_insert_eq. unfold system_of, set_state, set_handles. simpl.
  rewrite insert_insert_eq, set_reading_back, insert_id by done. done.
Qed.

(** X13. One frame the constructor of [Message] does not take (a frame
    with an extended identifier, say) stops reception on the handle for
    good. The frames before it are delivered and it is taken from the
    driver, then the exception of the constructor leaves
    [receive_callback] with [reading] still set: the notification is not
    set up again, the frames behind stay with the driver, and every later
    call of [receive_callback], whatever has arrived, returns at once
    without reading. *)
Theorem receive_callback_stops_for_good (a : nat) (h : _Handle.t)
    (good rest : list frame) (bad : frame) (e : exn) d hs bs R W p wr :
  hs !! a = Some h →
  _Handle.reading h = false →
  _Handle.receive_callback_enabled h = true →
  p !! _Handle._canlib_handle h = Some (good ++ bad :: rest) →
  Forall acceptable good →
  received_message maxint bad = Raise e →
  listening (_Handle.listeners h) bs →
  receive_callback maxint a (system_of d hs bs R W p wr)
  = (system_of d (<[a := set_reading true h]> hs)
       (deliver_all (_Handle.listeners h) (map message_of good) bs) R W
       (<[_Handle._canlib_handle h := rest]> p) wr, Fail (Exn e))
  ∧ ∀ d' bs' R' W' p' wr',
      receive_callback maxint a
        (system_of d' (<[a := set_reading true h]> hs) bs' R' W' p' wr')
      = (system_of d' (<[a := set_reading true h]> hs) bs' R' W' p' wr',
         Done tt).
Proof.
  intros Hh Hr He Hp Hok Hbad Hls. split.
  - unfold receive_callback, bind_io at 1, handle_obj at 1. simpl.
    rewrite Hh, Hr, He. cbn [negb andb].
    unfold bind_io at 1, update_handle at 1. simpl. rewrite Hh.
    unfold bind_io at 1, get_system at 1. simpl. rewrite Hp. cbn [default].
    unfold bind_io at 1.
    pose proof (read_loop_prefix a (set_reading true h)
                  (_Handle._canlib_handle h) good (bad :: rest) d
                  (<[a := set_reading true h]> hs) R W wr
                  ltac:(by rewrite lookup_insert_eq) Hok bs p Hls Hp)
      as Hloop.
    unfold system_of in Hloop.
    unfold set_state, set_handles. simpl. rewrite Hloop.
    cbn [read_loop]. unfold bind_io, from_result. simpl.
    rewrite Hbad. simpl. unfold system_of, set_pending. simpl.
    by rewrite insert_insert_eq.
  - intros d' bs' R' W' p' wr'.
    unfold receive_callback, bind_io, handle_obj. simpl.
    by rewrite lookup_insert_eq.
Qed.

End ReceiveFacts.

Lemma receive_callback_delivers_witness :
  ∃ bs',
    pycanlib_io.receive_callback (2 ^ 31 - 1) 0
      (system_of sample_driver {[0%nat := sample_handle]}
         {[0%nat := sample_can_bus]} {[5 := 0%nat]} ∅
         {[5 := [sample_frame; sample_frame]]} [])
    = (system_of
         (pycanlib.served
            (pycanlib.kvSetNotifyCallback 5 pycanlib.RX_CALLBACK
               pycanlib.canNOTIFY_RX) sample_driver)
         {[0%nat := sample_handle]} bs' {[5 := 0%nat]} ∅
         (<[5 := []]> {[5 := [sample_frame; sample_frame]]}) [],
       Builtins.Done tt)
    ∧ ∀ b, bs' !! b
           = if decide (b ∈ [0%nat])
             then enqueue_all (map message_of [sample_frame; sample_frame])
                    <$> ({[0%nat := sample_can_bus]} : gmap nat _) !! b
             else ({[0%nat := sample_can_bus]} : gmap nat _) !! b.
Proof.
  apply (receive_callback_delivers (2 ^ 31 - 1) ltac:(lia) 0 sample_handle
           [sample_frame; sample_frame] sample_driver
           {[0%nat := sample_handle]} {[0%nat := sample_can_bus]}
           {[5 := 0%nat]} ∅ {[5 := [sample_frame; sample_frame]]} []).
  - reflexivity.
  - reflexivity.
  - reflexivity.
  - reflexivity.
  - repeat constructor; simpl; lia.
  - apply NoDup_singleton.
  - intros l ->%list_elem_of_singleton. exists sample_can_bus.
    split; [reflexivity|simpl; lia].
Defined.

Lemma receive_callback_stops_for_good_witness :
  pycanlib_io.receive_callback (2 ^ 31 - 1) 0
    (system_of sample_driver {[0%nat := sample_handle]}
       {[0%nat := sample_can_bus]} {[5 := 0%nat]} ∅
       {[5 := [sample_frame; extended_frame; sample_frame]]} [])
  = (system_of sample_driver
       (<[0%nat := pycanlib_io.set_reading true sample_handle]>
          {[0%nat := sample_handle]})
       (deliver_all [0%nat] [message_of sample_frame]
          {[0%nat := sample_can_bus]})
       {[5 := 0%nat]} ∅
       (<[5 := [sample_frame]]>
          {[5 := [sample_frame; extended_frame; sample_frame]]}) [],
     Builtins.Fail
       (Builtins.Exn
          (InvalidMessageParameterError "device_id" (VInt (2 ^ 11 + 5))
             "device_id must be in range [0, 2**11-1]")))
  ∧ ∀ d' bs' R' W' p' wr',
      pycanlib_io.receive_callback (2 ^ 31 - 1) 0
        (system_of d'
           (<[0%nat := pycanlib_io.set_reading true sample_handle]>
              {[0%nat := sample_handle]}) bs' R' W' p' wr')
      = (system_of d'
           (<[0%nat := pycanlib_io.set_reading true sample_handle]>
              {[0%nat := sample_handle]}) bs' R' W' p' wr',
         Builtins.Done tt).
Proof.
  apply (receive_callback_stops_for_good (2 ^ 31 - 1) ltac:(lia) 0
           sample_handle [sample_frame] [sample_frame] extended_frame
           (InvalidMessageParameterError "device_id" (VInt (2 ^ 11 + 5))
              "device_id must be in range [0, 2**11-1]")
           sample_driver {[0%nat := sample_handle]}
           {[0%nat := sample_can_bus]} {[5 := 0%nat]} ∅
           {[5 := [sample_frame; extended_frame; sample_frame]]} []).
  - reflexivity.
  - reflexivity.
  - reflexivity.
  - reflexivity.
  - repeat constructor; simpl; lia.
  - reflexivity.
  - intros l ->%list_elem_of_singleton. exists sample_can_bus.
    split; [reflexivity|simpl; lia].
Defined.

(** *** The queues of a bus and of a handle *)
Section TransmitFacts.
Import Builtins pycanlib pycanlib_io.

Lemma times_S {A} (n : nat) (c : io A) (s s' : system) (a : A) :
  c s = (s', Done a) →
  times (S n) c s
  = match times n c s' with
    | (s'', Done rest) => (s'', Done (a :: rest))
    | (s'', Fail e) => (s'', Fail e)
    end.
Proof.
  intros H. cbn [times]. unfold bind_io at 1. rewrite H.
  unfold bind_io, unit_io. by destruct (times n c s') as [? []].
Qed.

Lemma bus_read_one (b : nat) (B : Bus.t) d hs bs R W p wr :
  bs !! b = Some B →
  Bus_read b (system_of d hs bs R W p wr)
  = match items (Bus.rx_queue B) with
    | [] => (system_of d hs bs R W p wr, Done None)
    | m :: rest =>
        (system_of d hs
           (<[b := set_rx_queue {| maxsize := maxsize (Bus.rx_queue B);
                                   items := rest |} B]> bs) R W p wr,
         Done (Some m))
    end.
Proof.
  intros HB. unfold Bus_read, bind_io, bus_obj, get_nowait. simpl.
  rewrite HB. destruct (items (Bus.rx_queue B)) as [|m rest]; [done|].
  unfold update_bus. simpl. by rewrite HB.
Qed.

(** X14. [Bus.read] takes the messages of the receive queue oldest first
    and never raises: with the queue empty it returns [None] and changes
    nothing. *)
Theorem bus_read_in_order (b : nat) (B : Bus.t) (k : nat) d hs bs R W p wr :
  bs !! b = Some B →
  times (length (items (Bus.rx_queue B)) + k) (Bus_read b)
    (system_of d hs bs R W p wr)
  = (system_of d hs
       (<[b := set_rx_queue {| maxsize := maxsize (Bus.rx_queue B);
                               items := [] |} B]> bs) R W p wr,
     Done (map Some (items (Bus.rx_queue B)) ++ repeat None k)).
Proof.
  destruct B as [nm rh wh mode [max q] off]. cbn [Bus.rx_queue items maxsize].
  revert bs. induction q as [|m q IH]; intros bs HB.
  - assert (Hid : <[b := set_rx_queue {| maxsize := max; items := [] |}
                     {| Bus.name := nm; Bus._read_handle := rh;
                        Bus._write_handle := wh; Bus.driver_mode := mode;
                        Bus.rx_queue := {| maxsize := max; items := [] |};
                        Bus.timer_offset := off |}]> bs = bs)
      by (by apply insert_id).
    rewrite Hid. clear Hid. cbn [length Nat.add map app].
    induction k as [|k IHk]; [done|].
    rewrite (times_S k _ _ _ _ (bus_read_one b _ d hs bs R W p wr HB)).
    by rewrite IHk.
  - cbn [length Nat.add map app].
    rewrite (times_S _ _ _ _ _ (bus_read_one b _ d hs bs R W p wr HB)).
    cbn [Bus.rx_queue items maxsize].
    unfold set_rx_queue at 1. cbn.
    rewrite IH by apply lookup_insert_eq.
    unfold set_rx_queue. cbn. by rewrite insert_insert_eq.
Qed.

Lemma payload_string_bytes (payload : list pyval) :
  Forall (λ v, ∃ z, as_int v = Some z ∧ 0 ≤ z < 256) payload →
  payload_string payload = Done (string_of_list_ascii (map char_of payload)).
Proof.
  induction 1 as [|v payload (z & Hz & Hr) _ IH]; [done|].
  cbn [payload_string map string_of_list_ascii]. rewrite IH.
  assert (Hc : percent_c v = Done (char_of v)).
  { unfold char_of. destruct v as [x|x|[]|f|s| |l]; simpl in *; try done.
    injection Hz as ->. unfold in_range.
    destruct (Z.leb_spec 0 z); [|lia]. destruct (Z.ltb_spec z 256); [|lia].
    done. }
  by rewrite Hc.
Qed.

Lemma set_writing_back (h : _Handle.t) :
  _Handle.writing h = false → set_writing false (set_writing true h) = h.
Proof. destruct h. simpl. by intros ->. Qed.

(** One call of the transmit callback on a handle that is ready. *)
Lemma transmit_callback_one (a : nat) (h : _Handle.t) d hs bs R W p wr :
  hs !! a = Some h →
  ready_to_send h →
  Forall bytes_payload (items (_Handle.tx_queue h)) →
  transmit_callback a (system_of d hs bs R W p wr)
  = match items (_Handle.tx_queue h) with
    | [] => (system_of d hs bs R W p wr, Done tt)
    | m :: rest =>
        (system_of d
           (<[a := set_tx_queue {| maxsize := maxsize (_Handle.tx_queue h);
                                   items := rest |} h]> hs)
           bs R W p (wr ++ [sending (_Handle._canlib_handle h) m]), Done tt)
    end.
Proof.
  intros Hh (Hw & He & _) Hq.
  unfold transmit_callback, bind_io at 1, handle_obj at 1. simpl.
  rewrite Hh, Hw, He. cbn [negb andb].
  unfold bind_io at 1, update_handle at 1. simpl. rewrite Hh.
  unfold get_nowait. destruct (items (_Handle.tx_queue h)) as [|m rest].
  - unfold update_handle. simpl. rewrite lookup_insert_eq.
    unfold system_of, set_state, set_handles. simpl.
    by rewrite insert_insert_eq, set_writing_back, insert_id.
  - apply Forall_cons in Hq as [Hm _].
    unfold bind_io, update_handle, canWrite. simpl.
    rewrite !lookup_insert_eq. simpl.
    rewrite (payload_string_bytes _ Hm). simpl. rewrite lookup_insert_eq.
    unfold system_of, set_state, set_handles, sending. simpl.
    rewrite !insert_insert_eq. do 4 f_equal.
    destruct h. simpl in *. by subst.
Qed.

(** A message written to a handle that is ready and has nothing queued
    goes to the driver inside the call. *)
Lemma handle_write_at_once (a : nat) (h : _Handle.t) (m : Message.t)
    d hs bs R W p wr :
  hs !! a = Some h →
  ready_to_send h →
  items (_Handle.tx_queue h) = [] →
  bytes_payload m →
  _Handle_write a m (system_of d hs bs R W p wr)
  = (system_of d hs bs R W p (wr ++ [sending (_Handle._canlib_handle h) m]),
     Done tt).
Proof.
  intros Hh Hready Hq Hm.
  unfold _Handle_write, bind_io at 1, handle_obj at 1. simpl. rewrite Hh.
  destruct Hready as (Hw & He & Hmax).
  unfold bind_io at 1, from_result at 1, put_nowait, full.
  destruct (Z.ltb_spec 0 (maxsize (_Handle.tx_queue h))) as [|_]; [lia|].
  cbn [andb lift]. unfold bind_io at 1, update_handle at 1. simpl.
  rewrite Hh. unfold qsize. rewrite Hq. cbn [length Z.of_nat Z.eqb app].
  set (h1 := set_tx_queue _ h).
  pose proof (transmit_callback_one a h1 d
                (<[a := h1]> hs) bs R W p wr
                ltac:(apply lookup_insert_eq)) as Hone.
  unfold system_of in Hone. unfold set_state, set_handles. simpl.
  rewrite Hone; [| |].
  - unfold h1. simpl. unfold system_of. do 4 f_equal.
    rewrite insert_insert_eq. apply insert_id. rewrite Hh. f_equal.
    destruct h as [? ? ? ? [? ?] ? ? ? ?]. simpl in *. by subst.
  - by unfold h1.
  - unfold h1. simpl. by repeat constructor.
Qed.

Lemma check_items_inv (whole items : list pyval) :
  Message.check_items whole items = Ok tt →
  Forall (λ v, ∃ z, as_int v = Some z ∧ 0 ≤ z < 256) items.
Proof.
  induction items as [|v items IH]; [constructor|].
  cbn [Message.check_items]. destruct (as_int v) as [z|] eqn:Hv; [|done].
  unfold in_range.
  destruct (Z.leb_spec 0 z); destruct (Z.ltb_spec z (2 ^ 8)); try done.
  cbn [andb negb]. intros Hrest. constructor; [|by apply IH].
  exists z. split; [done|]. change (2 ^ 8) with 256 in *. lia.
Qed.

(** What the constructor of [Message] returns, when it returns. *)
Lemma message_init_inv (device_id : pyval) (payload : option (list pyval))
    (dlc flags timestamp : pyval) (m : Message.t) :
  Message.__init__ device_id payload dlc flags timestamp = Ok m →
  Message.device_id m = device_id
  ∧ Message.payload m = default [] payload
  ∧ Message.dlc m = dlc
  ∧ Message.flags m = flags
  ∧ bytes_payload m
  ∧ (length (Message.payload m) ≤ 8)%nat.
Proof.
  unfold Message.__init__.
  destruct (LogMessage.__init__ timestamp) as [base|]; [|done].
  cbn [bind].
  destruct (Message.check_int "device_id" _ _ _ _ _); [|done]. cbn [bind].
  set (items := match payload with Some l => l | None => [] end).
  assert (Hdef : items = default [] payload) by (by destruct payload).
  unfold in_range.
  destruct (Z.leb_spec 0 (Z.of_nat (length items)));
    destruct (Z.ltb_spec (Z.of_nat (length items)) 9); try done.
  cbn [andb negb bind].
  destruct (Message.check_items items items) as [[]|] eqn:Hitems; [|done].
  cbn [bind].
  destruct (Message.check_int "dlc" _ _ _ _ _); [|done]. cbn [bind].
  destruct (Message.check_int "flags" _ _ _ _ _); [|done]. cbn [bind].
  intros [= <-]. unfold bytes_payload. cbn.
  split_and!; try done; [by apply (check_items_inv items)|lia].
Qed.

Lemma payload_text_length (payload : list pyval) :
  String.length (string_of_list_ascii (map char_of payload)) = length payload.
Proof. induction payload as [|v l IH]; [done|]. cbn. by rewrite IH. Qed.

(** X15. Every message the constructor of [Message] returns can be
    written. A silent bus drops it: nothing is queued and nothing is handed
    to the driver. On any other bus, with the write handle ready and
    nothing queued, [Bus.write] does not raise and calls [canWrite] once
    inside the call, with the identifier, the dlc and the flags that were
    given to the constructor and with a string of one character for each
    item of the payload, eight at most; the queue of the handle is empty
    again afterwards. The dlc is handed on as it was given: the constructor
    does not compare it with the length of the payload, so the driver can
    be given a dlc that is not the length of the string. *)
Theorem bus_write_sends_at_once (device_id : pyval)
    (payload : option (list pyval)) (dlc flags timestamp : pyval)
    (m : Message.t) (b : nat) (B : Bus.t) (h : _Handle.t)
    d hs bs R W p wr :
  Message.__init__ device_id payload dlc flags timestamp = Ok m →
  bs !! b = Some B →
  hs !! Bus._write_handle B = Some h →
  ready_to_send h →
  items (_Handle.tx_queue h) = [] →
  ∃ text,
    Bus_write b m (system_of d hs bs R W p wr)
    = (if Bus.driver_mode B =? canDRIVER_SILENT d
       then (system_of d hs bs R W p wr, Done tt)
       else (system_of d hs bs R W p
               (wr ++ [{| pycanlib_io.handle := _Handle._canlib_handle h;
                          pycanlib_io.id := device_id;
                          pycanlib_io.msg := text;
                          pycanlib_io.dlc := dlc;
                          pycanlib_io.flag := flags |}]), Done tt))
    ∧ text = string_of_list_ascii (map char_of (default [] payload))
    ∧ String.length text = length (default [] payload)
    ∧ (String.length text ≤ 8)%nat.
Proof.
  intros Hm HB Hh Hready Hq.
  apply message_init_inv in Hm as (Hid & Hpay & Hdlc & Hfl & Hbytes & Hlen).
  exists (string_of_list_ascii (map char_of (Message.payload m))).
  rewrite payload_text_length.
  split_and!; [|by rewrite Hpay|by rewrite Hpay|done].
  unfold Bus_write, bind_io at 1, bus_obj at 1. simpl. rewrite HB.
  unfold bind_io at 1, get_system at 1. simpl.
  destruct (Bus.driver_mode B =? canDRIVER_SILENT d); [done|]. cbn [negb].
  rewrite (handle_write_at_once _ h m d hs bs R W p wr Hh Hready Hq Hbytes).
  unfold sending. by rewrite Hid, Hdlc, Hfl.
Qed.

Lemma transmit_callbacks_run (key : Z) (a : nat) (k : nat) d bs R W p :
  W !! key = Some a →
  ∀ (queued : list Message.t) (h : _Handle.t) hs wr,
    hs !! a = Some h →
    ready_to_send h →
    items (_Handle.tx_queue h) = queued →
    Forall bytes_payload queued →
    times (length queued + k) (_transmit_callback key)
      (system_of d hs bs R W p wr)
    = (system_of d
         (<[a := set_tx_queue {| maxsize := maxsize (_Handle.tx_queue h);
                                 items := [] |} h]> hs)
         bs R W p (wr ++ map (sending (_Handle._canlib_handle h)) queued),
       Done (repeat 0 (length queued + k))).
Proof.
  intros HW.
  assert (Hcb : ∀ (h : _Handle.t) hs wr,
    hs !! a = Some h → ready_to_send h →
    Forall bytes_payload (items (_Handle.tx_queue h)) →
    _transmit_callback key (system_of d hs bs R W p wr)
    = (fst (transmit_callback a (system_of d hs bs R W p wr)), Done 0)).
  { intros h hs wr Hh Hready Hq.
    unfold _transmit_callback, bind_io at 1, get_system at 1. simpl.
    rewrite HW. unfold bind_io.
    rewrite (transmit_callback_one a h d hs bs R W p wr Hh Hready Hq).
    by destruct (items (_Handle.tx_queue h)). }
  induction queued as [|m queued IH]; intros h hs wr Hh Hready Hq Hok.
  - assert (Hid : <[a := set_tx_queue
                           {| maxsize := maxsize (_Handle.tx_queue h);
                              items := [] |} h]> hs = hs).
    { apply insert_id. rewrite Hh. f_equal.
      destruct h as [? ? ? ? [? ?] ? ? ? ?]. simpl in *. by subst. }
    rewrite Hid, app_nil_r. cbn [length Nat.add].
    induction k as [|k IHk]; [done|].
    rewrite (times_S k _ _ _ _
               (Hcb h hs wr Hh Hready ltac:(by rewrite Hq))).
    rewrite (transmit_callback_one a h d hs bs R W p wr Hh Hready)
      by (by rewrite Hq).
    rewrite Hq. cbn [fst]. by rewrite IHk.
  - cbn [length Nat.add].
    rewrite (times_S _ _ _ _ _
               (Hcb h hs wr Hh Hready ltac:(by rewrite Hq))).
    rewrite (transmit_callback_one a h d hs bs R W p wr Hh Hready)
      by (by rewrite Hq).
    rewrite Hq. cbn [fst].
    apply Forall_cons in Hok as [_ Hok].
    destruct Hready as (Hw & He & Hmax).
    rewrite (IH (set_tx_queue {| maxsize := maxsize (_Handle.tx_queue h);
                                 items := queued |} h));
      [|apply lookup_insert_eq|done|done|done].
    cbn. rewrite insert_insert_eq, <- app_assoc. done.
Qed.

(** X16. What has queued up on a handle goes out oldest first, one
    message for each call the driver makes of the transmit callback. A
    message written while others are queued waits behind them without a
    call of the driver; each call of [_transmit_callback] with the driver
    handle then sends the oldest message that waits, and calls made when
    nothing waits send nothing. A driver handle the write registry does
    not have is a [KeyError]. *)
Theorem transmit_callbacks_send_in_order (key : Z) (a : nat) (h : _Handle.t)
    (first m : Message.t) (queued : list Message.t) (k : nat)
    d hs bs R W p wr :
  W !! key = Some a →
  hs !! a = Some h →
  ready_to_send h →
  items (_Handle.tx_queue h) = first :: queued →
  Forall bytes_payload (first :: queued ++ [m]) →
  let h' := set_tx_queue {| maxsize := maxsize (_Handle.tx_queue h);
                            items := first :: queued ++ [m] |} h in
  _Handle_write a m (system_of d hs bs R W p wr)
  = (system_of d (<[a := h']> hs) bs R W p wr, Done tt)
  ∧ times (length (first :: queued ++ [m]) + k) (_transmit_callback key)
      (system_of d (<[a := h']> hs) bs R W p wr)
    = (system_of d
         (<[a := set_tx_queue {| maxsize := maxsize (_Handle.tx_queue h);
                                 items := [] |} h]> hs)
         bs R W p
         (wr ++ map (sending (_Handle._canlib_handle h))
                  (first :: queued ++ [m])),
       Done (repeat 0 (length (first :: queued ++ [m]) + k)))
  ∧ ∀ other s, WRITE_HANDLE_REGISTRY (state s) !! other = None →
      _transmit_callback other s = (s, Fail (KeyError other)).
Proof.
  intros HW Hh Hready Hq Hok h'. split_and!.
  - unfold _Handle_write, bind_io at 1, handle_obj at 1. simpl. rewrite Hh.
    destruct Hready as (Hw & He & Hmax).
    unfold bind_io at 1, from_result at 1, put_nowait, full.
    destruct (Z.ltb_spec 0 (maxsize (_Handle.tx_queue h))) as [|_]; [lia|].
    cbn [andb lift]. unfold bind_io at 1, update_handle at 1. simpl.
    rewrite Hh. unfold qsize. rewrite Hq. done.
  - pose proof (transmit_callbacks_run key a k d bs R W p HW
                  (first :: queued ++ [m]) h' (<[a := h']> hs) wr
                  ltac:(apply lookup_insert_eq)) as Hrun.
    rewrite Hrun; [|by destruct Hready as (?&?&?)|done|done].
    unfold h'. cbn. by rewrite insert_insert_eq.
  - intros other s Hnone.
    unfold _transmit_callback, bind_io, get_system. simpl. by rewrite Hnone.
Qed.

End TransmitFacts.

Lemma sample_message_bytes : bytes_payload (message_of sample_frame).
Proof.
  unfold bytes_payload. simpl.
  repeat constructor; eexists; (split; [reflexivity|simpl; lia]).
Qed.

Lemma bus_read_in_order_witness :
  times 3 (pycanlib_io.Bus_read 0)
    (system_of sample_driver ∅
       {[0%nat := enqueue_all [message_of sample_frame;
                               message_of extended_frame] sample_can_bus]}
       ∅ ∅ ∅ [])
  = (system_of sample_driver ∅
       (<[0%nat := sample_can_bus]>
          {[0%nat := enqueue_all [message_of sample_frame;
                                  message_of extended_frame]
                       sample_can_bus]})
       ∅ ∅ ∅ [],
     Builtins.Done [Some (message_of sample_frame);
                    Some (message_of extended_frame); None]).
Proof.
  exact (bus_read_in_order 0
           (enqueue_all [message_of sample_frame; message_of extended_frame]
              sample_can_bus) 1 sample_driver ∅
           {[0%nat := enqueue_all [message_of sample_frame;
                                   message_of extended_frame]
                        sample_can_bus]} ∅ ∅ ∅ [] eq_refl).
Defined.

Lemma bus_write_sends_at_once_witness :
  ∃ text,
    pycanlib_io.Bus_write 0
      {| pycanlib.Message.timestamp := VInt 0;
         pycanlib.Message.device_id := VInt 291;
         pycanlib.Message.payload := [VInt 17];
         pycanlib.Message.dlc := VInt 8;
         pycanlib.Message.flags := VInt 0 |}
      (system_of sample_driver {[1%nat := new_handle 0 0 6]}
         {[0%nat := sample_can_bus]} ∅ {[6 := 1%nat]} ∅ [])
    = (system_of sample_driver {[1%nat := new_handle 0 0 6]}
         {[0%nat := sample_can_bus]} ∅ {[6 := 1%nat]} ∅
         [{| pycanlib_io.handle := 6; pycanlib_io.id := VInt 291;
             pycanlib_io.msg := text; pycanlib_io.dlc := VInt 8;
             pycanlib_io.flag := VInt 0 |}], Builtins.Done tt)
    ∧ text = String (ascii_of_N 17) EmptyString
    ∧ String.length text = 1%nat
    ∧ (String.length text ≤ 8)%nat.
Proof.
  apply (bus_write_sends_at_once (VInt 291) (Some [VInt 17]) (VInt 8)
           (VInt 0) (VInt 0) _ 0 sample_can_bus (new_handle 0 0 6)
           sample_driver {[1%nat := new_handle 0 0 6]}
           {[0%nat := sample_can_bus]} ∅ {[6 := 1%nat]} ∅ []).
  - reflexivity.
  - reflexivity.
  - reflexivity.
  - unfold ready_to_send. simpl. split_and!; [done|done|lia].
  - reflexivity.
Defined.

Lemma transmit_callbacks_send_in_order_witness :
  times 3 (pycanlib_io._transmit_callback 6)
    (system_of sample_driver
       {[1%nat := pycanlib_io.set_tx_queue
                    {| maxsize := 0;
                       items := [message_of sample_frame;
                                 message_of sample_frame] |}
                    (new_handle 0 0 6)]}
       ∅ ∅ {[6 := 1%nat]} ∅ [])
  = (system_of sample_driver {[1%nat := new_handle 0 0 6]}
       ∅ ∅ {[6 := 1%nat]} ∅
       [sending 6 (message_of sample_frame);
        sending 6 (message_of sample_frame)],
     Builtins.Done [0; 0; 0]).
Proof.
  pose proof (transmit_callbacks_send_in_order 6 1
                (pycanlib_io.set_tx_queue
                   {| maxsize := 0; items := [message_of sample_frame] |}
                   (new_handle 0 0 6))
                (message_of sample_frame) (message_of sample_frame) [] 1
                sample_driver
                {[1%nat := pycanlib_io.set_tx_queue
                             {| maxsize := 0;
                                items := [message_of sample_frame] |}
                             (new_handle 0 0 6)]}
                ∅ ∅ {[6 := 1%nat]} ∅ []
                eq_refl eq_refl
                ltac:(unfold ready_to_send; simpl; split_and!;
                        [done|done|lia])
                eq_refl
                ltac:(constructor; [exact sample_message_bytes|];
                      constructor; [exact sample_message_bytes|constructor]))
    as (_ & H & _).
  exact H.
Defined.

(** *** Buses that share a handle *)
Section SharedHandleFacts.
Import Builtins pycanlib pycanlib_io.

Lemma get_handle_store ch fl reg w w' r :
  _get_handle ch fl reg w = (w', r) →
  buses w' = buses w
  ∧ (handles w' = handles w
     ∨ handles w'
       = <[fresh (dom (handles w)) := new_handle ch fl (next_handle (drv w))]>
           (handles w)).
Proof.
  intros Hrun.
  destruct (scan (handles w) ch fl (map_to_list (registry_of reg w)))
    as [a|] eqn:Hscan.
  - destruct (finds_lookup w reg ch fl a Hscan) as (h & _ & Hh & _).
    rewrite (get_handle_found ch fl reg w a h Hscan Hh) in Hrun.
    injection Hrun as <- <-. split; [done|by left].
  - destruct (can_open ch fl (drv w)) eqn:Hopen.
    + rewrite (get_handle_new ch fl reg w Hscan Hopen) in Hrun.
      injection Hrun as <- <-. split.
      * unfold notified, registered. by destruct reg.
      * right. by rewrite notified_handles, registered_handles.
    + destruct (get_handle_refused ch fl reg w Hscan Hopen)
        as (v & e & E & Hh & Hb & _).
      rewrite E in Hrun. injection Hrun as <- <-. split; [done|by left].
Qed.

Lemma quiet_initial d : quiet (initial d).
Proof.
  split.
  - intros a h H. simpl in H. by rewrite lookup_empty in H.
  - intros b B H. simpl in H. by rewrite lookup_empty in H.
Qed.

Lemma quiet_get_handle ch fl reg w w' r :
  _get_handle ch fl reg w = (w', r) → quiet w → quiet w'.
Proof.
  intros [Hb [Hh|Hh]]%get_handle_store [Hq1 Hq2].
  - split.
    + intros a h. rewrite Hh, Hb. apply Hq1.
    + intros b B. rewrite Hh, Hb. apply Hq2.
  - split.
    + intros a h. rewrite Hh, Hb.
      intros [[<- <-]|[Hne Hold]]%lookup_insert_Some.
      * simpl. split_and!; [done|done|apply NoDup_nil_2|].
        intros b Hin. by apply elem_of_nil in Hin.
      * by apply (Hq1 a).
    + intros b B. rewrite Hh, Hb. intros HB.
      destruct (Hq2 b B HB) as (Hqueue & h & Hrh & Hin).
      split; [done|]. exists h. split; [|done].
      rewrite lookup_insert_ne; [done|].
      intros Heq. rewrite <- Heq in Hrh.
      by rewrite fresh_handle_unused in Hrh.
Qed.

(** The end of [Bus.__init__], with the bus it stores. *)
Lemma bus_tail_stores rh wh p driver_mode name w hr hw :
  handles w !! rh = Some hr →
  handles w !! wh = Some hw →
  ∃ d off,
    bus_tail rh wh p driver_mode name w
    = (set_handles
         (<[rh := _Handle.add_listener (fresh (dom (buses w))) hr]> (handles w))
         (set_buses
            (<[fresh (dom (buses w)) :=
                 {| Bus.name := name; Bus._read_handle := rh;
                    Bus._write_handle := wh; Bus.driver_mode := driver_mode;
                    Bus.rx_queue := Queue_new 0;
                    Bus.timer_offset := off |}]> (buses w))
            (set_drv d w)),
       Ok (fresh (dom (buses w)))).
Proof.
  intros Hr Hw. unfold bus_tail.
  rewrite (bindS_run (get_canlib_handle rh) _ w w (_Handle._canlib_handle hr))
    by (unfold get_canlib_handle; by rewrite Hr).
  destruct (program_handle_run (_Handle._canlib_handle hr) p driver_mode w)
    as (d1 & Hp1 & Hn1).
  rewrite (bindS_run _ _ _ _ _ Hp1).
  unfold get_world at 1, bindS at 1.
  assert (∃ d2,
    (if negb (driver_mode =? canDRIVER_SILENT (drv (set_drv d1 w)))
     then wh0 <- get_canlib_handle wh ;; program_handle wh0 p driver_mode
     else ret tt) (set_drv d1 w) = (set_drv d2 w, Ok tt)) as (d2 & Hp2).
  { destruct (negb _); [|by exists d1].
    rewrite (bindS_run (get_canlib_handle wh) _ (set_drv d1 w) (set_drv d1 w)
               (_Handle._canlib_handle hw))
      by (unfold get_canlib_handle; simpl; by rewrite Hw).
    destruct (program_handle_run (_Handle._canlib_handle hw) p driver_mode
                (set_drv d1 w)) as (d2 & Hp2 & Hn2).
    exists d2. by rewrite Hp2. }
  rewrite (bindS_run _ _ _ _ _ Hp2).
  unfold get_world, bindS at 1, modify at 1, bindS at 1.
  unfold add_listener, bindS, ret. simpl. rewrite Hr.
  by eexists d2, _.
Qed.

Lemma quiet_bus_tail rh wh p driver_mode name w w' r :
  is_Some (handles w !! rh) → is_Some (handles w !! wh) →
  bus_tail rh wh p driver_mode name w = (w', r) → quiet w → quiet w'.
Proof.
  intros [hr Hr] [hw Hw] Hrun [Hq1 Hq2].
  destruct (bus_tail_stores rh wh p driver_mode name w hr hw Hr Hw)
    as (d & off & E).
  rewrite E in Hrun. injection Hrun as <- <-.
  set (b0 := fresh (dom (buses w))).
  assert (Hfresh : buses w !! b0 = None) by apply fresh_bus_unused.
  split.
  - intros a h. simpl.
    intros [[<- <-]|[Hne Hold]]%lookup_insert_Some.
    + destruct (Hq1 rh hr Hr) as (H1 & H2 & H3 & H4).
      simpl. split_and!; [done|done| |].
      * apply NoDup_app. split_and!; [done| |apply NoDup_singleton].
        intros x Hx ->%list_elem_of_singleton.
        destruct (H4 b0 Hx) as [B HB]. by rewrite Hfresh in HB.
      * intros b [Hb|Hb%list_elem_of_singleton]%elem_of_app.
        -- destruct (H4 b Hb) as [B HB].
           rewrite lookup_insert_ne; [by exists B|].
           intros <-. by rewrite Hfresh in HB.
        -- subst b. rewrite lookup_insert_eq. by eexists.
    + destruct (Hq1 a h Hold) as (H1 & H2 & H3 & H4).
      split_and!; [done|done|done|].
      intros b Hb. destruct (H4 b Hb) as [B HB].
      rewrite lookup_insert_ne; [by exists B|].
      intros <-. by rewrite Hfresh in HB.
  - intros b B. simpl.
    intros [[<- <-]|[Hne Hold]]%lookup_insert_Some.
    + simpl. split; [done|]. eexists. rewrite lookup_insert_eq.
      split; [done|]. simpl. apply elem_of_app. right.
      by apply list_elem_of_singleton.
    + destruct (Hq2 b B Hold) as (Hqueue & h & Hh & Hin).
      split; [done|].
      destruct (decide (Bus._read_handle B = rh)) as [Heq|Hne'].
      * rewrite Heq in Hh |- *. rewrite lookup_insert_eq. eexists.
        split; [done|]. simpl. apply elem_of_app. left.
        rewrite Hr in Hh. by injection Hh as ->.
      * rewrite lookup_insert_ne by done. by exists h.
Qed.

Lemma quiet_bus_init ch fl p driver_mode name w w' r :
  deduplicated w →
  Bus__init__ ch fl p driver_mode name w = (w', r) → quiet w → quiet w'.
Proof.
  intros Hd. rewrite bus_init_unfold. unfold bindS at 1.
  destruct (_get_handle ch fl READ w) as [wa [rh|e]] eqn:Hread.
  2: { intros [= <- <-]. by eapply quiet_get_handle. }
  destruct (get_handle_step _ _ _ _ _ _ Hd Hread) as [Hda Hpa].
  unfold bindS at 1.
  destruct (_get_handle ch fl WRITE wa) as [wb [wh|e]] eqn:Hwrite.
  2: { intros [= <- <-] Hq.
       by eapply quiet_get_handle, quiet_get_handle. }
  destruct (get_handle_step _ _ _ _ _ _ Hda Hwrite) as [Hdb Hpb].
  pose proof (get_handle_carries _ _ _ _ _ _ Hread) as Hcr.
  pose proof (get_handle_carries _ _ _ _ _ _ Hwrite) as Hcw.
  apply (proj1 Hpb) in Hcr.
  intros Hrun Hq. eapply quiet_bus_tail; [| |exact Hrun|].
  - by eapply carries_lookup.
  - by eapply carries_lookup.
  - by eapply quiet_get_handle, quiet_get_handle.
Qed.

Lemma quiet_evolves w w' :
  deduplicated w → quiet w → evolves w w' → quiet w'.
Proof.
  intros Hd Hq.
  induction 1 as [|w1 w2 ch fl reg r Hev IH Hrun
                  |w1 w2 ch fl p m n r Hev IH Hrun]; [done| |].
  - by eapply quiet_get_handle.
  - destruct (evolves_keeps _ _ Hd Hev) as [Hd1 _].
    by eapply quiet_bus_init.
Qed.

Lemma system_eta (w : world) p wr :
  {| state := w; pending := p; written := wr |}
  = system_of (drv w) (handles w) (buses w) (READ_HANDLE_REGISTRY w)
      (WRITE_HANDLE_REGISTRY w) p wr.
Proof. by destruct w. Qed.

(** X17. Two buses constructed for the same channel and flags both
    receive. In a program that starts from the import of the module, the
    two buses, whatever was acquired and constructed besides, listen on
    one read handle, and one call of [receive_callback] for it puts the
    message of every frame that waits, in order, into the receive queue
    of the one bus and into that of the other. *)
Theorem buses_on_one_channel_both_receive (maxint : Z) d ch fl
    p1 m1 n1 p2 m2 n2 w w1 w1' w2 b1 b2 (frames : list frame) :
  2 ^ 16 ≤ maxint →
  evolves (initial d) w →
  Bus__init__ ch fl p1 m1 n1 w = (w1, Ok b1) →
  evolves w1 w1' →
  Bus__init__ ch fl p2 m2 n2 w1' = (w2, Ok b2) →
  Forall acceptable frames →
  ∃ a h B1 B2,
    buses w2 !! b1 = Some B1 ∧ buses w2 !! b2 = Some B2
    ∧ Bus._read_handle B1 = a ∧ Bus._read_handle B2 = a
    ∧ handles w2 !! a = Some h
    ∧ ∀ p wr,
        p !! _Handle._canlib_handle h = Some frames →
        ∃ s',
          receive_callback maxint a
            {| state := w2; pending := p; written := wr |}
          = (s', Done tt)
          ∧ Bus.rx_queue <$> buses (state s') !! b1
            = Some {| maxsize := 0; items := map message_of frames |}
          ∧ Bus.rx_queue <$> buses (state s') !! b2
            = Some {| maxsize := 0; items := map message_of frames |}.
Proof.
  intros Hmax Hev0 Hrun1 Hev1 Hrun2 Hok.
  pose proof (evolves_from_import _ _ Hev0) as Hd.
  pose proof (quiet_evolves _ _ (initial_deduplicated d) (quiet_initial d)
                Hev0) as Hq.
  destruct (bus_init_step _ _ _ _ _ _ _ _ Hd Hrun1) as (Hd1 & _ & Hbus1).
  destruct (Hbus1 b1 eq_refl) as (B1 & _ & HB1 & Hcr1 & _).
  pose proof (quiet_bus_init _ _ _ _ _ _ _ _ Hd Hrun1 Hq) as Hq1.
  destruct (evolves_keeps _ _ Hd1 Hev1) as [Hd1' [Hkeep Hkeepb]].
  pose proof (quiet_evolves _ _ Hd1 Hq1 Hev1) as Hq1'.
  destruct (bus_init_step _ _ _ _ _ _ _ _ Hd1' Hrun2)
    as (Hd2 & [Hkeep2 Hkeepb2] & Hbus2).
  destruct (Hbus2 b2 eq_refl) as (B2 & _ & HB2 & Hcr2 & _).
  pose proof (quiet_bus_init _ _ _ _ _ _ _ _ Hd1' Hrun2 Hq1') as [Hq2a Hq2b].
  apply Hkeep, Hkeep2 in Hcr1. apply Hkeepb, Hkeepb2 in HB1.
  assert (Hsame : Bus._read_handle B1 = Bus._read_handle B2)
    by (destruct Hd2 as (_ & _ & Huniq); by apply (Huniq READ ch fl)).
  destruct (Hq2b b1 B1 HB1) as (Hqueue1 & h & Hh & Hin1).
  destruct (Hq2b b2 B2 HB2) as (Hqueue2 & h' & Hh' & Hin2).
  rewrite <- Hsame, Hh in Hh'. injection Hh' as <-.
  destruct (Hq2a _ h Hh) as (Hr & He & Hnd & Hls).
  exists (Bus._read_handle B1), h, B1, B2.
  split_and!; [done|done|done|done|done|].
  intros p wr Hp. rewrite system_eta.
  destruct (receive_callback_delivers maxint Hmax (Bus._read_handle B1) h
              frames (drv w2) (handles w2) (buses w2)
              (READ_HANDLE_REGISTRY w2) (WRITE_HANDLE_REGISTRY w2) p wr
              Hh Hr He Hp Hok Hnd) as (bs' & Hrun & Hlook).
  { intros l Hl. destruct (Hls l Hl) as [B HB]. exists B. split; [done|].
    destruct (Hq2b l B HB) as [-> _]. simpl. lia. }
  eexists. split; [exact Hrun|]. simpl. rewrite !Hlook.
  rewrite !decide_True by done. rewrite HB1, HB2. simpl.
  by rewrite Hqueue1, Hqueue2.
Qed.

End SharedHandleFacts.

Lemma buses_on_one_channel_both_receive_witness :
  ∃ w1 w1' w2 a h B1 B2,
    pycanlib.Bus__init__ 0 0 sample_params 4 "first"
      (pycanlib.initial sample_driver) = (w1, Ok 0%nat)
    ∧ pycanlib.Bus__init__ 1 0 sample_params 4 "other" w1 = (w1', Ok 1%nat)
    ∧ pycanlib.Bus__init__ 0 0 sample_params 4 "second" w1' = (w2, Ok 2%nat)
    ∧ pycanlib.buses w2 !! 0%nat = Some B1
    ∧ pycanlib.buses w2 !! 2%nat = Some B2
    ∧ pycanlib.Bus._read_handle B1 = a
    ∧ pycanlib.Bus._read_handle B2 = a
    ∧ pycanlib.handles w2 !! a = Some h
    ∧ ∀ p wr,
        p !! pycanlib._Handle._canlib_handle h
        = Some [sample_frame; sample_frame] →
        ∃ s',
          pycanlib_io.receive_callback (2 ^ 31 - 1) a
            {| pycanlib_io.state := w2; pycanlib_io.pending := p;
               pycanlib_io.written := wr |}
          = (s', Builtins.Done tt)
          ∧ pycanlib.Bus.rx_queue
              <$> pycanlib.buses (pycanlib_io.state s') !! 0%nat
            = Some {| maxsize := 0;
                      items := map message_of [sample_frame; sample_frame] |}
          ∧ pycanlib.Bus.rx_queue
              <$> pycanlib.buses (pycanlib_io.state s') !! 2%nat
            = Some {| maxsize := 0;
                      items := map message_of [sample_frame; sample_frame] |}.
Proof.
  set (w0 := pycanlib.initial sample_driver).
  set (w1 := fst (pycanlib.Bus__init__ 0 0 sample_params 4 "first" w0)).
  set (w1' := fst (pycanlib.Bus__init__ 1 0 sample_params 4 "other" w1)).
  set (w2 := fst (pycanlib.Bus__init__ 0 0 sample_params 4 "second" w1')).
  assert (Hfirst :
    pycanlib.Bus__init__ 0 0 sample_params 4 "first" w0 = (w1, Ok 0%nat))
    by (vm_compute; reflexivity).
  assert (Hother :
    pycanlib.Bus__init__ 1 0 sample_params 4 "other" w1 = (w1', Ok 1%nat))
    by (vm_compute; reflexivity).
  assert (Hsecond :
    pycanlib.Bus__init__ 0 0 sample_params 4 "second" w1' = (w2, Ok 2%nat))
    by (vm_compute; reflexivity).
  destruct (buses_on_one_channel_both_receive (2 ^ 31 - 1) sample_driver 0 0
              sample_params 4 "first" sample_params 4 "second"
              w0 w1 w1' w2 0%nat 2%nat [sample_frame; sample_frame]
              ltac:(lia) (evolves_here w0) Hfirst
              (evolves_bus w1 w1 w1' 1 0 sample_params 4 "other" (Ok 1%nat)
                 (evolves_here w1) Hother)
              Hsecond ltac:(repeat constructor; simpl; lia))
    as (a & h & B1 & B2 & H).
  exists w1, w1', w2, a, h, B1, B2.
  split; [exact Hfirst|]. split; [exact Hother|]. split; [exact Hsecond|].
  exact H.
Defined.

(** *** Construction of a bus: bus parameters and refusals *)
Section BusInitFacts.
Import pycanlib.

Lemma same_params (p q : bus_params) :
  negb (speed p =? speed q) || negb (tseg1 p =? tseg1 q)
  || negb (tseg2 p =? tseg2 q) || negb (sjw p =? sjw q)
  || negb (no_samp p =? no_samp q) = false →
  q = p.
Proof.
  destruct p, q. simpl. intros H.
  repeat (apply orb_false_iff in H as [H ?]).
  repeat match goal with
         | H : negb (_ =? _) = false |- _ =>
             apply negb_false_iff, Z.eqb_eq in H
         end.
  by subst.
Qed.

(** Programming a handle with [p] leaves it with [p], and leaves [p] on
    every handle that had it. *)
Lemma program_handle_params h p driver_mode w :
  ∃ d, program_handle h p driver_mode w = (set_drv d w, Ok tt)
       ∧ canGetBusParams h d = p
       ∧ (∀ k, canGetBusParams k (drv w) = p → canGetBusParams k d = p)
       ∧ canDRIVER_SILENT d = canDRIVER_SILENT (drv w).
Proof.
  unfold program_handle, bindS, get_world, driver, modify, ret.
  destruct (_ || _) eqn:Hdiff; eexists; (split; [reflexivity|]).
  - split_and!; [| |done].
    + unfold canGetBusParams, set_params, served. simpl.
      by rewrite lookup_insert_eq.
    + intros k Hk. unfold canGetBusParams, set_params, served in *. simpl.
      destruct (decide (k = h)) as [->|Hne].
      * by rewrite lookup_insert_eq.
      * by rewrite lookup_insert_ne.
  - apply same_params in Hdiff. split_and!; [|done|done].
    unfold canGetBusParams, served in *. simpl. done.
Qed.

Lemma bus_tail_programs rh wh p driver_mode name w hr hw :
  handles w !! rh = Some hr →
  handles w !! wh = Some hw →
  ∃ d off,
    bus_tail rh wh p driver_mode name w
    = (set_handles
         (<[rh := _Handle.add_listener (fresh (dom (buses w))) hr]> (handles w))
         (set_buses
            (<[fresh (dom (buses w)) :=
                 {| Bus.name := name; Bus._read_handle := rh;
                    Bus._write_handle := wh; Bus.driver_mode := driver_mode;
                    Bus.rx_queue := Queue_new 0;
                    Bus.timer_offset := off |}]> (buses w))
            (set_drv d w)),
       Ok (fresh (dom (buses w))))
    ∧ canGetBusParams (_Handle._canlib_handle hr) d = p
    ∧ (driver_mode ≠ canDRIVER_SILENT d →
       canGetBusParams (_Handle._canlib_handle hw) d = p).
Proof.
  intros Hr Hw. unfold bus_tail.
  rewrite (bindS_run (get_canlib_handle rh) _ w w (_Handle._canlib_handle hr))
    by (unfold get_canlib_handle; by rewrite Hr).
  destruct (program_handle_params (_Handle._canlib_handle hr) p driver_mode w)
    as (d1 & Hp1 & Hr1 & _ & Hs1).
  rewrite (bindS_run _ _ _ _ _ Hp1).
  unfold get_world at 1, bindS at 1.
  assert (∃ d2,
    (if negb (driver_mode =? canDRIVER_SILENT (drv (set_drv d1 w)))
     then wh0 <- get_canlib_handle wh ;; program_handle wh0 p driver_mode
     else ret tt) (set_drv d1 w) = (set_drv d2 w, Ok tt)
    ∧ canGetBusParams (_Handle._canlib_handle hr) d2 = p
    ∧ (driver_mode ≠ canDRIVER_SILENT d2 →
       canGetBusParams (_Handle._canlib_handle hw) d2 = p))
    as (d2 & Hp2 & Hr2 & Hw2).
  { simpl. destruct (Z.eqb_spec driver_mode (canDRIVER_SILENT d1)) as [Heq|Hne];
      cbn [negb]; [by exists d1|].
    rewrite (bindS_run (get_canlib_handle wh) _ (set_drv d1 w) (set_drv d1 w)
               (_Handle._canlib_handle hw))
      by (unfold get_canlib_handle; simpl; by rewrite Hw).
    destruct (program_handle_params (_Handle._canlib_handle hw) p driver_mode
                (set_drv d1 w)) as (d2 & Hp2 & Hw2 & Hkeep & Hs2).
    exists d2. rewrite Hp2. split_and!; [done| |done].
    by apply Hkeep. }
  rewrite (bindS_run _ _ _ _ _ Hp2).
  unfold get_world, bindS at 1, modify at 1, bindS at 1.
  unfold add_listener, bindS, ret. simpl. rewrite Hr.
  by eexists d2, _.
Qed.

Lemma bus_init_params ch fl p driver_mode name w w' b :
  Bus__init__ ch fl p driver_mode name w = (w', Ok b) →
  ∃ B hr hw,
    buses w' !! b = Some B
    ∧ handles w' !! Bus._read_handle B = Some hr
    ∧ handles w' !! Bus._write_handle B = Some hw
    ∧ canGetBusParams (_Handle._canlib_handle hr) (drv w') = p
    ∧ (driver_mode ≠ canDRIVER_SILENT (drv w') →
       canGetBusParams (_Handle._canlib_handle hw) (drv w') = p).
Proof.
  rewrite bus_init_unfold.
  intros (wa & rh & Hread & Hrest)%bindS_ok.
  apply bindS_ok in Hrest as (wb & wh & Hwrite & Htail).
  pose proof (get_handle_finds _ _ _ _ _ _ Hread) as Hfr.
  pose proof (get_handle_finds _ _ _ _ _ _ Hwrite) as Hfw.
  destruct (finds_lookup _ _ _ _ _ Hfr) as (hr0 & _ & Hhr0 & _).
  destruct (finds_lookup _ _ _ _ _ Hfw) as (hw & _ & Hhw & _).
  assert (Hhr : handles wb !! rh = Some hr0).
  { destruct (get_handle_store _ _ _ _ _ _ Hwrite) as [_ [Hs|Hs]];
      rewrite Hs; [done|].
    rewrite lookup_insert_ne; [done|].
    intros <-. by rewrite fresh_handle_unused in Hhr0. }
  destruct (bus_tail_programs rh wh p driver_mode name wb hr0 hw Hhr Hhw)
    as (d & off & E & Hpr & Hpw).
  rewrite E in Htail. injection Htail as <- <-.
  destruct (decide (wh = rh)) as [->|Hne].
  - eexists _, (_Handle.add_listener (fresh (dom (buses wb))) hr0),
      (_Handle.add_listener (fresh (dom (buses wb))) hr0).
    simpl. rewrite lookup_insert_eq.
    split; [reflexivity|]. simpl. rewrite lookup_insert_eq.
    split_and!; [done|done|done|].
    intros Hmode. rewrite Hhr in Hhw. injection Hhw as ->. by apply Hpw.
  - eexists _, (_Handle.add_listener (fresh (dom (buses wb))) hr0), hw.
    simpl. rewrite lookup_insert_eq.
    split; [reflexivity|]. simpl.
    rewrite lookup_insert_eq, lookup_insert_ne by done. by split_and!.
Qed.

(** X18. A bus that has been constructed has its parameters on its
    handles: the driver holds the speed, the two segments, the jump width
    and the sample count that were given for the read handle of the bus,
    and for its write handle too unless the bus is silent. *)
Theorem bus_init_sets_parameters ch fl p driver_mode name w w' b :
  Bus__init__ ch fl p driver_mode name w = (w', Ok b) →
  ∃ B hr hw,
    buses w' !! b = Some B
    ∧ handles w' !! Bus._read_handle B = Some hr
    ∧ handles w' !! Bus._write_handle B = Some hw
    ∧ canGetBusParams (_Handle._canlib_handle hr) (drv w') = p
    ∧ (driver_mode ≠ canDRIVER_SILENT (drv w') →
       canGetBusParams (_Handle._canlib_handle hw) (drv w') = p).
Proof. apply bus_init_params. Qed.

(** X19. The bus constructed last sets the parameters of a shared
    handle. When a second bus is constructed for the channel and flags of
    a first one with other parameters, in a program that starts from the
    import of the module, the read handle of the first bus, which is that
    of the second, is left with the parameters of the second: the first
    bus runs on them from then on, without a notice. *)
Theorem later_bus_sets_shared_parameters d ch fl p1 m1 n1 p2 m2 n2
    w w1 w1' w2 b1 b2 :
  evolves (initial d) w →
  Bus__init__ ch fl p1 m1 n1 w = (w1, Ok b1) →
  evolves w1 w1' →
  Bus__init__ ch fl p2 m2 n2 w1' = (w2, Ok b2) →
  ∃ B1 hr,
    buses w2 !! b1 = Some B1
    ∧ handles w2 !! Bus._read_handle B1 = Some hr
    ∧ canGetBusParams (_Handle._canlib_handle hr) (drv w2) = p2.
Proof.
  intros Hev0 Hrun1 Hev1 Hrun2.
  pose proof (evolves_from_import _ _ Hev0) as Hd.
  destruct (bus_init_step _ _ _ _ _ _ _ _ Hd Hrun1) as (Hd1 & _ & Hbus1).
  destruct (Hbus1 b1 eq_refl) as (B1 & _ & HB1 & Hcr1 & _).
  destruct (evolves_keeps _ _ Hd1 Hev1) as [Hd1' [Hkeep Hkeepb]].
  destruct (bus_init_step _ _ _ _ _ _ _ _ Hd1' Hrun2)
    as (Hd2 & [Hkeep2 Hkeepb2] & Hbus2).
  destruct (Hbus2 b2 eq_refl) as (B2 & _ & HB2 & Hcr2 & _).
  apply Hkeep, Hkeep2 in Hcr1. apply Hkeepb, Hkeepb2 in HB1.
  assert (Hsame : Bus._read_handle B1 = Bus._read_handle B2)
    by (destruct Hd2 as (_ & _ & Huniq); by apply (Huniq READ ch fl)).
  destruct (bus_init_params _ _ _ _ _ _ _ _ Hrun2)
    as (B2' & hr & hw & HB2' & Hhr & _ & Hp & _).
  rewrite HB2 in HB2'. injection HB2' as <-.
  exists B1, hr. rewrite Hsame. by split_and!.
Qed.

(** X20. What the construction of a bus is refused for, when no handle
    for the channel and flags is registered yet. A channel outside
    [range(0, n)], with [n] the number of channels of the system, is an
    [InvalidBusParameterError] for [channel], and its text gives the
    range as [0] to [n]; flags outside the mask of the open flags are one
    for [flags]; in both cases the driver is not asked and the module is
    as it was. When the driver refuses to open the channel, its "not
    found" is an [InvalidBusParameterError] for [flags] and any other
    error code leaves as the [CANLIBError] it is; the call is in the
    record of the driver and nothing else has changed: no handle, no
    registry entry, no bus. *)
Theorem bus_init_refusals ch fl p driver_mode name w :
  unregistered w READ ch fl →
  (in_range ch 0 (num_channels (drv w)) = false →
   Bus__init__ ch fl p driver_mode name w
   = (w, Raise (InvalidBusParameterError "channel" (VInt ch)
                  ("available channels on this system are in the range [0, "
                     +:+ format_dec (num_channels (drv w)) +:+ "]"))))
  ∧ (in_range ch 0 (num_channels (drv w)) = true →
     Z.land fl (65535 - FLAGS_MASK (drv w)) ≠ 0 →
     Bus__init__ ch fl p driver_mode name w
     = (w, Raise (InvalidBusParameterError "flags" (VInt fl)
                    "must contain only the canOPEN_* flags listed in canlib.py")))
  ∧ (in_range ch 0 (num_channels (drv w)) = true →
     Z.land fl (65535 - FLAGS_MASK (drv w)) = 0 →
     open_status (drv w) ch fl ≠ 0 →
     Bus__init__ ch fl p driver_mode name w
     = (set_drv (served (canOpenChannel_call ch fl) (drv w)) w,
        Raise (if open_status (drv w) ch fl =? canERR_NOTFOUND (drv w)
               then InvalidBusParameterError "flags" (VInt fl)
                      "no hardware is available that has all these capabilities"
               else CANLIBError (open_status (drv w) ch fl)))).
Proof.
  intros Hscan%unregistered_scan.
  assert (Hinit : ∀ e w',
    _Handle__init__ ch fl w = (w', Raise e) →
    Bus__init__ ch fl p driver_mode name w = (w', Raise e)).
  { intros e w' H. rewrite bus_init_unfold.
    unfold bindS at 1, _get_handle.
    unfold bindS at 1, get_world at 1. rewrite Hscan.
    unfold bindS at 1, bindS at 1. by rewrite H. }
  split_and!.
  - intros Hch. apply Hinit.
    unfold _Handle__init__, bindS, get_world, raise. by rewrite Hch.
  - intros Hch Hfl%Z.eqb_neq. apply Hinit.
    unfold _Handle__init__, bindS, get_world, raise. by rewrite Hch, Hfl.
  - intros Hch Hfl%Z.eqb_eq Hst%Z.eqb_neq. apply Hinit.
    unfold _Handle__init__, bindS, get_world, raise. rewrite Hch, Hfl.
    cbn [negb]. unfold canOpenChannel. cbn [open_status served].
    rewrite Hst.
    change (canERR_NOTFOUND (served (canOpenChannel_call ch fl) (drv w)))
      with (canERR_NOTFOUND (drv w)).
    by destruct (open_status (drv w) ch fl =? canERR_NOTFOUND (drv w)).
Qed.

End BusInitFacts.

Lemma bus_init_sets_parameters_witness :
  ∃ w' B hr hw,
    pycanlib.Bus__init__ 0 0 sample_params 4 "first"
      (pycanlib.initial sample_driver) = (w', Ok 0%nat)
    ∧ pycanlib.buses w' !! 0%nat = Some B
    ∧ pycanlib.handles w' !! pycanlib.Bus._read_handle B = Some hr
    ∧ pycanlib.handles w' !! pycanlib.Bus._write_handle B = Some hw
    ∧ pycanlib.canGetBusParams (pycanlib._Handle._canlib_handle hr)
        (pycanlib.drv w') = sample_params
    ∧ (4 ≠ pycanlib.canDRIVER_SILENT (pycanlib.drv w') →
       pycanlib.canGetBusParams (pycanlib._Handle._canlib_handle hw)
         (pycanlib.drv w') = sample_params).
Proof.
  set (w0 := pycanlib.initial sample_driver).
  set (w1 := fst (pycanlib.Bus__init__ 0 0 sample_params 4 "first" w0)).
  assert (Hfirst :
    pycanlib.Bus__init__ 0 0 sample_params 4 "first" w0 = (w1, Ok 0%nat))
    by (vm_compute; reflexivity).
  destruct (bus_init_sets_parameters 0 0 sample_params 4 "first" w0 w1 0%nat
              Hfirst) as (B & hr & hw & H).
  exists w1, B, hr, hw. split; [exact Hfirst|exact H].
Defined.

Lemma later_bus_sets_shared_parameters_witness :
  ∃ w1 w2 B1 hr,
    pycanlib.Bus__init__ 0 0 sample_params 4 "first"
      (pycanlib.initial sample_driver) = (w1, Ok 0%nat)
    ∧ pycanlib.Bus__init__ 0 0
        {| pycanlib.speed := 500000; pycanlib.tseg1 := 4;
           pycanlib.tseg2 := 3; pycanlib.sjw := 1; pycanlib.no_samp := 1 |}
        4 "second" w1 = (w2, Ok 1%nat)
    ∧ pycanlib.buses w2 !! 0%nat = Some B1
    ∧ pycanlib.handles w2 !! pycanlib.Bus._read_handle B1 = Some hr
    ∧ pycanlib.canGetBusParams (pycanlib._Handle._canlib_handle hr)
        (pycanlib.drv w2)
      = {| pycanlib.speed := 500000; pycanlib.tseg1 := 4;
           pycanlib.tseg2 := 3; pycanlib.sjw := 1; pycanlib.no_samp := 1 |}.
Proof.
  set (p2 := {| pycanlib.speed := 500000; pycanlib.tseg1 := 4;
                pycanlib.tseg2 := 3; pycanlib.sjw := 1;
                pycanlib.no_samp := 1 |}).
  set (w0 := pycanlib.initial sample_driver).
  set (w1 := fst (pycanlib.Bus__init__ 0 0 sample_params 4 "first" w0)).
  set (w2 := fst (pycanlib.Bus__init__ 0 0 p2 4 "second" w1)).
  assert (Hfirst :
    pycanlib.Bus__init__ 0 0 sample_params 4 "first" w0 = (w1, Ok 0%nat))
    by (vm_compute; reflexivity).
  assert (Hsecond :
    pycanlib.Bus__init__ 0 0 p2 4 "second" w1 = (w2, Ok 1%nat))
    by (vm_compute; reflexivity).
  destruct (later_bus_sets_shared_parameters sample_driver 0 0
              sample_params 4 "first" p2 4 "second" w0 w1 w1 w2 0%nat 1%nat
              (evolves_here w0) Hfirst (evolves_here w1) Hsecond)
    as (B1 & hr & H).
  exists w1, w2, B1, hr. split; [exact Hfirst|]. split; [exact Hsecond|].
  exact H.
Defined.

Lemma bus_init_refusals_witness :
  pycanlib.Bus__init__ 2 0 sample_params 4 "third"
    (pycanlib.initial sample_driver)
  = (pycanlib.initial sample_driver,
     Raise (InvalidBusParameterError "channel" (VInt 2)
              "available channels on this system are in the range [0, 2]")).
Proof.
  destruct (bus_init_refusals 2 0 sample_params 4 "third"
              (pycanlib.initial sample_driver)) as (H & _).
  - intros k a Hk. simpl in Hk. by rewrite lookup_empty in Hk.
  - apply H. reflexivity.
Defined.

Lemma csv_writer_rows_witness :
  Listener.CSVWriter_on_message_received
    {| Listener.timestamp := VFloat (FFin false 15 (-1));
       Listener.arbitration_id := VInt 291; Listener.flags := VInt 0;
       Listener.dlc := VInt 1; Listener.data := VList [VInt 17] |}
    Listener.CSVWriter__init__
  = (Listener.CSVWriter__init__, Raise TypeError)
  ∧ Listener.CSVWriter_on_message_received
      {| Listener.timestamp := VStr "1.5";
         Listener.arbitration_id := VStr "123"; Listener.flags := VStr "0";
         Listener.dlc := VStr "1"; Listener.data := VStr "11" |}
      Listener.CSVWriter__init__
    = ({| Listener.csv_file :=
            "timestamp, arbitrationid, flags, dlc, data1.5,123,0,1,11"
              +:+ Listener.newline |}, Ok tt).
Proof.
  split.
  - apply (proj1 (proj2 (csv_writer_rows
                           {| Listener.timestamp := VFloat (FFin false 15 (-1));
                              Listener.arbitration_id := VInt 291;
                              Listener.flags := VInt 0;
                              Listener.dlc := VInt 1;
                              Listener.data := VList [VInt 17] |}
                           Listener.CSVWriter__init__))).
    exists (VInt 291). split; [|reflexivity].
    apply list_elem_of_further, list_elem_of_here.
  - apply (proj1 (csv_writer_rows
                    {| Listener.timestamp := VStr "1.5";
                       Listener.arbitration_id := VStr "123";
                       Listener.flags := VStr "0";
                       Listener.dlc := VStr "1"; Listener.data := VStr "11" |}
                    Listener.CSVWriter__init__) ["1.5"; "123"; "0"; "1"; "11"]).
    reflexivity.
Defined.
